(** * String Analyzer API: the analyzer, the query translator and the
      request handlers of [src/controllers/string.controllers.js],
      with the validators and the store model they call.

    Strings are JavaScript strings: finite sequences of UTF-16 code units.
    Everything the repository writes itself is transcribed as an executable
    function.  What the code takes from the JavaScript runtime and is too
    large to transcribe (lower-casing outside ASCII, SHA-256, the printing
    of doubles that no longer hold an exact integer) is an interface,
    [JSRuntime]; the theorems hold for every runtime. Two facts of the
    Unicode case mapping, [JSRuntimeOk], are a hypothesis where a
    statement needs them, and [RefRuntime] is a runtime that has them. *)

From stdpp Require Import gmap strings list fin_maps.
From Stdlib Require Import ZArith NArith Ascii String List Lia.
Import ListNotations.

Open Scope Z_scope.

(* ===================================================================== *)
(** ** JavaScript strings                                                 *)
(* ===================================================================== *)

(** A code unit is a number below 65536; a string is a list of them.
    Nothing below needs the bound, so it is not carried around. *)
Abbreviation codeunit := N (only parsing).
Abbreviation jsstring := (list N) (only parsing).

Fixpoint js (s : string) : jsstring :=
  match s with
  | EmptyString => []
  | String a s' => N_of_ascii a :: js s'
  end.

Definition codeunit_eqb (a b : codeunit) : bool := N.eqb a b.

Fixpoint jsstring_eqb (s t : jsstring) : bool :=
  match s, t with
  | [], [] => true
  | a :: s', b :: t' => codeunit_eqb a b && jsstring_eqb s' t'
  | _, _ => false
  end.

(** [s.length]: the number of code units. *)
Definition jslength (s : jsstring) : Z := Z.of_nat (length s).

Definition in_range (lo hi c : codeunit) : bool := (N.leb lo c && N.leb c hi)%bool.

(** ECMAScript WhiteSpace and LineTerminator: what [String.prototype.trim]
    strips and what the pattern [\s] matches. *)
Definition isWhiteSpace (c : codeunit) : bool :=
  (in_range 9 13 c            (* TAB LF VT FF CR *)
   || N.eqb c 32              (* SPACE *)
   || N.eqb c 160             (* NO-BREAK SPACE *)
   || N.eqb c 5760            (* U+1680 *)
   || in_range 8192 8202 c    (* U+2000 .. U+200A *)
   || N.eqb c 8232            (* U+2028 *)
   || N.eqb c 8233            (* U+2029 *)
   || N.eqb c 8239            (* U+202F *)
   || N.eqb c 8287            (* U+205F *)
   || N.eqb c 12288           (* U+3000 *)
   || N.eqb c 65279)%bool.    (* U+FEFF *)

Definition isDigit (c : codeunit) : bool := in_range 48 57 c.
Definition isUpper (c : codeunit) : bool := in_range 65 90 c.
Definition isLower (c : codeunit) : bool := in_range 97 122 c.
Definition isLetter (c : codeunit) : bool := (isUpper c || isLower c)%bool.
(** The class [[a-zA-Z0-9]]. *)
Definition isAlnum (c : codeunit) : bool := (isLetter c || isDigit c)%bool.
Definition isAscii (c : codeunit) : bool := N.ltb c 128.

Definition lowerAscii (c : codeunit) : codeunit :=
  if isUpper c then (c + 32)%N else c.

Definition SPACE : codeunit := 32%N.

(** [s.trim()] *)
Fixpoint trimStart (s : jsstring) : jsstring :=
  match s with
  | [] => []
  | c :: s' => if isWhiteSpace c then trimStart s' else s
  end.

Definition trimEnd (s : jsstring) : jsstring := rev (trimStart (rev s)).

Definition trim (s : jsstring) : jsstring := trimEnd (trimStart s).

(** [s.replace(/[^a-zA-Z0-9]/g, "")] and [s.replace(/\s/g, "")]: a global
    replace of single code units by the empty string keeps the others. *)
Definition removeNonAlnum (s : jsstring) : jsstring := List.filter isAlnum s.
Definition removeWhiteSpace (s : jsstring) : jsstring :=
  List.filter (fun c => negb (isWhiteSpace c)) s.

(** Iteration of a string ([for (const char of s)], [new Set(s)]) goes by
    code point: a high surrogate followed by a low surrogate is one
    element of two code units, every other code unit is an element of its
    own, a lone surrogate included. *)
Definition isHighSurrogate (c : codeunit) : bool := in_range 55296 56319 c.
Definition isLowSurrogate (c : codeunit) : bool := in_range 56320 57343 c.

Fixpoint codePoints (s : jsstring) : list jsstring :=
  match s with
  | [] => []
  | c :: s' =>
      match s' with
      | d :: s'' =>
          if (isHighSurrogate c && isLowSurrogate d)%bool
          then [c; d] :: codePoints s''
          else [c] :: codePoints s'
      | [] => [[c]]
      end
  end.

(** No unpaired surrogate: every element of the iteration is a code unit
    that is not a surrogate, or a pair. *)
Definition isSurrogate (c : codeunit) : bool := in_range 55296 57343 c.

Definition wellFormedChar (ch : jsstring) : bool :=
  match ch with
  | [c] => negb (isSurrogate c)
  | _ => true
  end.

Definition isWellFormed (s : jsstring) : bool := forallb wellFormedChar (codePoints s).

(** [s.split(/\s+/)]: the pieces between the maximal runs of white space;
    a run at the start or at the end leaves an empty piece there, and the
    empty string splits into one empty piece. [in_sep] says that the code
    unit before was white space, [tok] is the piece read so far. *)
Fixpoint splitWs (in_sep : bool) (tok : jsstring) (s : jsstring) : list jsstring :=
  match s with
  | [] => [tok]
  | c :: s' =>
      if isWhiteSpace c
      then (if in_sep then splitWs true [] s' else tok :: splitWs true [] s')
      else splitWs false (tok ++ [c]) s'
  end.

Definition splitOnWhiteSpace (s : jsstring) : list jsstring := splitWs false [] s.

(* ===================================================================== *)
(** ** Numbers                                                            *)
(* ===================================================================== *)

Definition MAX_SAFE_INTEGER : Z := 2 ^ 53 - 1.

(** [parseInt(ds)] on a string of decimal digits, as an exact integer. *)
Definition digitValue (c : codeunit) : Z := Z.of_N c - 48.

Definition parseIntDigits (ds : jsstring) : Z :=
  fold_left (fun acc c => 10 * acc + digitValue c) ds 0.

(** [n.toString()] for an integer that a double holds exactly and prints
    without exponent. *)
Fixpoint natDigits (fuel : nat) (n : N) (acc : jsstring) : jsstring :=
  let acc' := (48 + n mod 10)%N :: acc in
  match fuel with
  | O => acc'
  | S fuel' => if (n <? 10)%N then acc' else natDigits fuel' (n / 10)%N acc'
  end.

Definition natToString (n : N) : jsstring := natDigits (N.to_nat (N.log2 n)) n [].

Definition intToString (z : Z) : jsstring :=
  if z <? 0 then 45%N :: natToString (Z.to_N (- z)) else natToString (Z.to_N z).

(* ===================================================================== *)
(** ** The runtime                                                        *)
(* ===================================================================== *)

Class JSRuntime := {
  (** [String.prototype.toLowerCase] on a string that is not all ASCII:
      the Unicode case mapping. *)
  unicodeToLowerCase : jsstring -> jsstring;
  (** [crypto.createHash("sha256").update(s).digest("hex")] *)
  sha256_hex : jsstring -> jsstring;
  (** [(parseInt(ds) + k).toString()] where [ds] denotes an integer above
      [MAX_SAFE_INTEGER]: rounding to a double and the exponent notation
      decide the result. *)
  inexactToString : jsstring -> Z -> jsstring
}.

(** [s.toLowerCase()]: an ASCII string is lower-cased code unit by code
    unit; any other string is left to the runtime. *)
Definition toLowerCase {rt : JSRuntime} (s : jsstring) : jsstring :=
  if forallb isAscii s then map lowerAscii s else unicodeToLowerCase s.

(** What the statements about white space and surrogates use of the
    Unicode case mapping. *)
Class JSRuntimeOk (rt : JSRuntime) : Prop := {
  (** Lower-casing neither creates nor removes white space. *)
  toLowerCase_whitespace :
    forall s c, isWhiteSpace c = true -> (In c (toLowerCase s) <-> In c s);
  (** Lower-casing maps code points to code points and leaves surrogates
      alone. *)
  toLowerCase_wellFormed :
    forall s, isWellFormed s = true -> isWellFormed (toLowerCase s) = true
}.

(* ===================================================================== *)
(** ** The analyzer                                                       *)
(* ===================================================================== *)

(** The object [analyzeString] returns. *)
Module Props.
Record t := mk {
  length : Z;
  is_palindrome : bool;
  unique_characters : Z;
  word_count : Z;
  sha256_hash : jsstring;
  character_frequency_map : gmap jsstring Z
}.
End Props.

(** One turn of the loop over the characters of the lower-cased string:
    [if (char !== " ") characterFrequency[char] = (characterFrequency[char] || 0) + 1].
    The keys are strings of one code point, so none of them is a property
    that a plain object inherits. *)
Definition countChar (characterFrequency : gmap jsstring Z) (char : jsstring)
  : gmap jsstring Z :=
  if negb (jsstring_eqb char [SPACE])
  then <[char := default 0 (characterFrequency !! char) + 1]> characterFrequency
  else characterFrequency.

Section Analyzer.
Context {rt : JSRuntime}.

Definition analyzeString (inputString : jsstring) : Props.t :=
  let trimmedString := trim inputString in
  let cleanStr := toLowerCase (removeNonAlnum trimmedString) in
  let length := jslength trimmedString in
  let isPalindrome :=
    ((0 <? jslength cleanStr) && jsstring_eqb cleanStr (rev cleanStr))%bool in
  let uniqueCharacters :=
    Z.of_nat (size (list_to_set
      (codePoints (removeWhiteSpace (toLowerCase trimmedString))) : gset jsstring)) in
  let wordCount :=
    if jslength trimmedString =? 0 then 0
    else Z.of_nat (List.length (splitOnWhiteSpace (trim trimmedString))) in
  let sha256Hash := sha256_hex trimmedString in
  let characterFrequency :=
    fold_left countChar (codePoints (toLowerCase trimmedString)) ∅ in
  {| Props.length := length;
     Props.is_palindrome := isPalindrome;
     Props.unique_characters := uniqueCharacters;
     Props.word_count := wordCount;
     Props.sha256_hash := sha256Hash;
     Props.character_frequency_map := characterFrequency |}.
End Analyzer.

(* ===================================================================== *)
(** ** Regular expressions                                                *)
(* ===================================================================== *)

(** The fragment the translator uses: literals, four character classes,
    sequence, alternation, the greedy [?], the greedy [+] on a class and
    capturing groups, none of them nested or under an alternative. The
    patterns carry no flag, so they match code units. *)
Inductive cclass := CDigit | CSpace | CLetter | CQuote.

Definition in_class (k : cclass) (c : codeunit) : bool :=
  match k with
  | CDigit => isDigit c                       (* \d *)
  | CSpace => isWhiteSpace c                  (* \s *)
  | CLetter => isLetter c                     (* [a-zA-Z] *)
  | CQuote => (N.eqb c 39 || N.eqb c 34)%bool (* the class of the two quotes *)
  end.

Inductive regex :=
| Lit (l : jsstring)
| Class (k : cclass)
| Seq (r1 r2 : regex)
| Alt (r1 r2 : regex)
| Opt (r : regex)
| Plus (k : cclass)
| Group (r : regex).

Fixpoint stripPrefix (l s : jsstring) : option jsstring :=
  match l, s with
  | [], _ => Some s
  | a :: l', b :: s' => if codeunit_eqb a b then stripPrefix l' s' else None
  | _ :: _, [] => None
  end.

(** The rest of a greedy repetition of a class: take one more code unit
    when there is one, and give it back when the continuation fails. *)
Fixpoint plusLoop {A} (k : cclass) (s : jsstring) (cont : jsstring -> option A)
  : option A :=
  match s with
  | c :: s' =>
      if in_class k c
      then match plusLoop k s' cont with
           | Some x => Some x
           | None => cont s
           end
      else cont s
  | [] => cont s
  end.

(** Backtracking matcher: [rmatch r s caps cont] matches [r] at the start
    of [s] and hands the rest of the input and the captures so far to the
    continuation; alternatives are tried left to right. *)
Fixpoint rmatch (r : regex) (s : jsstring) (caps : list jsstring)
    (cont : jsstring -> list jsstring -> option (list jsstring))
  : option (list jsstring) :=
  match r with
  | Lit l =>
      match stripPrefix l s with
      | Some s' => cont s' caps
      | None => None
      end
  | Class k =>
      match s with
      | c :: s' => if in_class k c then cont s' caps else None
      | [] => None
      end
  | Seq r1 r2 => rmatch r1 s caps (fun s' caps' => rmatch r2 s' caps' cont)
  | Alt r1 r2 =>
      match rmatch r1 s caps cont with
      | Some x => Some x
      | None => rmatch r2 s caps cont
      end
  | Opt r1 =>
      match rmatch r1 s caps cont with
      | Some x => Some x
      | None => cont s caps
      end
  | Plus k =>
      match s with
      | c :: s' =>
          if in_class k c then plusLoop k s' (fun s'' => cont s'' caps) else None
      | [] => None
      end
  | Group r1 =>
      rmatch r1 s caps (fun s' caps' =>
        cont s' (caps' ++ [firstn (List.length s - List.length s') s]))
  end.

Definition matchHere (r : regex) (s : jsstring) : option (list jsstring) :=
  rmatch r s [] (fun _ caps => Some caps).

(** [s.match(r)] for a pattern without the [g] flag: the match that starts
    leftmost, as the list of its captures, or [None] for [null]. *)
Fixpoint jsMatch (r : regex) (s : jsstring) : option (list jsstring) :=
  match matchHere r s with
  | Some caps => Some caps
  | None =>
      match s with
      | [] => None
      | _ :: s' => jsMatch r s'
      end
  end.

(** [m[i]] for a capture, [i >= 1]. *)
Definition group (i : nat) (m : list jsstring) : jsstring := nth (i - 1) m [].

Declare Scope regex_scope.
Delimit Scope regex_scope with re.
Bind Scope regex_scope with regex.
Notation "r1 +> r2" := (Seq r1 r2) (at level 41, right associativity) : regex_scope.
Notation "r1 </> r2" := (Alt r1 r2) (at level 51, right associativity) : regex_scope.
Notation "'lit' s" := (Lit (js s)) (at level 10) : regex_scope.
(** [\d+] and [\s+] *)
Definition digits : regex := Plus CDigit.
Definition spaces : regex := Plus CSpace.

(** /palindrome|palindromic/ *)
Definition re_palindrome : regex := (lit "palindrome" </> lit "palindromic")%re.
(** /single word|one word|1 word/ *)
Definition re_oneWord : regex := (lit "single word" </> lit "one word" </> lit "1 word")%re.
(** /two words|2 words/ *)
Definition re_twoWords : regex := (lit "two words" </> lit "2 words")%re.
(** /three words|3 words/ *)
Definition re_threeWords : regex := (lit "three words" </> lit "3 words")%re.
(** /(\d+)\s+words?/ *)
Definition re_exactWords : regex := (Group digits +> spaces +> lit "word" +> Opt (lit "s"))%re.
(** /longer than (\d+)/ *)
Definition re_longer : regex := (lit "longer than " +> Group digits)%re.
(** /shorter than (\d+)/ *)
Definition re_shorter : regex := (lit "shorter than " +> Group digits)%re.
(** /at least (\d+)/ *)
Definition re_atLeast : regex := (lit "at least " +> Group digits)%re.
(** /at most (\d+)/ *)
Definition re_atMost : regex := (lit "at most " +> Group digits)%re.
(** /more than (\d+)/ *)
Definition re_moreThan : regex := (lit "more than " +> Group digits)%re.
(** /less than (\d+)/ *)
Definition re_lessThan : regex := (lit "less than " +> Group digits)%re.
(** /between (\d+) and (\d+)/ *)
Definition re_between : regex :=
  (lit "between " +> Group digits +> lit " and " +> Group digits)%re.
(** /(?:contains?|with|having|include|includes?)\s+(?:letter|character|the letter|the character)\s+[Q]?([a-zA-Z])[Q]?/
    where [Q] stands for the class of the single and the double quote. *)
Definition re_char : regex :=
  (((lit "contain" +> Opt (lit "s")) </> lit "with" </> lit "having"
      </> lit "include" </> (lit "include" +> Opt (lit "s")))
   +> spaces
   +> (lit "letter" </> lit "character" </> lit "the letter" </> lit "the character")
   +> spaces
   +> Opt (Class CQuote) +> Group (Class CLetter) +> Opt (Class CQuote))%re.
(** /contains?\s+(?:a\s+)?vowel|with\s+(?:a\s+)?vowel|having\s+(?:a\s+)?vowel/ *)
Definition re_vowel : regex :=
  ((lit "contain" +> Opt (lit "s") +> spaces +> Opt (lit "a" +> spaces) +> lit "vowel")
   </> (lit "with" +> spaces +> Opt (lit "a" +> spaces) +> lit "vowel")
   </> (lit "having" +> spaces +> Opt (lit "a" +> spaces) +> lit "vowel"))%re.
(** /contains?\s+(?:a\s+)?consonant|with\s+(?:a\s+)?consonant/ *)
Definition re_consonant : regex :=
  ((lit "contain" +> Opt (lit "s") +> spaces +> Opt (lit "a" +> spaces) +> lit "consonant")
   </> (lit "with" +> spaces +> Opt (lit "a" +> spaces) +> lit "consonant"))%re.

(* ===================================================================== *)
(** ** The query translator                                               *)
(* ===================================================================== *)

(** The [filters] object: property name to string value. *)
Abbreviation filterSet := (gmap string (list N)) (only parsing).

(** [const m = lowerQuery.match(r); if (m) { ... }] *)
Definition whenMatch (r : regex) (s : jsstring)
    (f : list jsstring -> filterSet -> filterSet) (filters : filterSet) : filterSet :=
  match jsMatch r s with
  | Some m => f m filters
  | None => filters
  end.

Section Translator.
Context {rt : JSRuntime}.

(** [(parseInt(ds) + k).toString()] for a capture of [(\d+)]. *)
Definition offsetToString (ds : jsstring) (k : Z) : jsstring :=
  if parseIntDigits ds <=? MAX_SAFE_INTEGER
  then intToString (parseIntDigits ds + k)
  else inexactToString ds k.

Definition parseNaturalLanguageQuery (query : jsstring) : filterSet :=
  let filters : filterSet := ∅ in
  let lowerQuery := toLowerCase query in
  (* Palindrome detection *)
  let filters := whenMatch re_palindrome lowerQuery
    (fun _ => <["is_palindrome" := js "true"]>) filters in
  (* Word count patterns *)
  let filters := whenMatch re_oneWord lowerQuery
    (fun _ => <["word_count" := js "1"]>) filters in
  let filters := whenMatch re_twoWords lowerQuery
    (fun _ => <["word_count" := js "2"]>) filters in
  let filters := whenMatch re_threeWords lowerQuery
    (fun _ => <["word_count" := js "3"]>) filters in
  (* exact word count, "X words" *)
  let filters := whenMatch re_exactWords lowerQuery
    (fun exactWords => <["word_count" := group 1 exactWords]>) filters in
  (* "longer than X" *)
  let filters := whenMatch re_longer lowerQuery
    (fun longer => <["min_length" := offsetToString (group 1 longer) 1]>) filters in
  (* "shorter than X" *)
  let filters := whenMatch re_shorter lowerQuery
    (fun shorter => <["max_length" := offsetToString (group 1 shorter) (-1)]>) filters in
  (* "at least X" *)
  let filters := whenMatch re_atLeast lowerQuery
    (fun atLeast => <["min_length" := group 1 atLeast]>) filters in
  (* "at most X" *)
  let filters := whenMatch re_atMost lowerQuery
    (fun atMost => <["max_length" := group 1 atMost]>) filters in
  (* "more than X" *)
  let filters := whenMatch re_moreThan lowerQuery
    (fun moreThan => <["min_length" := offsetToString (group 1 moreThan) 1]>) filters in
  (* "less than X" *)
  let filters := whenMatch re_lessThan lowerQuery
    (fun lessThan => <["max_length" := offsetToString (group 1 lessThan) (-1)]>) filters in
  (* "between X and Y" *)
  let filters := whenMatch re_between lowerQuery
    (fun between => fun filters =>
       <["max_length" := group 2 between]> (<["min_length" := group 1 between]> filters))
    filters in
  (* "contains letter X" *)
  let filters := whenMatch re_char lowerQuery
    (fun charMatch => <["contains_character" := toLowerCase (group 1 charMatch)]>) filters in
  (* vowel *)
  let filters := whenMatch re_vowel lowerQuery
    (fun _ => <["contains_character" := js "a"]>) filters in
  (* consonant *)
  let filters := whenMatch re_consonant lowerQuery
    (fun _ => <["contains_character" := js "b"]>) filters in
  filters.
End Translator.

(* ===================================================================== *)
(** ** Requests, errors and the store                                     *)
(* ===================================================================== *)

(** What a parsed JSON body or query string can put in a field. Of a
    number only its type and whether it is zero are ever looked at. *)
Inductive jsvalue :=
| JUndefined
| JNull
| JBool (b : bool)
| JNumber (n : Z)
| JString (s : jsstring)
| JObject
| JArray.

(** [typeof v] *)
Definition typeOf (v : jsvalue) : string :=
  match v with
  | JUndefined => "undefined"
  | JNull => "object"
  | JBool _ => "boolean"
  | JNumber _ => "number"
  | JString _ => "string"
  | JObject => "object"
  | JArray => "object"
  end.

(** [!!v] *)
Definition truthy (v : jsvalue) : bool :=
  match v with
  | JUndefined => false
  | JNull => false
  | JBool b => b
  | JNumber n => negb (n =? 0)
  | JString s => negb (jslength s =? 0)
  | JObject => true
  | JArray => true
  end.

Definition QUOTE : codeunit := 34%N.

(** The error classes of [errorhandler.middlewares.js]; [InternalError]
    stands for every error that is none of them (a rejected INSERT, a
    TypeError), which the error handler answers with status 500. *)
Inductive AppError :=
| ValidationError (message : jsstring)
| NotFoundError (resource : jsstring)
| ConflictError (message : jsstring)
| InternalError.

Definition statusCode (e : AppError) : Z :=
  match e with
  | ValidationError _ => 400
  | NotFoundError _ => 404
  | ConflictError _ => 409
  | InternalError => 500
  end.

(** A row of the table [strings]; [created_at] is left to the database
    clock and not represented. *)
Module Row.
Record t := mk {
  id : jsstring;
  value : jsstring;
  length : Z;
  is_palindrome : bool;
  unique_characters : Z;
  word_count : Z;
  character_frequency : gmap jsstring Z
}.
End Row.

(** The table, by its primary key [id]. *)
Abbreviation table := (gmap (list N) Row.t) (only parsing).

Inductive responseBody :=
| CreatedBody (id value : jsstring) (properties : Props.t)
| ListBody (data : list Row.t) (original : jsstring) (parsed_filters : filterSet).

(** A handler is a finite tree: it answers, throws, or awaits one of the
    calls of [stringModel] and goes on with the result. *)
Inductive handler :=
| Respond (status : Z) (body : responseBody)
| Throw (e : AppError)
| ExistsByValue (value : jsstring) (k : bool -> handler)
| Create (stringData : Row.t) (k : unit -> handler)
| FindAll (filters : filterSet) (k : list Row.t -> handler).

Inductive storeEvent :=
| EvSelectId (id : jsstring)
| EvInsert (id : jsstring)
| EvSelect (filters : filterSet).

Inductive outcome :=
| Responded (status : Z) (body : responseBody)
| Failed (e : AppError).

(** [validateStringInput]: [None] is the call of [next()]. *)
Definition validateStringInput (value : jsvalue) : option AppError :=
  match value with
  | JUndefined | JNull =>
      Some (ValidationError
        (js "Missing " ++ [QUOTE] ++ js "value" ++ [QUOTE] ++ js " field in request body"))
  | JString s =>
      if jslength (trim s) =? 0
      then Some (ValidationError (js "String value cannot be empty or only whitespace"))
      else if jslength s >? 10000
      then Some (ValidationError (js "String value too long (max 10000 characters)"))
      else None
  | _ =>
      Some (ValidationError
        (js "Invalid data type for " ++ [QUOTE] ++ js "value" ++ [QUOTE] ++ js " (must be string)"))
  end.

(** [validateNaturalLanguageQuery] *)
Definition validateNaturalLanguageQuery (query : jsvalue) : option AppError :=
  match query with
  | JString s =>
      if negb (truthy query)
      then Some (ValidationError
        (js "Missing or invalid " ++ [QUOTE] ++ js "query" ++ [QUOTE] ++ js " parameter"))
      else if jslength (trim s) =? 0
      then Some (ValidationError (js "Query cannot be empty"))
      else if jslength s >? 500
      then Some (ValidationError (js "Query too long (max 500 characters)"))
      else None
  | _ =>
      Some (ValidationError
        (js "Missing or invalid " ++ [QUOTE] ++ js "query" ++ [QUOTE] ++ js " parameter"))
  end.

Section Handlers.
Context {rt : JSRuntime}.

(** POST /strings *)
Definition createString (value : jsvalue) : handler :=
  match value with
  | JString s =>
      if negb (truthy value)
      then Throw (ValidationError
        (js "Missing or invalid " ++ [QUOTE] ++ js "value" ++ [QUOTE] ++ js " field"))
      else
        let trimmedValue := trim s in
        ExistsByValue trimmedValue (fun exists_ =>
          if exists_ : bool
          then Throw (ConflictError
            (js "String " ++ [QUOTE] ++ trimmedValue ++ [QUOTE] ++ js " already exists"))
          else
            let properties := analyzeString trimmedValue in
            let stringData :=
              {| Row.id := Props.sha256_hash properties;
                 Row.value := trimmedValue;
                 Row.length := Props.length properties;
                 Row.is_palindrome := Props.is_palindrome properties;
                 Row.unique_characters := Props.unique_characters properties;
                 Row.word_count := Props.word_count properties;
                 Row.character_frequency := Props.character_frequency_map properties |} in
            Create stringData (fun _ =>
              Respond 201
                (CreatedBody (Props.sha256_hash properties) trimmedValue properties)))
  | _ =>
      Throw (ValidationError
        (js "Missing or invalid " ++ [QUOTE] ++ js "value" ++ [QUOTE] ++ js " field"))
  end.

(** GET /strings/filter-by-natural-language *)
Definition filterByNaturalLanguage (query : jsvalue) : handler :=
  if negb (truthy query)
  then Throw (ValidationError (js "Missing 'query' parameter"))
  else
    match query with
    | JString q =>
        let filters := parseNaturalLanguageQuery q in
        if Z.of_nat (size filters) =? 0
        then Throw (ValidationError (js "Unable to parse natural language query"))
        else FindAll filters (fun strings => Respond 200 (ListBody strings q filters))
    | _ =>
        (* [query.toLowerCase] is not a function *)
        Throw InternalError
    end.

(** The chains of handlers as [string.routes.js] registers them: the
    validator first, the controller when it calls [next()]. Which chain a
    request reaches is for the router to decide (see [dispatch]). *)
Definition postStrings (value : jsvalue) : handler :=
  match validateStringInput value with
  | Some e => Throw e
  | None => createString value
  end.

(** [validateNaturalLanguageQuery, filterByNaturalLanguage], the chain
    registered for the path /strings/filter-by-natural-language. *)
Definition filterByNaturalLanguageChain (query : jsvalue) : handler :=
  match validateNaturalLanguageQuery query with
  | Some e => Throw e
  | None => filterByNaturalLanguage query
  end.

(** [existingStringByValue]: SELECT 1 FROM strings WHERE id = sha256(value) *)
Definition existingStringByValue (value : jsstring) (tbl : table) : bool :=
  bool_decide (is_Some (tbl !! sha256_hex value)).

Section Run.
(** The rows the database returns for the SELECT of [findAllStrings]. *)
Variable selectStrings : filterSet -> table -> list Row.t.

(** A handler against a table: the outcome, the table afterwards and
    the statements sent to the database, first to last. An INSERT
    whose key is taken fails and leaves the table as it is. *)
Fixpoint run (h : handler) (tbl : table) : outcome * table * list storeEvent :=
  match h with
  | Respond status body => (Responded status body, tbl, [])
  | Throw e => (Failed e, tbl, [])
  | ExistsByValue value k =>
      let '(o, tbl', evs) := run (k (existingStringByValue value tbl)) tbl in
      (o, tbl', EvSelectId (sha256_hex value) :: evs)
  | Create stringData k =>
      match tbl !! Row.id stringData with
      | Some _ => (Failed InternalError, tbl, [EvInsert (Row.id stringData)])
      | None =>
          let '(o, tbl', evs) := run (k tt) (<[Row.id stringData := stringData]> tbl) in
          (o, tbl', EvInsert (Row.id stringData) :: evs)
      end
  | FindAll filters k =>
      let '(o, tbl', evs) := run (k (selectStrings filters tbl)) tbl in
      (o, tbl', EvSelect filters :: evs)
  end.
End Run.
End Handlers.

(* ===================================================================== *)
(** ** A reference runtime                                                *)
(* ===================================================================== *)

(** SHA-256 (FIPS 180-4) on a list of bytes. *)
Module SHA256.
Open Scope N_scope.

Definition mask32 : N := 0xffffffff.
Definition add32 (a b : N) : N := N.land (a + b) mask32.
Definition rotr (n x : N) : N :=
  N.lor (N.shiftr x n) (N.land (N.shiftl x (32 - n)) mask32).
Definition Ch (x y z : N) : N := N.lxor (N.land x y) (N.land (N.lxor x mask32) z).
Definition Maj (x y z : N) : N :=
  N.lxor (N.lxor (N.land x y) (N.land x z)) (N.land y z).
Definition bsig0 (x : N) : N := N.lxor (N.lxor (rotr 2 x) (rotr 13 x)) (rotr 22 x).
Definition bsig1 (x : N) : N := N.lxor (N.lxor (rotr 6 x) (rotr 11 x)) (rotr 25 x).
Definition ssig0 (x : N) : N := N.lxor (N.lxor (rotr 7 x) (rotr 18 x)) (N.shiftr x 3).
Definition ssig1 (x : N) : N := N.lxor (N.lxor (rotr 17 x) (rotr 19 x)) (N.shiftr x 10).

(** The round constants and the initial hash value are the first 32 bits
    of the fractional parts of the cube roots of the first 64 primes, and
    of the square roots of the first 8. *)
Fixpoint cubeRootBits (bits : nat) (n r : N) : N :=
  match bits with
  | O => r
  | S bits' =>
      let r' := r + 2 ^ N.of_nat bits' in
      cubeRootBits bits' n (if r' * r' * r' <=? n then r' else r)
  end.

Definition cubeRoot (n : N) : N := cubeRootBits 48 n 0.

Definition primes : list N :=
  [2; 3; 5; 7; 11; 13; 17; 19; 23; 29; 31; 37; 41; 43; 47; 53; 59; 61; 67; 71;
 73; 79; 83; 89; 97; 101; 103; 107; 109; 113; 127; 131; 137; 139; 149; 151;
 157; 163; 167; 173; 179; 181; 191; 193; 197; 199; 211; 223; 227; 229; 233;
 239; 241; 251; 257; 263; 269; 271; 277; 281; 283; 293; 307; 311].

Definition K : list N :=
  Eval vm_compute in map (fun p => N.land (cubeRoot (p * 2 ^ 96)) mask32) primes.

Definition H0 : list N :=
  Eval vm_compute in map (fun p => N.land (N.sqrt (p * 2 ^ 64)) mask32) (firstn 8 primes).

(** Big-endian bytes of a number, [n] of them. *)
Fixpoint bytesBE (n : nat) (x : N) : list N :=
  match n with
  | O => []
  | S n' => N.land (N.shiftr x (8 * N.of_nat n')) 0xff :: bytesBE n' x
  end.

Definition pad (msg : list N) : list N :=
  let len := N.of_nat (List.length msg) in
  let zeros := (55 + 64 - len mod 64) mod 64 in
  msg ++ [0x80] ++ repeat 0 (N.to_nat zeros) ++ bytesBE 8 (8 * len).

Fixpoint wordsBE (bs : list N) : list N :=
  match bs with
  | b0 :: b1 :: b2 :: b3 :: bs' =>
      (N.shiftl b0 24 + N.shiftl b1 16 + N.shiftl b2 8 + b3) :: wordsBE bs'
  | _ => []
  end.

(** The window holds W[t] .. W[t+15]; sliding it appends W[t+16]. *)
Definition slide (w : list N) : list N :=
  let x := add32 (add32 (ssig1 (nth 14 w 0)) (nth 9 w 0))
                 (add32 (ssig0 (nth 1 w 0)) (nth 0 w 0)) in
  tl w ++ [x].

Definition round (st : list N * list N) (k : N) : list N * list N :=
  match st with
  | ([a; b; c; d; e; f; g; h], w) =>
      let t1 := add32 (add32 (add32 h (bsig1 e)) (add32 (Ch e f g) k)) (nth 0 w 0) in
      let t2 := add32 (bsig0 a) (Maj a b c) in
      ([add32 t1 t2; a; b; c; add32 d t1; e; f; g], slide w)
  | _ => st
  end.

Fixpoint zipAdd (xs ys : list N) : list N :=
  match xs, ys with
  | x :: xs', y :: ys' => add32 x y :: zipAdd xs' ys'
  | _, _ => []
  end.

Definition compress (h : list N) (block : list N) : list N :=
  zipAdd h (fst (fold_left round K (h, block))).

Fixpoint blocks (n : nat) (ws : list N) (h : list N) : list N :=
  match n with
  | O => h
  | S n' => blocks n' (skipn 16 ws) (compress h (firstn 16 ws))
  end.

Definition digest (msg : list N) : list N :=
  let ws := wordsBE (pad msg) in
  flat_map (bytesBE 4) (blocks (Nat.div (List.length ws) 16) ws H0).

Definition hexDigit (d : N) : N := if d <? 10 then 48 + d else 87 + d.

Definition hex (bs : list N) : list N :=
  flat_map (fun b => [hexDigit (b / 16); hexDigit (b mod 16)]) bs.
End SHA256.

(** UTF-8 of a string, as [hash.update(string)] encodes it: a surrogate
    pair is one code point of four bytes, a lone surrogate is replaced by
    U+FFFD. *)
Definition utf8CodePoint (cp : N) : list N :=
  (if cp <? 128 then [cp]
   else if cp <? 2048 then [192 + cp / 64; 128 + cp mod 64]
   else if cp <? 65536 then [224 + cp / 4096; 128 + (cp / 64) mod 64; 128 + cp mod 64]
   else [240 + cp / 262144; 128 + (cp / 4096) mod 64; 128 + (cp / 64) mod 64; 128 + cp mod 64])%N.

Definition utf8Char (ch : jsstring) : list N :=
  match ch with
  | [hi; lo] => utf8CodePoint (65536 + (hi - 55296) * 1024 + (lo - 56320))%N
  | [c] => if isSurrogate c then utf8CodePoint 65533 else utf8CodePoint c
  | _ => []
  end.

Definition utf8 (s : jsstring) : list N := flat_map utf8Char (codePoints s).

Definition refSha256Hex (s : jsstring) : jsstring := SHA256.hex (SHA256.digest (utf8 s)).

(** Lower-casing of the code units below 256 (the letters A-Z, and
    U+00C0 .. U+00DE without the multiplication sign); the others are
    left as they are. *)
Definition refLowerUnit (c : codeunit) : codeunit :=
  if (isUpper c || (in_range 192 222 c && negb (N.eqb c 215)))%bool then (c + 32)%N else c.

Definition refToLowerCase (s : jsstring) : jsstring := map refLowerUnit s.

(** Exact on the strings of code units below 256 and on the integers a
    double holds; above them it keeps the code units and the exact
    decimal expansion. *)
Definition RefRuntime : JSRuntime :=
  {| unicodeToLowerCase := refToLowerCase;
     sha256_hex := refSha256Hex;
     inexactToString := fun ds k => intToString (parseIntDigits ds + k) |}.

(** A table with the row of "madam". *)
Definition madamRow : Row.t :=
  let properties := analyzeString (rt := RefRuntime) (js "madam") in
  {| Row.id := Props.sha256_hash properties;
     Row.value := js "madam";
     Row.length := Props.length properties;
     Row.is_palindrome := Props.is_palindrome properties;
     Row.unique_characters := Props.unique_characters properties;
     Row.word_count := Props.word_count properties;
     Row.character_frequency := Props.character_frequency_map properties |}.

Definition madamTable : gmap (list N) Row.t := {[ Row.id madamRow := madamRow ]}.

(* ===================================================================== *)
(** ** Vocabulary of the statements                                       *)
(* ===================================================================== *)

Section Vocabulary.
Context {rt : JSRuntime}.

(** The string the palindrome test looks at: trimmed, everything but
    letters and digits removed, lower-cased. *)
Definition cleaned (s : jsstring) : jsstring :=
  toLowerCase (removeNonAlnum (trim s)).

(** The characters the frequency loop runs over. *)
Definition loweredChars (s : jsstring) : list jsstring :=
  codePoints (toLowerCase (trim s)).

(** The characters the set of unique characters is built from. *)
Definition uniqueChars (s : jsstring) : list jsstring :=
  codePoints (removeWhiteSpace (toLowerCase (trim s))).

(** [Object.keys(analyzeString(s).character_frequency_map).length] *)
Definition keyCount (s : jsstring) : Z :=
  Z.of_nat (size (Props.character_frequency_map (analyzeString s))).
End Vocabulary.

(** The request got past the validator and the guard of the controller:
    the handler is at its first call of the store. *)
Definition passesValidation (h : handler) : bool :=
  match h with
  | ExistsByValue _ _ => true
  | _ => false
  end.

Section StoreVocabulary.
Context {rt : JSRuntime}.

(** Every row sits under its own [id], and the [id] is the hash of the
    [value]: what [createString] writes. *)
Definition storeInv (tbl : table) : Prop :=
  forall id row, tbl !! id = Some row ->
    Row.id row = id /\ id = sha256_hex (Row.value row).
End StoreVocabulary.

(** At most one row for a value. *)
Definition oneRecordPerValue (tbl : table) : Prop :=
  forall id1 id2 row1 row2,
    tbl !! id1 = Some row1 -> tbl !! id2 = Some row2 ->
    Row.value row1 = Row.value row2 -> id1 = id2.

(** The string does not start with white space. *)
Definition noLeadingWs (s : jsstring) : Prop :=
  match s with
  | [] => True
  | c :: _ => isWhiteSpace c = false
  end.

(** The only white space in the string is the plain space. *)
Definition onlyPlainSpaces (s : jsstring) : Prop :=
  forall c, In c s -> isWhiteSpace c = true -> c = SPACE.

(** A decimal numeral of a natural number: digits, at least one. *)
Definition isNatNumeral (v : jsstring) : bool :=
  (negb (jslength v =? 0) && forallb isDigit v)%bool.

(** The patterns of the translator, in the order of their [if]s. *)
Definition allRules : list regex :=
  [re_palindrome; re_oneWord; re_twoWords; re_threeWords; re_exactWords;
   re_longer; re_shorter; re_atLeast; re_atMost; re_moreThan; re_lessThan;
   re_between; re_char; re_vowel; re_consonant].

Definition fires (r : regex) (s : jsstring) : bool :=
  match jsMatch r s with
  | Some _ => true
  | None => false
  end.

Definition noRuleFires (s : jsstring) : bool :=
  forallb (fun r => negb (fires r s)) allRules.

(** The numerals to which the translator adds or from which it subtracts
    one are integers a double holds exactly. *)
Definition safeNumerals (s : jsstring) : Prop :=
  forall r m,
    In r [re_longer; re_shorter; re_moreThan; re_lessThan] ->
    jsMatch r s = Some m ->
    parseIntDigits (group 1 m) <= MAX_SAFE_INTEGER.

(** A character that is a single white-space code unit. *)
Definition isWhiteSpaceChar (ch : jsstring) : bool :=
  match ch with
  | [c] => isWhiteSpace c
  | _ => false
  end.

(** How often [ch] occurs in a list of characters. *)
Definition occurrences (ch : jsstring) (chars : list jsstring) : Z :=
  Z.of_nat (List.length (List.filter (jsstring_eqb ch) chars)).

(* ===================================================================== *)
(** ** The other controllers and the functions of the store               *)
(* ===================================================================== *)

(** [decodeURIComponent] copies every code unit but the percent sign;
    what it makes of an escape sequence, a [URIError] included, is left to
    the runtime. *)
Class URIRuntime := {
  percentDecode : jsstring -> option jsstring
}.

Definition PERCENT : codeunit := 37%N.

Definition decodeURIComponent {uri : URIRuntime} (s : jsstring) : option jsstring :=
  if existsb (N.eqb PERCENT) s then percentDecode s else Some s.

(** [err.message] as the constructors of the error classes set it:
    [NotFoundError] appends " not found" to its argument. *)
Definition errorMessage (e : AppError) : option jsstring :=
  match e with
  | ValidationError message => Some message
  | NotFoundError resource => Some (resource ++ js " not found")
  | ConflictError message => Some message
  | InternalError => None
  end.

(** The body of GET /strings/:string_value, without [created_at]. *)
Inductive lookupBody :=
| RecordBody (id value : jsstring) (properties : Props.t).

(** The handlers of GET and DELETE /strings/:string_value: they answer
    (204 has no body), throw, or await [findByValue], [findByRawValue] or
    [deleteByValue]. *)
Inductive lookupHandler :=
| LRespond (status : Z) (body : option lookupBody)
| LThrow (e : AppError)
| FindByValue (value : jsstring) (k : option Row.t -> lookupHandler)
| FindByRawValue (value : jsstring) (k : option Row.t -> lookupHandler)
| DeleteByValue (value : jsstring) (k : bool -> lookupHandler).

Inductive lookupOutcome :=
| LResponded (status : Z) (body : option lookupBody)
| LFailed (e : AppError).

(** [res.status(200).json({ id: record.id, ... })] *)
Definition recordResponse (record : Row.t) : lookupHandler :=
  LRespond 200 (Some (RecordBody (Row.id record) (Row.value record)
    {| Props.length := Row.length record;
       Props.is_palindrome := Row.is_palindrome record;
       Props.unique_characters := Row.unique_characters record;
       Props.word_count := Row.word_count record;
       Props.sha256_hash := Row.id record;
       Props.character_frequency_map := Row.character_frequency record |})).

(** [`String "${decoded}" not found`] *)
Definition notFoundResource (decoded : jsstring) : jsstring :=
  js "String " ++ [QUOTE] ++ decoded ++ [QUOTE] ++ js " not found".

Section Lookup.
Context {rt : JSRuntime} {uri : URIRuntime}.

(** GET /strings/:string_value; the two calls of [console.log] leave no
    trace here. A [URIError] is no [AppError]. *)
Definition getString (string_value : jsstring) : lookupHandler :=
  match decodeURIComponent string_value with
  | None => LThrow InternalError
  | Some d =>
      let decoded := trim d in
      FindByValue decoded (fun record =>
        match record with
        | Some record => recordResponse record
        | None =>
            FindByRawValue decoded (fun record =>
              match record with
              | Some record => recordResponse record
              | None => LThrow (NotFoundError (notFoundResource decoded))
              end)
        end)
  end.

(** DELETE /strings/:string_value *)
Definition deleteString (string_value : jsstring) : lookupHandler :=
  match decodeURIComponent string_value with
  | None => LThrow InternalError
  | Some d =>
      let decoded := trim d in
      DeleteByValue decoded (fun deleted =>
        if deleted : bool
        then LRespond 204 None
        else LThrow (NotFoundError (notFoundResource decoded)))
  end.

(** [findStringByValue]: SELECT ... FROM strings WHERE id = sha256(value) *)
Definition findStringByValue (value : jsstring) (tbl : table) : option Row.t :=
  tbl !! sha256_hex value.

(** [deleteStringByValue]: DELETE FROM strings WHERE id = sha256(value),
    and whether a row was affected. *)
Definition deleteStringByValue (value : jsstring) (tbl : table) : bool * table :=
  match tbl !! sha256_hex value with
  | Some _ => (true, delete (sha256_hex value) tbl)
  | None => (false, tbl)
  end.

Section RunLookup.
(** The row the database returns for
    SELECT ... FROM strings WHERE value = ? LIMIT 1 of
    [findStringByRawValue]; the comparison is the one of the collation of
    the column. *)
Variable selectByRawValue : jsstring -> table -> option Row.t.

Fixpoint runLookup (h : lookupHandler) (tbl : table) : lookupOutcome * table :=
  match h with
  | LRespond status body => (LResponded status body, tbl)
  | LThrow e => (LFailed e, tbl)
  | FindByValue value k => runLookup (k (findStringByValue value tbl)) tbl
  | FindByRawValue value k => runLookup (k (selectByRawValue value tbl)) tbl
  | DeleteByValue value k =>
      let '(deleted, tbl') := deleteStringByValue value tbl in
      runLookup (k deleted) tbl'
  end.
End RunLookup.
End Lookup.

(* ===================================================================== *)
(** ** The router                                                         *)
(* ===================================================================== *)

(** [string.routes.js] registers six routes on an Express router. The
    router goes through them in the order of registration and hands the
    request to the first one whose path and method match; none of the
    chains below passes a request on to a later route (every controller
    answers or throws). *)
Inductive method := GET | HEAD | POST | PUT | PATCH | DELETE | OPTIONS.

(** A segment of a route path: fixed text, or a named parameter. *)
Inductive segmentPattern :=
| Static (text : jsstring)
| Param (name : string).

(** The chains of handlers, by the controller at their end. *)
Inductive chain :=
| CreateStringChain
| GetStringChain
| GetAllStringsChain
| FilterByNaturalLanguageChain
| GetStatisticsChain
| DeleteStringChain.

Record route := mkRoute {
  route_method : method;
  route_path : list segmentPattern;
  route_chain : chain
}.

(** The routes, first to last as [string.routes.js] registers them. *)
Definition stringRouter : list route :=
  [ mkRoute POST [Static (js "strings")] CreateStringChain;
    mkRoute GET [Static (js "strings"); Param "string_value"] GetStringChain;
    mkRoute GET [Static (js "strings")] GetAllStringsChain;
    mkRoute GET [Static (js "strings"); Static (js "filter-by-natural-language")]
      FilterByNaturalLanguageChain;
    mkRoute GET [Static (js "strings"); Static (js "stats"); Static (js "statistics")]
      GetStatisticsChain;
    mkRoute DELETE [Static (js "strings"); Param "string_value"] DeleteStringChain ].

Definition SLASH : codeunit := 47%N.

(** [path.split("/")] *)
Fixpoint splitSlash (s : jsstring) : list jsstring :=
  match s with
  | [] => [[]]
  | c :: rest =>
      if N.eqb c SLASH then [] :: splitSlash rest
      else match splitSlash rest with
           | seg :: segs => (c :: seg) :: segs
           | [] => [[c]]
           end
  end.

(** The segments of a path against those of a route, as the regular
    expression Express compiles the route to matches them: fixed text
    without regard to the case of ASCII letters, a parameter as one
    segment that is not empty, and one slash more at the end allowed.
    The result is the text of the parameters. *)
Fixpoint matchSegments (pat : list segmentPattern) (segs : list jsstring)
    : option (list jsstring) :=
  match pat, segs with
  | [], [] => Some []
  | [], [[]] => Some []
  | Static text :: pat', seg :: segs' =>
      if jsstring_eqb (map lowerAscii text) (map lowerAscii seg)
      then matchSegments pat' segs'
      else None
  | Param _ :: pat', seg :: segs' =>
      match seg with
      | [] => None
      | _ :: _ => option_map (cons seg) (matchSegments pat' segs')
      end
  | _, _ => None
  end.

(** A path starts with a slash. *)
Definition matchPath (pat : list segmentPattern) (path : jsstring) : option (list jsstring) :=
  match splitSlash path with
  | [] :: segs => matchSegments pat segs
  | _ => None
  end.

(** A route registered with [router.get] also takes HEAD requests. *)
Definition handlesMethod (registered requested : method) : bool :=
  match registered, requested with
  | GET, GET | GET, HEAD | HEAD, HEAD | POST, POST | PUT, PUT | PATCH, PATCH
  | DELETE, DELETE | OPTIONS, OPTIONS => true
  | _, _ => false
  end.

(** What the router does with a request: it invokes a chain with the
    decoded parameters in [req.params], answers 400 because a parameter
    of a matching path cannot be decoded, or has no route for it. *)
Inductive dispatched :=
| Invoke (c : chain) (params : list jsstring)
| ParamError
| NoRoute.

Section Router.
Context {uri : URIRuntime}.

Fixpoint decodeParams (raw : list jsstring) : option (list jsstring) :=
  match raw with
  | [] => Some []
  | p :: rest =>
      match decodeURIComponent p, decodeParams rest with
      | Some d, Some ds => Some (d :: ds)
      | _, _ => None
      end
  end.

(** The path is matched, and its parameters decoded, before the method
    is looked at. *)
Fixpoint dispatch (routes : list route) (m : method) (path : jsstring) : dispatched :=
  match routes with
  | [] => NoRoute
  | r :: rest =>
      match matchPath (route_path r) path with
      | None => dispatch rest m path
      | Some raw =>
          match decodeParams raw with
          | None => ParamError
          | Some params =>
              if handlesMethod (route_method r) m
              then Invoke (route_chain r) params
              else dispatch rest m path
          end
      end
  end.
End Router.

(** The calls of [stringModel] a handler of GET or DELETE
    /strings/:string_value makes, first to last. *)
Inductive lookupCall :=
| CallFindByValue (value : jsstring)
| CallFindByRawValue (value : jsstring)
| CallDeleteByValue (value : jsstring).

(** What a request needs to carry here: its method, its path below the
    mount point of the router, [req.query.query] and [req.body.value]. *)
Record request := mkRequest {
  req_method : method;
  req_path : jsstring;
  req_query : jsvalue;
  req_value : jsvalue
}.

(** How a request ends. The chains of [getAllStrings] and
    [getStatistics] are not followed any further. *)
Inductive answer :=
| StoreAnswer (result : outcome * gmap (list N) Row.t * list storeEvent)
| LookupAnswer (result : lookupOutcome * gmap (list N) Row.t) (calls : list lookupCall)
| DecodeFailure
| NotFollowed (c : chain)
| Unrouted.

Section Serve.
Context {rt : JSRuntime} {uri : URIRuntime}.
Variable selectStrings : filterSet -> gmap (list N) Row.t -> list Row.t.
Variable selectByRawValue : jsstring -> gmap (list N) Row.t -> option Row.t.

Fixpoint lookupTrace (h : lookupHandler) (tbl : gmap (list N) Row.t) : list lookupCall :=
  match h with
  | LRespond _ _ => []
  | LThrow _ => []
  | FindByValue value k =>
      CallFindByValue value :: lookupTrace (k (findStringByValue value tbl)) tbl
  | FindByRawValue value k =>
      CallFindByRawValue value :: lookupTrace (k (selectByRawValue value tbl)) tbl
  | DeleteByValue value k =>
      let '(deleted, tbl') := deleteStringByValue value tbl in
      CallDeleteByValue value :: lookupTrace (k deleted) tbl'
  end.

(** The router of [string.routes.js] on a request and a table. *)
Definition serve (req : request) (tbl : gmap (list N) Row.t) : answer :=
  match dispatch stringRouter (req_method req) (req_path req) with
  | Invoke CreateStringChain _ =>
      StoreAnswer (run selectStrings (postStrings (req_value req)) tbl)
  | Invoke FilterByNaturalLanguageChain _ =>
      StoreAnswer (run selectStrings (filterByNaturalLanguageChain (req_query req)) tbl)
  | Invoke GetStringChain [string_value] =>
      LookupAnswer (runLookup selectByRawValue (getString string_value) tbl)
        (lookupTrace (getString string_value) tbl)
  | Invoke DeleteStringChain [string_value] =>
      LookupAnswer (runLookup selectByRawValue (deleteString string_value) tbl)
        (lookupTrace (deleteString string_value) tbl)
  | Invoke c _ => NotFollowed c
  | ParamError => DecodeFailure
  | NoRoute => Unrouted
  end.
End Serve.

(** A parameter of the prepared statement of [findAllStrings]:
    a boolean, [parseInt] of a filter value, or a string. *)
Inductive sqlParam :=
| PBool (b : bool)
| PParseInt (s : jsstring)
| PString (s : jsstring).

Definition LF : codeunit := 10%N.
Definition QUESTION : codeunit := 63%N.

(** [if (filters.key) { query += clause; params.push(param) }]: a string
    is truthy when it is not empty. *)
Definition whenTruthy (filters : filterSet) (key : string) (clause : jsstring)
    (param : jsstring -> sqlParam) (st : jsstring * list sqlParam)
  : jsstring * list sqlParam :=
  match filters !! key with
  | Some v =>
      if negb (jslength v =? 0) then (fst st ++ clause, snd st ++ [param v]) else st
  | None => st
  end.

Section Statement.
Context {rt : JSRuntime}.

(** The text and the parameters [findAllStrings] hands to
    [pool.execute], for filters whose values are strings. *)
Definition findAllStatement (filters : filterSet) : jsstring * list sqlParam :=
  let query :=
    [LF] ++ js "        SELECT id, value, length, is_palindrome, unique_characters, word_count, character_frequency, created_at "
    ++ [LF] ++ js "        FROM strings WHERE 1=1" ++ [LF] ++ js "    " in
  let st : jsstring * list sqlParam := (query, []) in
  let st :=
    match filters !! "is_palindrome" with
    | Some v => (fst st ++ js " AND is_palindrome = ?",
                 snd st ++ [PBool (jsstring_eqb v (js "true"))])
    | None => st
    end in
  let st := whenTruthy filters "min_length" (js " AND length >= ?") PParseInt st in
  let st := whenTruthy filters "max_length" (js " AND length <= ?") PParseInt st in
  let st := whenTruthy filters "word_count" (js " AND word_count = ?") PParseInt st in
  let st := whenTruthy filters "contains_character"
              (js " AND JSON_EXTRACT(character_frequency, ?) IS NOT NULL")
              (fun v => PString (js "$." ++ toLowerCase v)) st in
  (fst st ++ js " ORDER BY created_at DESC", snd st).
End Statement.

(** The number of placeholders of a statement. *)
Definition placeholders (query : jsstring) : nat :=
  List.length (List.filter (N.eqb QUESTION) query).

(* ===================================================================== *)
(** ** More vocabulary                                                    *)
(* ===================================================================== *)

(** The number of maximal runs of code units that are not white space;
    [prev_ws] says that the code unit before was white space, or that
    the string starts here. *)
Fixpoint wordStarts (prev_ws : bool) (s : jsstring) : nat :=
  match s with
  | [] => O
  | c :: s' =>
      if isWhiteSpace c then wordStarts true s'
      else ((if prev_ws then 1 else 0) + wordStarts false s')%nat
  end.

Definition countWords (s : jsstring) : nat := wordStarts true s.

(** Whether the string ends in white space; [in_sep] answers for the
    empty string. *)
Fixpoint endsInWs (in_sep : bool) (s : jsstring) : bool :=
  match s with
  | [] => in_sep
  | c :: s' => endsInWs (isWhiteSpace c) s'
  end.

(** The letters and digits of a string, lower-cased. *)
Definition alnumFold (s : jsstring) : jsstring := map lowerAscii (removeNonAlnum s).

(** The sum of the counts of a frequency map. *)
Definition totalCount (m : gmap (list N) Z) : Z :=
  map_fold (fun _ v acc => v + acc) 0 m.

(** The keys the translator and [findAllStrings] know. *)
Definition recognizedKeys : list string :=
  ["is_palindrome"; "min_length"; "max_length"; "word_count"; "contains_character"].

(** [s.includes(sub)] *)
Definition containsSub (sub s : jsstring) : Prop :=
  exists pre post, s = pre ++ sub ++ post.

(** A pattern without a capturing group. *)
Fixpoint groupFree (r : regex) : bool :=
  match r with
  | Lit _ | Class _ | Plus _ => true
  | Seq r1 r2 | Alt r1 r2 => (groupFree r1 && groupFree r2)%bool
  | Opt r1 => groupFree r1
  | Group _ => false
  end.

(** Does not start with a code unit of the class. *)
Definition stopsClass (k : cclass) (rest : jsstring) : Prop :=
  match rest with
  | [] => True
  | c :: _ => in_class k c = false
  end.

(** The query "between lo and hi". *)
Definition betweenQuery (lo hi : jsstring) : jsstring :=
  js "between " ++ lo ++ js " and " ++ hi.

(** The row [createString] hands to [stringModel.create] for a trimmed
    value, and the message of its [ConflictError]. *)
Definition stringDataOf {rt : JSRuntime} (trimmedValue : jsstring) : Row.t :=
  let properties := analyzeString trimmedValue in
  {| Row.id := Props.sha256_hash properties;
     Row.value := trimmedValue;
     Row.length := Props.length properties;
     Row.is_palindrome := Props.is_palindrome properties;
     Row.unique_characters := Props.unique_characters properties;
     Row.word_count := Props.word_count properties;
     Row.character_frequency := Props.character_frequency_map properties |}.

Definition conflictMessage (trimmedValue : jsstring) : jsstring :=
  js "String " ++ [QUOTE] ++ trimmedValue ++ [QUOTE] ++ js " already exists".

(** The messages with which the chain of [filterByNaturalLanguage]
    turns a query away. *)
Definition naturalLanguageMessages : list jsstring :=
  [js "Missing or invalid " ++ [QUOTE] ++ js "query" ++ [QUOTE] ++ js " parameter";
   js "Query cannot be empty";
   js "Query too long (max 500 characters)";
   js "Unable to parse natural language query"].

(** The parameter a truthy filter value contributes. *)
Definition truthyParam (filters : filterSet) (key : string)
    (param : jsstring -> sqlParam) : list sqlParam :=
  match filters !! key with
  | Some v => if negb (jslength v =? 0) then [param v] else []
  | None => []
  end.

(** An ASCII code unit that lower-casing leaves alone. *)
Definition isLowerAscii (c : codeunit) : bool := (isAscii c && negb (isUpper c))%bool.

(** The status of the response: the one the handler sets, or the
    [statusCode] with which [errorHandler] answers the error. *)
Definition outcomeStatus (o : outcome) : Z :=
  match o with
  | Responded status _ => status
  | Failed e => statusCode e
  end.

Definition lookupStatus (o : lookupOutcome) : Z :=
  match o with
  | LResponded status _ => status
  | LFailed e => statusCode e
  end.

(** *** A reference [decodeURIComponent] and a reference collation *)

Definition hexVal (c : codeunit) : option N :=
  if in_range 48 57 c then Some (c - 48)%N
  else if in_range 65 70 c then Some (c - 55)%N
  else if in_range 97 102 c then Some (c - 87)%N
  else None.

(** The octet of an escape sequence [%XX] at the head of the string. *)
Definition readEscape (s : jsstring) : option (N * jsstring) :=
  match s with
  | p :: h :: l :: rest =>
      if N.eqb p PERCENT
      then match hexVal h, hexVal l with
           | Some a, Some b => Some (16 * a + b, rest)%N
           | _, _ => None
           end
      else None
  | _ => None
  end.

(** [n] continuation octets (10xxxxxx), their payload appended to [acc]. *)
Fixpoint readContinuation (n : nat) (acc : N) (s : jsstring) : option (N * jsstring) :=
  match n with
  | O => Some (acc, s)
  | S n' =>
      match readEscape s with
      | Some (b, rest) =>
          if (b / 64 =? 2)%N then readContinuation n' (acc * 64 + b mod 64)%N rest else None
      | None => None
      end
  end.

Definition utf16CodePoint (cp : N) : jsstring :=
  (if cp <? 65536 then [cp]
   else [55296 + (cp - 65536) / 1024; 56320 + (cp - 65536) mod 1024])%N.

(** Decode (ECMA-262) with no reserved set: an escape sequence, or a run
    of them that is the UTF-8 of one code point, becomes that code point;
    anything else after a percent sign is a [URIError]. *)
Fixpoint refPercentDecode (fuel : nat) (s : jsstring) : option jsstring :=
  match s with
  | [] => Some []
  | c :: rest =>
      match fuel with
      | O => None
      | S fuel' =>
          if N.eqb c PERCENT
          then
            match readEscape s with
            | None => None
            | Some (b, rest') =>
                if (b <? 128)%N
                then option_map (cons b) (refPercentDecode fuel' rest')
                else
                  let '(n, payload, least) :=
                    (if b / 32 =? 6 then (1%nat, b mod 32, 128)
                     else if b / 16 =? 14 then (2%nat, b mod 16, 2048)
                     else if b / 8 =? 30 then (3%nat, b mod 8, 65536)
                     else (0%nat, 0, 0))%N in
                  match n with
                  | O => None
                  | _ =>
                      match readContinuation n payload rest' with
                      | None => None
                      | Some (cp, rest'') =>
                          if (N.leb least cp && N.leb cp 1114111
                              && negb (in_range 55296 57343 cp))%bool
                          then option_map (app (utf16CodePoint cp))
                                 (refPercentDecode fuel' rest'')
                          else None
                      end
                  end
            end
          else option_map (cons c) (refPercentDecode fuel' rest)
      end
  end.

Definition RefURI : URIRuntime :=
  {| percentDecode := fun s => refPercentDecode (List.length s) s |}.

(** A collation that compares without regard to the case of ASCII
    letters, as the [_ci] collation of the column [value] does: the first
    row, by [id], whose value is equal to the argument under it. *)
Definition selectIgnoringCase (value : jsstring) (tbl : gmap (list N) Row.t)
    : option Row.t :=
  head (List.filter
          (fun row => jsstring_eqb (map lowerAscii (Row.value row)) (map lowerAscii value))
          (map snd (map_to_list tbl))).

(* ===================================================================== *)
(** ** Code units and strings: basic facts                                *)
(* ===================================================================== *)

(** Turns the boolean tests on code units into linear arithmetic. *)
Ltac unit_tests :=
  unfold isWhiteSpace, isAlnum, isLetter, isDigit, isUpper, isLower, isAscii,
    isSurrogate, isHighSurrogate, isLowSurrogate, in_range, codeunit_eqb, SPACE in *.

Ltac bool_arith :=
  repeat rewrite ?Bool.orb_true_iff, ?Bool.andb_true_iff, ?Bool.orb_false_iff,
    ?Bool.andb_false_iff, ?Bool.negb_true_iff, ?Bool.negb_false_iff,
    ?N.leb_le, ?N.leb_gt, ?N.eqb_eq, ?N.eqb_neq, ?N.ltb_lt, ?N.ltb_ge in *.

Lemma jsstring_eqb_eq (s t : jsstring) : jsstring_eqb s t = true <-> s = t.
Proof.
  revert t. induction s as [|a s IH]; intros [|b t]; simpl; try (split; congruence).
  unfold codeunit_eqb. rewrite Bool.andb_true_iff, N.eqb_eq, IH.
  split; [intros [-> ->]; reflexivity | intros [= -> ->]; auto].
Qed.

Lemma jsstring_eqb_neq (s t : jsstring) : jsstring_eqb s t = false <-> s <> t.
Proof.
  rewrite <- jsstring_eqb_eq. destruct (jsstring_eqb s t); split; congruence.
Qed.

Lemma jslength_zero (s : jsstring) : jslength s = 0 <-> s = [].
Proof.
  unfold jslength. destruct s; simpl; split; try congruence; try lia.
Qed.

Lemma jslength_nonneg (s : jsstring) : 0 <= jslength s.
Proof. unfold jslength. lia. Qed.

Lemma whitespace_not_surrogate (c : codeunit) :
  isWhiteSpace c = true -> isSurrogate c = false.
Proof. unit_tests. bool_arith. lia. Qed.

Lemma whitespace_not_alnum (c : codeunit) :
  isWhiteSpace c = true -> isAlnum c = false.
Proof. unit_tests. bool_arith. lia. Qed.

Lemma alnum_ascii (c : codeunit) : isAlnum c = true -> isAscii c = true.
Proof. unit_tests. bool_arith. lia. Qed.

Lemma digit_ascii (c : codeunit) : isDigit c = true -> isAscii c = true.
Proof. unit_tests. bool_arith. lia. Qed.

(** *** trim *)

Lemma trimStart_noLeadingWs (s : jsstring) : noLeadingWs (trimStart s).
Proof.
  induction s as [|c s IH]; simpl; [exact I|].
  destruct (isWhiteSpace c) eqn:E; [exact IH | simpl; exact E].
Qed.

Lemma trimStart_fixed (s : jsstring) : noLeadingWs s -> trimStart s = s.
Proof. destruct s as [|c s]; simpl; [reflexivity | intros ->; reflexivity]. Qed.

Lemma trimStart_snoc (s : jsstring) (c : codeunit) :
  isWhiteSpace c = false -> trimStart (s ++ [c]) = trimStart s ++ [c].
Proof.
  intros Hc. induction s as [|a s IH]; simpl.
  - rewrite Hc. reflexivity.
  - destruct (isWhiteSpace a); [exact IH | reflexivity].
Qed.

Lemma trimEnd_noLeadingWs (s : jsstring) : noLeadingWs s -> noLeadingWs (trimEnd s).
Proof.
  destruct s as [|c s]; simpl; [intros _; exact I|].
  intros Hc. unfold trimEnd. simpl. rewrite trimStart_snoc by exact Hc.
  rewrite rev_app_distr. simpl. exact Hc.
Qed.

Lemma trimEnd_idempotent (s : jsstring) : trimEnd (trimEnd s) = trimEnd s.
Proof.
  unfold trimEnd. rewrite rev_involutive.
  rewrite (trimStart_fixed (trimStart (rev s))) by apply trimStart_noLeadingWs.
  reflexivity.
Qed.

Lemma trim_idempotent (s : jsstring) : trim (trim s) = trim s.
Proof.
  unfold trim.
  rewrite (trimStart_fixed (trimEnd (trimStart s))).
  - apply trimEnd_idempotent.
  - apply trimEnd_noLeadingWs, trimStart_noLeadingWs.
Qed.

Lemma trimStart_length (s : jsstring) : (length (trimStart s) <= length s)%nat.
Proof.
  induction s as [|c s IH]; simpl; [lia|].
  destruct (isWhiteSpace c); simpl; lia.
Qed.

Lemma trim_length (s : jsstring) : jslength (trim s) <= jslength s.
Proof.
  unfold jslength, trim, trimEnd. rewrite length_rev.
  pose proof (trimStart_length (rev (trimStart s))) as H1.
  rewrite length_rev in H1. pose proof (trimStart_length s). lia.
Qed.

Lemma trimStart_incl (s : jsstring) (c : codeunit) : In c (trimStart s) -> In c s.
Proof.
  induction s as [|a s IH]; simpl; [tauto|].
  destruct (isWhiteSpace a); simpl; tauto.
Qed.

(** *** Iteration by code point *)

Lemma pair_induction (P : jsstring -> Prop) :
  P [] -> (forall c, P [c]) ->
  (forall c d s, P s -> P (d :: s) -> P (c :: d :: s)) ->
  forall s, P s.
Proof.
  intros H0 H1 H2 s.
  assert (P s /\ forall c, P (c :: s)) as [? _]; [|assumption].
  induction s as [|d s [IHs IHc]]; split; auto.
Qed.

Lemma codePoints_cons_single (c : codeunit) (s : jsstring) :
  isHighSurrogate c = false -> codePoints (c :: s) = [c] :: codePoints s.
Proof. intros Hc. destruct s; simpl; [reflexivity | rewrite Hc; reflexivity]. Qed.

(** Every element of the iteration is made of code units of the string. *)
Lemma codePoints_units (s : jsstring) (ch : jsstring) (c : codeunit) :
  In ch (codePoints s) -> In c ch -> In c s.
Proof.
  revert ch c. induction s as [|a|a d s IH1 IH2] using pair_induction; intros ch c.
  - simpl. tauto.
  - simpl. intros [<-|[]]. simpl. tauto.
  - simpl. destruct (isHighSurrogate a && isLowSurrogate d)%bool.
    + intros [<-|Hin] Hc.
      * simpl in Hc. tauto.
      * right. right. eapply IH1; eauto.
    + intros [<-|Hin] Hc.
      * simpl in Hc. tauto.
      * right. eapply IH2; eauto.
Qed.

(** A code unit that is no surrogate is an element of its own. *)
Lemma codePoints_single (s : jsstring) (c : codeunit) :
  isSurrogate c = false -> In c s -> In [c] (codePoints s).
Proof.
  intros Hc. induction s as [|a|a d s IH1 IH2] using pair_induction.
  - simpl. tauto.
  - simpl. intros [->|[]]. left. reflexivity.
  - simpl. destruct (isHighSurrogate a && isLowSurrogate d)%bool eqn:E.
    + intros [->|[->|Hin]].
      * exfalso. revert E Hc. unit_tests. bool_arith. lia.
      * exfalso. revert E Hc. unit_tests. bool_arith. lia.
      * right. auto.
    + intros [->|Hin]; [left; reflexivity | right; apply IH2; exact Hin].
Qed.

Lemma codePoints_map (f : codeunit -> codeunit) (s : jsstring) :
  (forall c, isHighSurrogate (f c) = isHighSurrogate c) ->
  (forall c, isLowSurrogate (f c) = isLowSurrogate c) ->
  codePoints (map f s) = map (map f) (codePoints s).
Proof.
  intros Hhi Hlo. induction s as [|a|a d s IH1 IH2] using pair_induction.
  - reflexivity.
  - reflexivity.
  - change (map f (a :: d :: s)) with (f a :: f d :: map f s).
    change (map f (d :: s)) with (f d :: map f s) in IH2.
    cbn [codePoints]. rewrite Hhi, Hlo.
    destruct (isHighSurrogate a && isLowSurrogate d)%bool.
    + cbn [map]. f_equal. exact IH1.
    + cbn [map]. f_equal. exact IH2.
Qed.

(** In a string without unpaired surrogates, removing the white space
    and then iterating gives the iteration without its white-space
    elements: no two halves of a pair are brought together. *)
Lemma codePoints_removeWhiteSpace (s : jsstring) :
  isWellFormed s = true ->
  codePoints (removeWhiteSpace s) =
    List.filter (fun ch => negb (isWhiteSpaceChar ch)) (codePoints s).
Proof.
  unfold isWellFormed, removeWhiteSpace.
  induction s as [|a|a d s IH1 IH2] using pair_induction.
  - reflexivity.
  - simpl. destruct (isWhiteSpace a); reflexivity.
  - cbn [codePoints].
    destruct (isHighSurrogate a && isLowSurrogate d)%bool eqn:E.
    + cbn [forallb wellFormedChar]. intros Hwf. simpl in Hwf.
      assert (isWhiteSpace a = false /\ isWhiteSpace d = false) as [Ha Hd].
      { revert E. unit_tests. bool_arith. lia. }
      cbn [List.filter isWhiteSpaceChar negb]. rewrite Ha, Hd. cbn [negb].
      cbn [codePoints]. rewrite E. f_equal. exact (IH1 Hwf).
    + cbn [forallb]. rewrite Bool.andb_true_iff. intros [Ha Hwf].
      cbn [wellFormedChar] in Ha.
      cbn [List.filter isWhiteSpaceChar].
      change (List.filter (fun c => negb (isWhiteSpace c)) (a :: d :: s))
        with (if negb (isWhiteSpace a)
              then a :: List.filter (fun c => negb (isWhiteSpace c)) (d :: s)
              else List.filter (fun c => negb (isWhiteSpace c)) (d :: s)).
      destruct (negb (isWhiteSpace a)).
      * rewrite codePoints_cons_single.
        -- f_equal. exact (IH2 Hwf).
        -- revert Ha. unit_tests. bool_arith. lia.
      * exact (IH2 Hwf).
Qed.

(** *** The reference runtime satisfies the laws *)

Lemma refLowerUnit_ascii (c : codeunit) :
  isAscii c = true -> refLowerUnit c = lowerAscii c.
Proof.
  unfold refLowerUnit, lowerAscii. intros Hc.
  destruct (isUpper c) eqn:E; simpl; [reflexivity|].
  destruct (in_range 192 222 c && negb (c =? 215)%N)%bool eqn:E2; [|reflexivity].
  exfalso. revert Hc E2. unit_tests. bool_arith. lia.
Qed.

Lemma refLowerUnit_cases (c : codeunit) :
  refLowerUnit c = c \/
  (refLowerUnit c = (c + 32)%N /\ ((65 <= c <= 90)%N \/ (192 <= c <= 222)%N)).
Proof.
  unfold refLowerUnit.
  destruct (isUpper c || in_range 192 222 c && negb (c =? 215)%N)%bool eqn:E;
    [right | left; reflexivity].
  split; [reflexivity|]. revert E. unit_tests. bool_arith. lia.
Qed.

Lemma refLowerUnit_whitespace (c : codeunit) :
  isWhiteSpace (refLowerUnit c) = true -> refLowerUnit c = c.
Proof.
  destruct (refLowerUnit_cases c) as [->|[-> Hr]]; [reflexivity|].
  intros Hw. exfalso. revert Hw. unit_tests. bool_arith. lia.
Qed.

Lemma refLowerUnit_fixes_whitespace (c : codeunit) :
  isWhiteSpace c = true -> refLowerUnit c = c.
Proof.
  destruct (refLowerUnit_cases c) as [->|[-> Hr]]; [reflexivity|].
  intros Hw. exfalso. revert Hw. unit_tests. bool_arith. lia.
Qed.

Lemma refLowerUnit_high (c : codeunit) :
  isHighSurrogate (refLowerUnit c) = isHighSurrogate c.
Proof.
  destruct (refLowerUnit_cases c) as [->|[-> Hr]]; [reflexivity|].
  unit_tests.
  destruct (55296 <=? c + 32)%N eqn:E1, (55296 <=? c)%N eqn:E2; simpl; auto;
    revert E1 E2; bool_arith; lia.
Qed.

Lemma refLowerUnit_low (c : codeunit) :
  isLowSurrogate (refLowerUnit c) = isLowSurrogate c.
Proof.
  destruct (refLowerUnit_cases c) as [->|[-> Hr]]; [reflexivity|].
  unit_tests.
  destruct (56320 <=? c + 32)%N eqn:E1, (56320 <=? c)%N eqn:E2; simpl; auto;
    revert E1 E2; bool_arith; lia.
Qed.

Lemma refLowerUnit_surrogate (c : codeunit) :
  isSurrogate (refLowerUnit c) = isSurrogate c.
Proof.
  destruct (refLowerUnit_cases c) as [->|[-> Hr]]; [reflexivity|].
  unit_tests.
  destruct (55296 <=? c + 32)%N eqn:E1, (55296 <=? c)%N eqn:E2; simpl; auto;
    revert E1 E2; bool_arith; lia.
Qed.

Lemma refToLowerCase_ascii (s : jsstring) :
  forallb isAscii s = true -> refToLowerCase s = map lowerAscii s.
Proof.
  unfold refToLowerCase. induction s as [|c s IH]; simpl; [reflexivity|].
  rewrite Bool.andb_true_iff. intros [Hc Hs].
  rewrite refLowerUnit_ascii by exact Hc. rewrite IH by exact Hs. reflexivity.
Qed.

Lemma refToLowerCase_whitespace (s : jsstring) (c : codeunit) :
  isWhiteSpace c = true -> (In c (refToLowerCase s) <-> In c s).
Proof.
  intros Hc. unfold refToLowerCase. rewrite in_map_iff. split.
  - intros (x & Hx & Hin). subst c. rewrite refLowerUnit_whitespace; auto.
  - intros Hin. exists c. split; [apply refLowerUnit_fixes_whitespace; exact Hc | exact Hin].
Qed.

Lemma refToLowerCase_wellFormed (s : jsstring) :
  isWellFormed s = true -> isWellFormed (refToLowerCase s) = true.
Proof.
  unfold isWellFormed, refToLowerCase.
  rewrite codePoints_map by (intros; first [apply refLowerUnit_high | apply refLowerUnit_low]).
  induction (codePoints s) as [|ch l IH]; simpl; [reflexivity|].
  rewrite !Bool.andb_true_iff. intros [Hch Hl]. split; [|exact (IH Hl)].
  destruct ch as [|a [|b ch]]; simpl in *; try reflexivity.
  rewrite refLowerUnit_surrogate. exact Hch.
Qed.

Lemma refToLowerCase_eq (s : jsstring) :
  toLowerCase (rt := RefRuntime) s = refToLowerCase s.
Proof.
  unfold toLowerCase. destruct (forallb isAscii s) eqn:E; [|reflexivity].
  symmetry. apply refToLowerCase_ascii. exact E.
Qed.

Lemma RefRuntime_ok : JSRuntimeOk RefRuntime.
Proof.
  split.
  - intros s c. rewrite refToLowerCase_eq. apply refToLowerCase_whitespace.
  - intros s. rewrite refToLowerCase_eq. apply refToLowerCase_wellFormed.
Qed.

Lemma occurrences_cons (c ch : jsstring) (l : list jsstring) :
  occurrences c (ch :: l) = (if jsstring_eqb c ch then 1 else 0) + occurrences c l.
Proof.
  unfold occurrences. simpl. destruct (jsstring_eqb c ch); simpl; lia.
Qed.

Lemma occurrences_nonneg (c : jsstring) (l : list jsstring) : 0 <= occurrences c l.
Proof. unfold occurrences. lia. Qed.

Lemma occurrences_zero (c : jsstring) (l : list jsstring) :
  occurrences c l = 0 <-> ~ In c l.
Proof.
  induction l as [|ch l IH].
  - unfold occurrences. simpl. tauto.
  - rewrite occurrences_cons. pose proof (occurrences_nonneg c l).
    simpl. destruct (jsstring_eqb c ch) eqn:E.
    + apply jsstring_eqb_eq in E. subst ch. split; [lia | tauto].
    + apply jsstring_eqb_neq in E. rewrite Z.add_0_l, IH.
      split; [intros Hn [Heq|Hin]; [congruence | tauto] | tauto].
Qed.

(** One turn of the loop, seen from a key. *)
Lemma countChar_lookup (m : gmap jsstring Z) (ch c : jsstring) :
  countChar m ch !! c =
    if (jsstring_eqb c ch && negb (jsstring_eqb ch [SPACE]))%bool
    then Some (default 0 (m !! c) + 1)
    else m !! c.
Proof.
  unfold countChar.
  destruct (jsstring_eqb ch [SPACE]) eqn:Esp; simpl.
  - rewrite Bool.andb_false_r. reflexivity.
  - rewrite Bool.andb_true_r. destruct (jsstring_eqb c ch) eqn:E.
    + apply jsstring_eqb_eq in E. subst c. rewrite lookup_insert_eq. reflexivity.
    + apply jsstring_eqb_neq in E. rewrite lookup_insert_ne by congruence. reflexivity.
Qed.

(** The loop adds, at every key but the space, the number of
    occurrences of the key. *)
Lemma fold_countChar_lookup (l : list jsstring) (m : gmap jsstring Z) (c : jsstring) :
  fold_left countChar l m !! c =
    if (jsstring_eqb c [SPACE] || (occurrences c l =? 0))%bool
    then m !! c
    else Some (default 0 (m !! c) + occurrences c l).
Proof.
  revert m. induction l as [|ch l IH]; intros m.
  - simpl. rewrite Bool.orb_true_r. reflexivity.
  - cbn [fold_left]. rewrite IH, countChar_lookup, occurrences_cons. clear IH.
    pose proof (occurrences_nonneg c l) as Hn.
    destruct (jsstring_eqb c [SPACE]) eqn:Esp; simpl.
    + destruct (jsstring_eqb c ch) eqn:E; simpl; [|reflexivity].
      apply jsstring_eqb_eq in E. subst ch. rewrite Esp. reflexivity.
    + destruct (jsstring_eqb c ch) eqn:E; simpl.
      * apply jsstring_eqb_eq in E. subst ch. rewrite Esp. simpl.
        destruct (occurrences c l =? 0) eqn:E0.
        -- apply Z.eqb_eq in E0. rewrite E0. simpl. reflexivity.
        -- apply Z.eqb_neq in E0.
           destruct (1 + occurrences c l =? 0) eqn:E1; [apply Z.eqb_eq in E1; lia|].
           simpl. f_equal. lia.
      * rewrite Z.add_0_l. destruct (occurrences c l =? 0); reflexivity.
Qed.

Section AnalyzerFacts.
Context {rt : JSRuntime} {rt_ok : JSRuntimeOk rt}.

Lemma removeNonAlnum_ascii (s : jsstring) : forallb isAscii (removeNonAlnum s) = true.
Proof.
  unfold removeNonAlnum. induction s as [|c s IH]; simpl; [reflexivity|].
  destruct (isAlnum c) eqn:E; [|exact IH].
  simpl. rewrite (alnum_ascii c E). exact IH.
Qed.

(** The cleaned string does not depend on the runtime. *)
Lemma cleaned_ascii (s : jsstring) :
  cleaned s = map lowerAscii (removeNonAlnum (trim s)).
Proof. unfold cleaned, toLowerCase. rewrite removeNonAlnum_ascii. reflexivity. Qed.

Lemma is_palindrome_spec (s : jsstring) :
  Props.is_palindrome (analyzeString s) = true <->
  cleaned s <> [] /\ cleaned s = rev (cleaned s).
Proof.
  unfold analyzeString, cleaned. cbn [Props.is_palindrome].
  rewrite Bool.andb_true_iff, Z.ltb_lt, jsstring_eqb_eq.
  pose proof (jslength_zero (toLowerCase (removeNonAlnum (trim s)))) as Hz.
  pose proof (jslength_nonneg (toLowerCase (removeNonAlnum (trim s)))) as Hn.
  split; intros [H1 H2]; (split; [|exact H2]).
  - intros E. apply Hz in E. lia.
  - destruct (Z.eq_dec (jslength (toLowerCase (removeNonAlnum (trim s)))) 0) as [E|E].
    + apply Hz in E. contradiction.
    + lia.
Qed.

(** C1: is_palindrome is true exactly when the cleaned string (trimmed,
    non-alphanumerics removed, lower-cased) is non-empty and equal to
    its reverse; it is false for the empty string and for "!!!", and
    true for "A man, a plan, a canal: Panama". *)
Theorem analyzeString_is_palindrome :
  (forall s, Props.is_palindrome (analyzeString s) = true <->
             cleaned s <> [] /\ cleaned s = rev (cleaned s)) /\
  Props.is_palindrome (analyzeString (js "")) = false /\
  Props.is_palindrome (analyzeString (js "!!!")) = false /\
  Props.is_palindrome (analyzeString (js "A man, a plan, a canal: Panama")) = true.
Proof.
  split; [exact is_palindrome_spec|].
  repeat split; unfold analyzeString; cbn [Props.is_palindrome];
    vm_compute; reflexivity.
Qed.

(** C2: the whole result of analyzeString depends on the trimmed input
    only: analyzeString(s) equals analyzeString(trim(s)), two inputs with
    the same trimmed form have the same result, and " madam " and
    "madam" have the same sha256_hash. *)
Theorem analyzeString_depends_on_trim :
  (forall s, analyzeString s = analyzeString (trim s)) /\
  (forall s t, trim s = trim t -> analyzeString s = analyzeString t) /\
  Props.sha256_hash (analyzeString (js " madam ")) =
    Props.sha256_hash (analyzeString (js "madam")).
Proof.
  assert (Htrim : forall s, analyzeString s = analyzeString (trim s)).
  { intros s. unfold analyzeString. rewrite !trim_idempotent. reflexivity. }
  split; [exact Htrim|]. split.
  - intros s t E. rewrite (Htrim s), (Htrim t), E. reflexivity.
  - rewrite (Htrim (js " madam ")). reflexivity.
Qed.

Lemma character_frequency_lookup (s : jsstring) (c : jsstring) :
  Props.character_frequency_map (analyzeString s) !! c =
    if (jsstring_eqb c [SPACE] || (occurrences c (loweredChars s) =? 0))%bool
    then None
    else Some (occurrences c (loweredChars s)).
Proof.
  unfold analyzeString, loweredChars. cbn [Props.character_frequency_map].
  rewrite fold_countChar_lookup, lookup_empty. simpl.
  destruct (_ || _)%bool; [reflexivity | f_equal].
Qed.

(** C3: character_frequency_map maps every character of
    lowercase(trim(s)) other than the space to the number of its
    occurrences there, has no entry for the space and no other key; tab
    and newline are keys like any other character; for "a a" the map is
    {"a": 2}. *)
Theorem character_frequency_map_counts :
  (forall s,
     let freq := Props.character_frequency_map (analyzeString s) in
     freq !! [SPACE] = None /\
     (forall ch, ch <> [SPACE] -> In ch (loweredChars s) ->
                 freq !! ch = Some (occurrences ch (loweredChars s))) /\
     (forall ch, ~ In ch (loweredChars s) -> freq !! ch = None)) /\
  (let freq := Props.character_frequency_map
                 (analyzeString (js "a" ++ [9%N] ++ js "b" ++ [10%N] ++ js "a")) in
   freq !! [9%N] = Some 1 /\ freq !! [10%N] = Some 1 /\ freq !! js "a" = Some 2) /\
  Props.character_frequency_map (analyzeString (js "a a")) = {[ js "a" := 2 ]}.
Proof.
  split; [|split].
  - intros s freq. subst freq. repeat split.
    + rewrite character_frequency_lookup. reflexivity.
    + intros ch Hsp Hin. rewrite character_frequency_lookup.
      apply jsstring_eqb_neq in Hsp. rewrite Hsp. simpl.
      destruct (occurrences ch (loweredChars s) =? 0) eqn:E; [|reflexivity].
      apply Z.eqb_eq, occurrences_zero in E. contradiction.
    + intros ch Hin. rewrite character_frequency_lookup.
      apply occurrences_zero, Z.eqb_eq in Hin. rewrite Hin, Bool.orb_true_r.
      reflexivity.
  - cbv zeta. rewrite !character_frequency_lookup. unfold loweredChars.
    vm_compute. auto.
  - unfold analyzeString. cbn [Props.character_frequency_map].
    vm_compute. reflexivity.
Qed.

Lemma elem_of_uniqueChars (s : jsstring) (ch : jsstring) :
  isWellFormed (trim s) = true ->
  ch ∈ (list_to_set (uniqueChars s) : gset jsstring) <->
  In ch (loweredChars s) /\ isWhiteSpaceChar ch = false.
Proof.
  intros Hwf. unfold uniqueChars, loweredChars.
  rewrite codePoints_removeWhiteSpace by (apply toLowerCase_wellFormed, Hwf).
  rewrite elem_of_list_to_set, list_elem_of_In, filter_In, Bool.negb_true_iff.
  tauto.
Qed.

Lemma elem_of_keys (s : jsstring) (ch : jsstring) :
  ch ∈ dom (Props.character_frequency_map (analyzeString s)) <->
  In ch (loweredChars s) /\ ch <> [SPACE].
Proof.
  rewrite elem_of_dom, character_frequency_lookup.
  destruct (jsstring_eqb ch [SPACE]) eqn:Esp; simpl.
  - apply jsstring_eqb_eq in Esp. split; [intros [? [=]] | tauto].
  - apply jsstring_eqb_neq in Esp.
    destruct (occurrences ch (loweredChars s) =? 0) eqn:E.
    + apply Z.eqb_eq, occurrences_zero in E. split; [intros [? [=]] | tauto].
    + apply Z.eqb_neq in E. rewrite occurrences_zero in E.
      split; [intros _; split; [|exact Esp] | intros _; eexists; reflexivity].
      destruct (in_dec (list_eq_dec N.eq_dec) ch (loweredChars s)); tauto.
Qed.

Lemma uniqueChars_subset_keys (s : jsstring) :
  isWellFormed (trim s) = true ->
  (list_to_set (uniqueChars s) : gset jsstring) ⊆
    dom (Props.character_frequency_map (analyzeString s)).
Proof.
  intros Hwf ch. rewrite elem_of_uniqueChars by exact Hwf. rewrite elem_of_keys.
  intros [Hin Hws]. split; [exact Hin|]. intros ->. discriminate Hws.
Qed.

(** C10, amended: when the trimmed input has no unpaired surrogate,
    unique_characters equals the number of keys of
    character_frequency_map if the trimmed input has no white space other
    than the plain space; and every other white-space character of the
    trimmed input is a key of the map, is not among the unique
    characters, and makes unique_characters strictly smaller than the
    number of keys. *)
Theorem unique_characters_and_keys (s : jsstring) :
  isWellFormed (trim s) = true ->
  (onlyPlainSpaces (trim s) ->
     Props.unique_characters (analyzeString s) = keyCount s) /\
  (forall c, In c (trim s) -> isWhiteSpace c = true -> c <> SPACE ->
     is_Some (Props.character_frequency_map (analyzeString s) !! [c]) /\
     ~ In [c] (uniqueChars s) /\
     Props.unique_characters (analyzeString s) < keyCount s).
Proof.
  intros Hwf.
  assert (Hsub := uniqueChars_subset_keys s Hwf).
  assert (Hu : Props.unique_characters (analyzeString s) =
               Z.of_nat (size (list_to_set (uniqueChars s) : gset jsstring)))
    by reflexivity.
  assert (Hk : keyCount s =
               Z.of_nat (size (dom (Props.character_frequency_map (analyzeString s)))))
    by (unfold keyCount; rewrite size_dom; reflexivity).
  rewrite Hu, Hk. split.
  - intros Hplain. do 2 f_equal. apply set_eq. intros ch. split; [apply Hsub|].
    rewrite elem_of_keys, elem_of_uniqueChars by exact Hwf.
    intros [Hin Hsp]. split; [exact Hin|].
    destruct ch as [|c [|d ch]]; try reflexivity. simpl.
    destruct (isWhiteSpace c) eqn:Ews; [exfalso | reflexivity].
    apply Hsp. f_equal. apply Hplain; [|exact Ews].
    apply (toLowerCase_whitespace (trim s) c Ews).
    apply (codePoints_units _ [c] c Hin). left. reflexivity.
  - intros c Hin Hws Hne.
    assert (Hkey : [c] ∈ dom (Props.character_frequency_map (analyzeString s))).
    { rewrite elem_of_keys. split; [|intros [= ->]; apply Hne; reflexivity].
      apply codePoints_single; [apply whitespace_not_surrogate, Hws|].
      apply (toLowerCase_whitespace (trim s) c Hws). exact Hin. }
    assert (Hnot : [c] ∉ (list_to_set (uniqueChars s) : gset jsstring)).
    { rewrite elem_of_uniqueChars by exact Hwf. simpl. intros [_ E]. congruence. }
    split; [apply elem_of_dom; exact Hkey|]. split.
    + intros Hc. apply Hnot. rewrite elem_of_list_to_set, list_elem_of_In. exact Hc.
    + apply inj_lt, subset_size. split; [exact Hsub|].
      intros Hsup. apply Hnot, Hsup, Hkey.
Qed.
End AnalyzerFacts.

(* ===================================================================== *)
(** ** The matcher                                                        *)
(* ===================================================================== *)

Lemma stripPrefix_Some (l s s' : jsstring) :
  stripPrefix l s = Some s' <-> s = l ++ s'.
Proof.
  revert s. induction l as [|a l IH]; intros s; simpl.
  - split; [intros [= ->]; reflexivity | intros ->; reflexivity].
  - destruct s as [|b s]; [split; discriminate|].
    unfold codeunit_eqb. destruct (N.eqb_spec a b) as [->|Hne].
    + rewrite IH. split; [intros ->; reflexivity | intros [= ->]; reflexivity].
    + split; [discriminate | intros [= E _]; congruence].
Qed.

Lemma firstn_consumed (ds s' : jsstring) :
  firstn (List.length (ds ++ s') - List.length s') (ds ++ s') = ds.
Proof.
  rewrite length_app.
  replace (List.length ds + List.length s' - List.length s')%nat
    with (List.length ds + 0)%nat by lia.
  rewrite firstn_app_2. simpl. apply app_nil_r.
Qed.

(** A successful repetition consumed code units of the class and handed
    the rest to a continuation that succeeded. *)
Lemma plusLoop_inv {A} (k : cclass) (s : jsstring) (cont : jsstring -> option A) (x : A) :
  plusLoop k s cont = Some x ->
  exists ds s', s = ds ++ s' /\ forallb (in_class k) ds = true /\ cont s' = Some x.
Proof.
  induction s as [|c s IH]; simpl.
  - intros Hc. exists [], []. auto.
  - destruct (in_class k c) eqn:Ec.
    + destruct (plusLoop k s cont) as [y|] eqn:El.
      * intros [= ->]. destruct (IH eq_refl) as (ds & s' & -> & Hds & Hc).
        exists (c :: ds), s'. simpl. rewrite Ec, Hds. auto.
      * intros Hc. exists [], (c :: s). auto.
    + intros Hc. exists [], (c :: s). auto.
Qed.

Lemma rmatch_Seq (r1 r2 : regex) (s : jsstring) caps cont :
  rmatch (r1 +> r2)%re s caps cont =
    rmatch r1 s caps (fun s' caps' => rmatch r2 s' caps' cont).
Proof. reflexivity. Qed.

Lemma rmatch_Group (r : regex) (s : jsstring) caps cont :
  rmatch (Group r) s caps cont =
    rmatch r s caps (fun s' caps' =>
      cont s' (caps' ++ [firstn (List.length s - List.length s') s])).
Proof. reflexivity. Qed.

Lemma rmatch_Lit_inv (l s : jsstring) caps cont m :
  rmatch (Lit l) s caps cont = Some m ->
  exists s', s = l ++ s' /\ cont s' caps = Some m.
Proof.
  simpl. destruct (stripPrefix l s) as [s'|] eqn:E; [|discriminate].
  apply stripPrefix_Some in E. eauto.
Qed.

Lemma rmatch_Plus_inv (k : cclass) (s : jsstring) caps cont m :
  rmatch (Plus k) s caps cont = Some m ->
  exists ds s', s = ds ++ s' /\ ds <> [] /\ forallb (in_class k) ds = true /\
                cont s' caps = Some m.
Proof.
  simpl. destruct s as [|c s]; [discriminate|].
  destruct (in_class k c) eqn:Ec; [|discriminate].
  intros Hl. apply plusLoop_inv in Hl as (ds & s' & -> & Hds & Hc).
  exists (c :: ds), s'. simpl. rewrite Ec, Hds. repeat split; auto; discriminate.
Qed.

Lemma rmatch_Group_Plus_inv (k : cclass) (s : jsstring) caps cont m :
  rmatch (Group (Plus k)) s caps cont = Some m ->
  exists ds s', s = ds ++ s' /\ ds <> [] /\ forallb (in_class k) ds = true /\
                cont s' (caps ++ [ds]) = Some m.
Proof.
  rewrite rmatch_Group. intros Hm.
  apply rmatch_Plus_inv in Hm as (ds & s' & -> & Hne & Hds & Hc).
  rewrite firstn_consumed in Hc. eauto 10.
Qed.

Lemma jsMatch_inv (r : regex) (s : jsstring) m :
  jsMatch r s = Some m ->
  exists pre s', s = pre ++ s' /\ matchHere r s' = Some m.
Proof.
  induction s as [|c s IH]; simpl.
  - destruct (matchHere r []) eqn:E; [|discriminate].
    intros [= ->]. exists [], []. auto.
  - destruct (matchHere r (c :: s)) eqn:E.
    + intros [= ->]. exists [], (c :: s). auto.
    + intros Hm. destruct (IH Hm) as (pre & s' & -> & Hs').
      exists (c :: pre), s'. auto.
Qed.

(** What a match of [/keyword (\d+)/] says about the string and the
    capture. *)
Lemma keyword_number_inv (kw s : jsstring) m :
  jsMatch (Lit kw +> Group digits)%re s = Some m ->
  exists pre ds post,
    s = pre ++ kw ++ ds ++ post /\ m = [ds] /\ isNatNumeral ds = true.
Proof.
  intros Hm. apply jsMatch_inv in Hm as (pre & s' & -> & Hm).
  unfold matchHere in Hm. rewrite rmatch_Seq in Hm.
  apply rmatch_Lit_inv in Hm as (s1 & -> & Hm).
  apply rmatch_Group_Plus_inv in Hm as (ds & post & -> & Hne & Hds & Hm).
  injection Hm as <-. exists pre, ds, post. repeat split.
  unfold isNatNumeral. change (forallb (in_class CDigit) ds) with (forallb isDigit ds) in Hds.
  rewrite Hds, Bool.andb_true_r, Bool.negb_true_iff, Z.eqb_neq, jslength_zero. exact Hne.
Qed.

Lemma between_inv (s : jsstring) m :
  jsMatch re_between s = Some m ->
  exists pre lo hi post,
    s = pre ++ js "between " ++ lo ++ js " and " ++ hi ++ post /\ m = [lo; hi] /\
    isNatNumeral lo = true /\ isNatNumeral hi = true.
Proof.
  intros Hm. apply jsMatch_inv in Hm as (pre & s' & -> & Hm).
  unfold matchHere, re_between in Hm. rewrite rmatch_Seq in Hm.
  apply rmatch_Lit_inv in Hm as (s1 & -> & Hm). rewrite rmatch_Seq in Hm.
  apply rmatch_Group_Plus_inv in Hm as (lo & s2 & -> & Hne1 & Hlo & Hm).
  rewrite rmatch_Seq in Hm.
  apply rmatch_Lit_inv in Hm as (s3 & -> & Hm).
  apply rmatch_Group_Plus_inv in Hm as (hi & post & -> & Hne2 & Hhi & Hm).
  injection Hm as <-.
  exists pre, lo, hi, post. repeat split.
  - unfold isNatNumeral.
    change (forallb (in_class CDigit) lo) with (forallb isDigit lo) in Hlo.
    rewrite Hlo, Bool.andb_true_r, Bool.negb_true_iff, Z.eqb_neq, jslength_zero. exact Hne1.
  - unfold isNatNumeral.
    change (forallb (in_class CDigit) hi) with (forallb isDigit hi) in Hhi.
    rewrite Hhi, Bool.andb_true_r, Bool.negb_true_iff, Z.eqb_neq, jslength_zero. exact Hne2.
Qed.

(** A repetition followed by a continuation that cannot fail matches. *)
Lemma plusLoop_total {A} (k : cclass) (s : jsstring) (cont : jsstring -> option A) :
  (forall s', is_Some (cont s')) -> is_Some (plusLoop k s cont).
Proof.
  intros Hc. induction s as [|c s IH]; simpl; [apply Hc|].
  destruct (in_class k c); [|apply Hc].
  destruct (plusLoop k s cont); [eauto | apply Hc].
Qed.

Lemma jsMatch_fires_later (r : regex) (pre s : jsstring) :
  is_Some (matchHere r s) -> is_Some (jsMatch r (pre ++ s)).
Proof.
  intros Hs. induction pre as [|c pre IH]; simpl.
  - destruct s; simpl; destruct Hs as [m ->]; eauto.
  - destruct (matchHere r (c :: pre ++ s)); [eauto | exact IH].
Qed.

(** Every string that contains the keyword followed by a numeral makes
    [/keyword (\d+)/] fire. *)
Lemma keyword_number_fires (kw pre ds post : jsstring) :
  isNatNumeral ds = true ->
  fires (Lit kw +> Group digits)%re (pre ++ kw ++ ds ++ post) = true.
Proof.
  unfold isNatNumeral. rewrite Bool.andb_true_iff. intros [Hne Hds].
  assert (Hs : is_Some (jsMatch (Lit kw +> Group digits)%re (pre ++ kw ++ ds ++ post))).
  { apply jsMatch_fires_later. unfold matchHere. rewrite rmatch_Seq.
    cbn [rmatch]. rewrite (proj2 (stripPrefix_Some kw _ (ds ++ post)) eq_refl).
    destruct ds as [|d ds]; [discriminate Hne|].
    simpl in Hds. apply Bool.andb_true_iff in Hds as [Hd _].
    change ((d :: ds) ++ post) with (d :: (ds ++ post)).
    unfold digits. cbn [rmatch in_class]. rewrite Hd.
    apply plusLoop_total. intros s'. eauto. }
  unfold fires. destruct Hs as [m ->]. reflexivity.
Qed.

(* ===================================================================== *)
(** ** Numbers and numerals                                               *)
(* ===================================================================== *)

Lemma digit_of_mod (n : N) : isDigit (48 + n mod 10)%N = true.
Proof.
  pose proof (N.mod_upper_bound n 10 ltac:(discriminate)) as Hr.
  revert Hr. generalize (n mod 10)%N. intros r Hr.
  unit_tests. bool_arith. lia.
Qed.

Lemma natDigits_digits (fuel : nat) (n : N) (acc : jsstring) :
  forallb isDigit acc = true -> forallb isDigit (natDigits fuel n acc) = true.
Proof.
  revert n acc. induction fuel as [|fuel IH]; intros n acc Hacc; simpl.
  - rewrite digit_of_mod. exact Hacc.
  - destruct (n <? 10)%N.
    + simpl. rewrite digit_of_mod. exact Hacc.
    + apply IH. simpl. rewrite digit_of_mod. exact Hacc.
Qed.

Lemma natDigits_nonempty (fuel : nat) (n : N) (acc : jsstring) :
  natDigits fuel n acc <> [].
Proof.
  revert n acc. induction fuel as [|fuel IH]; intros n acc; simpl.
  - discriminate.
  - destruct (n <? 10)%N; [discriminate | apply IH].
Qed.

Lemma natToString_numeral (n : N) : isNatNumeral (natToString n) = true.
Proof.
  unfold isNatNumeral, natToString.
  rewrite natDigits_digits by reflexivity.
  rewrite Bool.andb_true_r, Bool.negb_true_iff, Z.eqb_neq, jslength_zero.
  apply natDigits_nonempty.
Qed.

Lemma intToString_nonneg (z : Z) : 0 <= z -> isNatNumeral (intToString z) = true.
Proof.
  intros Hz. unfold intToString.
  destruct (Z.ltb_spec z 0); [lia | apply natToString_numeral].
Qed.

Lemma digitValue_range (c : codeunit) : isDigit c = true -> 0 <= digitValue c <= 9.
Proof. unfold digitValue. unit_tests. bool_arith. lia. Qed.

Lemma parseInt_fold_nonneg (ds : jsstring) (a : Z) :
  forallb isDigit ds = true -> 0 <= a ->
  0 <= fold_left (fun acc c => 10 * acc + digitValue c) ds a.
Proof.
  revert a. induction ds as [|c ds IH]; intros a; simpl; [auto|].
  rewrite Bool.andb_true_iff. intros [Hc Hds] Ha.
  apply IH; [exact Hds|]. pose proof (digitValue_range c Hc). lia.
Qed.

Lemma parseIntDigits_nonneg (ds : jsstring) :
  isNatNumeral ds = true -> 0 <= parseIntDigits ds.
Proof.
  unfold isNatNumeral. rewrite Bool.andb_true_iff. intros [_ Hds].
  apply parseInt_fold_nonneg; [exact Hds | lia].
Qed.

(** Printing and parsing agree: [natToString] is the decimal expansion. *)
Lemma parseInt_fold_app (xs ys : jsstring) (a : Z) :
  fold_left (fun acc c => 10 * acc + digitValue c) (xs ++ ys) a =
  fold_left (fun acc c => 10 * acc + digitValue c) ys
    (fold_left (fun acc c => 10 * acc + digitValue c) xs a).
Proof. apply fold_left_app. Qed.

Lemma natDigits_acc (fuel : nat) (n : N) (acc : jsstring) :
  natDigits fuel n acc = natDigits fuel n [] ++ acc.
Proof.
  revert n acc. induction fuel as [|fuel IH]; intros n acc; simpl; [reflexivity|].
  destruct (n <? 10)%N; [reflexivity|].
  rewrite IH, (IH _ [_]), <- app_assoc. reflexivity.
Qed.

Lemma natDigits_value (fuel : nat) (n : N) :
  (n < 10 * 10 ^ N.of_nat fuel)%N ->
  parseIntDigits (natDigits fuel n []) = Z.of_N n.
Proof.
  revert n. induction fuel as [|fuel IH]; intros n Hn.
  - simpl in *. unfold parseIntDigits, digitValue. simpl.
    rewrite N.mod_small by lia. lia.
  - cbn [natDigits]. destruct (N.ltb_spec n 10) as [Hlt|Hge].
    + unfold parseIntDigits, digitValue. simpl. rewrite N.mod_small by lia. lia.
    + rewrite natDigits_acc. unfold parseIntDigits in *.
      rewrite parseInt_fold_app, IH.
      * simpl. unfold digitValue.
        pose proof (N.div_mod n 10 ltac:(discriminate)) as Hqr.
        revert Hqr. generalize (n / 10)%N, (n mod 10)%N. intros q r Hqr. lia.
      * rewrite Nat2N.inj_succ, N.pow_succ_r' in Hn.
        apply N.Div0.div_lt_upper_bound. lia.
Qed.

Lemma natToString_value (n : N) : parseIntDigits (natToString n) = Z.of_N n.
Proof.
  unfold natToString. apply natDigits_value.
  rewrite N2Nat.id. destruct n as [|p]; [reflexivity|].
  pose proof (N.log2_spec (N.pos p) ltac:(reflexivity)) as [_ Hup].
  rewrite N.pow_succ_r' in Hup.
  assert (2 ^ N.log2 (N.pos p) <= 10 ^ N.log2 (N.pos p))%N
    by (apply N.pow_le_mono_l; lia).
  lia.
Qed.

(* ===================================================================== *)
(** ** The translator                                                     *)
(* ===================================================================== *)

(** A rule that does not write the key leaves its value alone. *)
Lemma lookup_whenMatch_other (r : regex) (s : jsstring)
    (f : list jsstring -> filterSet -> filterSet) (filters : filterSet) (k : string) :
  (forall m fs, f m fs !! k = fs !! k) ->
  whenMatch r s f filters !! k = filters !! k.
Proof. intros Hf. unfold whenMatch. destruct (jsMatch r s); auto. Qed.

(** A rule that writes the key decides its value when it fires. *)
Lemma lookup_whenMatch_insert (r : regex) (s : jsstring)
    (g : list jsstring -> jsstring) (filters : filterSet) (k : string) :
  whenMatch r s (fun m => <[k := g m]>) filters !! k =
    match jsMatch r s with
    | Some m => Some (g m)
    | None => filters !! k
    end.
Proof. unfold whenMatch. destruct (jsMatch r s); [apply lookup_insert_eq | reflexivity]. Qed.

Lemma whenMatch_None (r : regex) (s : jsstring)
    (f : list jsstring -> filterSet -> filterSet) (filters : filterSet) :
  jsMatch r s = None -> whenMatch r s f filters = filters.
Proof. intros E. unfold whenMatch. rewrite E. reflexivity. Qed.

Ltac other_key := intros; apply lookup_insert_ne; discriminate.

Section TranslatorFacts.
Context {rt : JSRuntime}.

(** The value of min_length, read off the rules that write it, the
    last one first. *)
Lemma parse_min_length (query : jsstring) :
  parseNaturalLanguageQuery query !! "min_length" =
    let lowerQuery := toLowerCase query in
    match jsMatch re_between lowerQuery with
    | Some between => Some (group 1 between)
    | None =>
    match jsMatch re_moreThan lowerQuery with
    | Some moreThan => Some (offsetToString (group 1 moreThan) 1)
    | None =>
    match jsMatch re_atLeast lowerQuery with
    | Some atLeast => Some (group 1 atLeast)
    | None =>
    match jsMatch re_longer lowerQuery with
    | Some longer => Some (offsetToString (group 1 longer) 1)
    | None => None
    end end end end.
Proof.
  unfold parseNaturalLanguageQuery. cbv zeta.
  rewrite (lookup_whenMatch_other re_consonant) by other_key.
  rewrite (lookup_whenMatch_other re_vowel) by other_key.
  rewrite (lookup_whenMatch_other re_char) by other_key.
  unfold whenMatch at 1.
  destruct (jsMatch re_between (toLowerCase query)) as [between|].
  { rewrite lookup_insert_ne by discriminate. apply lookup_insert_eq. }
  rewrite (lookup_whenMatch_other re_lessThan) by other_key.
  rewrite (lookup_whenMatch_insert re_moreThan).
  destruct (jsMatch re_moreThan (toLowerCase query)); [reflexivity|].
  rewrite (lookup_whenMatch_other re_atMost) by other_key.
  rewrite (lookup_whenMatch_insert re_atLeast).
  destruct (jsMatch re_atLeast (toLowerCase query)); [reflexivity|].
  rewrite (lookup_whenMatch_other re_shorter) by other_key.
  rewrite (lookup_whenMatch_insert re_longer).
  destruct (jsMatch re_longer (toLowerCase query)); [reflexivity|].
  rewrite (lookup_whenMatch_other re_exactWords) by other_key.
  rewrite (lookup_whenMatch_other re_threeWords) by other_key.
  rewrite (lookup_whenMatch_other re_twoWords) by other_key.
  rewrite (lookup_whenMatch_other re_oneWord) by other_key.
  rewrite (lookup_whenMatch_other re_palindrome) by other_key.
  apply lookup_empty.
Qed.

Lemma parse_max_length (query : jsstring) :
  parseNaturalLanguageQuery query !! "max_length" =
    let lowerQuery := toLowerCase query in
    match jsMatch re_between lowerQuery with
    | Some between => Some (group 2 between)
    | None =>
    match jsMatch re_lessThan lowerQuery with
    | Some lessThan => Some (offsetToString (group 1 lessThan) (-1))
    | None =>
    match jsMatch re_atMost lowerQuery with
    | Some atMost => Some (group 1 atMost)
    | None =>
    match jsMatch re_shorter lowerQuery with
    | Some shorter => Some (offsetToString (group 1 shorter) (-1))
    | None => None
    end end end end.
Proof.
  unfold parseNaturalLanguageQuery. cbv zeta.
  rewrite (lookup_whenMatch_other re_consonant) by other_key.
  rewrite (lookup_whenMatch_other re_vowel) by other_key.
  rewrite (lookup_whenMatch_other re_char) by other_key.
  unfold whenMatch at 1.
  destruct (jsMatch re_between (toLowerCase query)) as [between|].
  { apply lookup_insert_eq. }
  rewrite (lookup_whenMatch_insert re_lessThan).
  destruct (jsMatch re_lessThan (toLowerCase query)); [reflexivity|].
  rewrite (lookup_whenMatch_other re_moreThan) by other_key.
  rewrite (lookup_whenMatch_insert re_atMost).
  destruct (jsMatch re_atMost (toLowerCase query)); [reflexivity|].
  rewrite (lookup_whenMatch_other re_atLeast) by other_key.
  rewrite (lookup_whenMatch_insert re_shorter).
  destruct (jsMatch re_shorter (toLowerCase query)); [reflexivity|].
  rewrite (lookup_whenMatch_other re_longer) by other_key.
  rewrite (lookup_whenMatch_other re_exactWords) by other_key.
  rewrite (lookup_whenMatch_other re_threeWords) by other_key.
  rewrite (lookup_whenMatch_other re_twoWords) by other_key.
  rewrite (lookup_whenMatch_other re_oneWord) by other_key.
  rewrite (lookup_whenMatch_other re_palindrome) by other_key.
  apply lookup_empty.
Qed.

Lemma parse_word_count (query : jsstring) :
  parseNaturalLanguageQuery query !! "word_count" =
    let lowerQuery := toLowerCase query in
    match jsMatch re_exactWords lowerQuery with
    | Some exactWords => Some (group 1 exactWords)
    | None =>
    match jsMatch re_threeWords lowerQuery with
    | Some _ => Some (js "3")
    | None =>
    match jsMatch re_twoWords lowerQuery with
    | Some _ => Some (js "2")
    | None =>
    match jsMatch re_oneWord lowerQuery with
    | Some _ => Some (js "1")
    | None => None
    end end end end.
Proof.
  unfold parseNaturalLanguageQuery. cbv zeta.
  rewrite (lookup_whenMatch_other re_consonant) by other_key.
  rewrite (lookup_whenMatch_other re_vowel) by other_key.
  rewrite (lookup_whenMatch_other re_char) by other_key.
  rewrite (lookup_whenMatch_other re_between)
    by (intros; rewrite !lookup_insert_ne by discriminate; reflexivity).
  rewrite (lookup_whenMatch_other re_lessThan) by other_key.
  rewrite (lookup_whenMatch_other re_moreThan) by other_key.
  rewrite (lookup_whenMatch_other re_atMost) by other_key.
  rewrite (lookup_whenMatch_other re_atLeast) by other_key.
  rewrite (lookup_whenMatch_other re_shorter) by other_key.
  rewrite (lookup_whenMatch_other re_longer) by other_key.
  rewrite (lookup_whenMatch_insert re_exactWords).
  destruct (jsMatch re_exactWords (toLowerCase query)); [reflexivity|].
  rewrite (lookup_whenMatch_insert re_threeWords (toLowerCase query) (fun _ => js "3")).
  destruct (jsMatch re_threeWords (toLowerCase query)); [reflexivity|].
  rewrite (lookup_whenMatch_insert re_twoWords (toLowerCase query) (fun _ => js "2")).
  destruct (jsMatch re_twoWords (toLowerCase query)); [reflexivity|].
  rewrite (lookup_whenMatch_insert re_oneWord (toLowerCase query) (fun _ => js "1")).
  destruct (jsMatch re_oneWord (toLowerCase query)); [reflexivity|].
  rewrite (lookup_whenMatch_other re_palindrome) by other_key.
  apply lookup_empty.
Qed.

Lemma offsetToString_safe (ds : jsstring) (k : Z) :
  parseIntDigits ds <= MAX_SAFE_INTEGER ->
  offsetToString ds k = intToString (parseIntDigits ds + k).
Proof.
  intros Hs. unfold offsetToString.
  destruct (Z.leb_spec (parseIntDigits ds) MAX_SAFE_INTEGER); [reflexivity | lia].
Qed.

Lemma offsetToString_succ (ds : jsstring) :
  isNatNumeral ds = true -> parseIntDigits ds <= MAX_SAFE_INTEGER ->
  isNatNumeral (offsetToString ds 1) = true.
Proof.
  intros Hds Hs. rewrite offsetToString_safe by exact Hs.
  apply intToString_nonneg. pose proof (parseIntDigits_nonneg ds Hds). lia.
Qed.

Lemma offsetToString_pred (ds : jsstring) :
  isNatNumeral ds = true -> parseIntDigits ds <= MAX_SAFE_INTEGER ->
  isNatNumeral (offsetToString ds (-1)) = true \/
  (offsetToString ds (-1) = js "-1" /\ parseIntDigits ds = 0).
Proof.
  intros Hds Hs. rewrite offsetToString_safe by exact Hs.
  pose proof (parseIntDigits_nonneg ds Hds) as Hn.
  destruct (Z.eq_dec (parseIntDigits ds) 0) as [E|E].
  - right. rewrite E. split; reflexivity.
  - left. apply intToString_nonneg. lia.
Qed.

(** C4, amended: "longer than" and "shorter than" are evaluated before
    the inclusive rules, "more than" and "less than" after them. In a
    query without "between A and B": with "at least M", min_length is
    N+1 if "more than N" is there too (the later rule overwrites the
    inclusive one) and M if it is not, whether or not "longer than" is
    there; with "at most M", max_length is N-1 if "less than N" is there
    too and M if it is not. *)
Theorem translator_length_rule_order (query : jsstring) :
  jsMatch re_between (toLowerCase query) = None ->
  (forall atLeast,
     jsMatch re_atLeast (toLowerCase query) = Some atLeast ->
     (forall moreThan,
        jsMatch re_moreThan (toLowerCase query) = Some moreThan ->
        parseNaturalLanguageQuery query !! "min_length"
          = Some (offsetToString (group 1 moreThan) 1) /\
        (parseIntDigits (group 1 moreThan) <= MAX_SAFE_INTEGER ->
         parseNaturalLanguageQuery query !! "min_length"
           = Some (intToString (parseIntDigits (group 1 moreThan) + 1)))) /\
     (jsMatch re_moreThan (toLowerCase query) = None ->
      parseNaturalLanguageQuery query !! "min_length" = Some (group 1 atLeast))) /\
  (forall atMost,
     jsMatch re_atMost (toLowerCase query) = Some atMost ->
     (forall lessThan,
        jsMatch re_lessThan (toLowerCase query) = Some lessThan ->
        parseNaturalLanguageQuery query !! "max_length"
          = Some (offsetToString (group 1 lessThan) (-1)) /\
        (parseIntDigits (group 1 lessThan) <= MAX_SAFE_INTEGER ->
         parseNaturalLanguageQuery query !! "max_length"
           = Some (intToString (parseIntDigits (group 1 lessThan) - 1)))) /\
     (jsMatch re_lessThan (toLowerCase query) = None ->
      parseNaturalLanguageQuery query !! "max_length" = Some (group 1 atMost))).
Proof.
  intros Hbt. split.
  - intros atLeast Hal. rewrite parse_min_length. cbv zeta. rewrite Hbt, Hal. split.
    + intros moreThan ->. split; [reflexivity|].
      intros Hs. rewrite offsetToString_safe by exact Hs. reflexivity.
    + intros ->. reflexivity.
  - intros atMost Ham. rewrite parse_max_length. cbv zeta. rewrite Hbt, Ham. split.
    + intros lessThan ->. split; [reflexivity|].
      intros Hs. rewrite offsetToString_safe by exact Hs. reflexivity.
    + intros ->. reflexivity.
Qed.

(** C5, amended: when the numerals after "longer than", "shorter than",
    "more than" and "less than" are integers a double holds exactly,
    min_length, when present, is a decimal numeral of a natural number,
    and max_length, when present, is one too or is "-1"; it is "-1" only
    by "shorter than 0" or "less than 0". *)
Theorem translator_length_values (query : jsstring) :
  safeNumerals (toLowerCase query) ->
  (forall v, parseNaturalLanguageQuery query !! "min_length" = Some v ->
             isNatNumeral v = true) /\
  (forall v, parseNaturalLanguageQuery query !! "max_length" = Some v ->
             isNatNumeral v = true \/
             (v = js "-1" /\
              exists r m, (r = re_shorter \/ r = re_lessThan) /\
                          jsMatch r (toLowerCase query) = Some m /\
                          parseIntDigits (group 1 m) = 0)).
Proof.
  intros Hsafe. split; intros v.
  - rewrite parse_min_length. cbv zeta.
    destruct (jsMatch re_between (toLowerCase query)) as [m|] eqn:Ebt.
    { apply between_inv in Ebt as (? & lo & hi & ? & _ & -> & Hlo & _).
      intros [= <-]. exact Hlo. }
    destruct (jsMatch re_moreThan (toLowerCase query)) as [m|] eqn:Emt.
    { pose proof (Hsafe re_moreThan m ltac:(simpl; auto) Emt) as Hs.
      apply keyword_number_inv in Emt as (? & ds & ? & _ & -> & Hds).
      intros [= <-]. apply offsetToString_succ; assumption. }
    destruct (jsMatch re_atLeast (toLowerCase query)) as [m|] eqn:Eal.
    { apply keyword_number_inv in Eal as (? & ds & ? & _ & -> & Hds).
      intros [= <-]. exact Hds. }
    destruct (jsMatch re_longer (toLowerCase query)) as [m|] eqn:Elg; [|discriminate].
    pose proof (Hsafe re_longer m ltac:(simpl; auto) Elg) as Hs.
    apply keyword_number_inv in Elg as (? & ds & ? & _ & -> & Hds).
    intros [= <-]. apply offsetToString_succ; assumption.
  - rewrite parse_max_length. cbv zeta.
    destruct (jsMatch re_between (toLowerCase query)) as [m|] eqn:Ebt.
    { apply between_inv in Ebt as (? & lo & hi & ? & _ & -> & _ & Hhi).
      intros [= <-]. left. exact Hhi. }
    destruct (jsMatch re_lessThan (toLowerCase query)) as [m|] eqn:Elt.
    { pose proof (Hsafe re_lessThan m ltac:(simpl; auto) Elt) as Hs.
      pose proof Elt as Hm.
      apply keyword_number_inv in Elt as (? & ds & ? & _ & -> & Hds).
      intros [= <-].
      destruct (offsetToString_pred ds Hds Hs) as [Hn|[Hv Hz]]; [left; exact Hn|].
      right. split; [exact Hv|]. exists re_lessThan, [ds]. auto. }
    destruct (jsMatch re_atMost (toLowerCase query)) as [m|] eqn:Eam.
    { apply keyword_number_inv in Eam as (? & ds & ? & _ & -> & Hds).
      intros [= <-]. left. exact Hds. }
    destruct (jsMatch re_shorter (toLowerCase query)) as [m|] eqn:Esh; [|discriminate].
    pose proof (Hsafe re_shorter m ltac:(simpl; auto) Esh) as Hs.
    pose proof Esh as Hm.
    apply keyword_number_inv in Esh as (? & ds & ? & _ & -> & Hds).
    intros [= <-].
    destruct (offsetToString_pred ds Hds Hs) as [Hn|[Hv Hz]]; [left; exact Hn|].
    right. split; [exact Hv|]. exists re_shorter, [ds]. auto.
Qed.

(** C7: the numeric word-count rule is evaluated after the phrased
    ones and decides word_count whenever it fires; on
    "single word, 3 words" the phrased rule fires too and the result is
    {word_count: "3"}. *)
Theorem translator_numeric_word_count :
  (forall query exactWords,
     jsMatch re_exactWords (toLowerCase query) = Some exactWords ->
     parseNaturalLanguageQuery query !! "word_count" = Some (group 1 exactWords)) /\
  fires re_oneWord (toLowerCase (js "single word, 3 words")) = true /\
  fires re_exactWords (toLowerCase (js "single word, 3 words")) = true /\
  parseNaturalLanguageQuery (js "single word, 3 words") = {[ "word_count" := js "3" ]}.
Proof.
  split; [|split; [|split]].
  - intros query exactWords Hm. rewrite parse_word_count. cbv zeta.
    rewrite Hm. reflexivity.
  - vm_compute. reflexivity.
  - vm_compute. reflexivity.
  - vm_compute. reflexivity.
Qed.

Lemma noRuleFires_None (s : jsstring) (r : regex) :
  noRuleFires s = true -> In r allRules -> jsMatch r s = None.
Proof.
  unfold noRuleFires. rewrite forallb_forall. intros Hall Hin.
  specialize (Hall r Hin). unfold fires in Hall.
  destruct (jsMatch r s); [discriminate | reflexivity].
Qed.

Lemma parse_no_match (query : jsstring) :
  noRuleFires (toLowerCase query) = true -> parseNaturalLanguageQuery query = ∅.
Proof.
  intros Hno. unfold parseNaturalLanguageQuery. cbv zeta.
  rewrite !whenMatch_None by (apply noRuleFires_None; [exact Hno | simpl; auto 20]).
  reflexivity.
Qed.

Lemma whenMatch_empty (r : regex) (s : jsstring)
    (f : list jsstring -> filterSet -> filterSet) (filters : filterSet) :
  (forall m fs, f m fs <> ∅) ->
  whenMatch r s f filters = ∅ -> jsMatch r s = None /\ filters = ∅.
Proof.
  intros Hf. unfold whenMatch. destruct (jsMatch r s) as [m|]; [|auto].
  intros E. destruct (Hf m filters E).
Qed.

(** The filter set is empty only when no rule fires. *)
Lemma parse_empty_iff (query : jsstring) :
  parseNaturalLanguageQuery query = ∅ <-> noRuleFires (toLowerCase query) = true.
Proof.
  split; [|apply parse_no_match].
  unfold parseNaturalLanguageQuery. cbv zeta. intros Hempty.
  repeat (apply whenMatch_empty in Hempty as [? Hempty];
          [|intros; apply insert_non_empty]).
  unfold noRuleFires, allRules, fires. cbn [forallb].
  repeat match goal with
  | E : jsMatch _ _ = None |- _ => rewrite E; clear E
  end.
  reflexivity.
Qed.

(** When no rule of the translator fires the filter set is empty, and
    the chain of [filterByNaturalLanguage], called with such a query,
    throws a ValidationError without a single call of the store, the one
    that reports the query as unparsable when the validator let the query
    through; a call that gets as far as the store carries a filter set
    that is not empty. "banana" is such a query. *)
Lemma filterByNaturalLanguageChain_no_match :
  (forall query,
     noRuleFires (toLowerCase query) = true ->
     parseNaturalLanguageQuery query = ∅ /\
     (validateNaturalLanguageQuery (JString query) = None ->
      filterByNaturalLanguageChain (JString query)
        = Throw (ValidationError (js "Unable to parse natural language query"))) /\
     forall (selectStrings : filterSet -> table -> list Row.t) (tbl : table),
       exists message,
         run selectStrings (filterByNaturalLanguageChain (JString query)) tbl
           = (Failed (ValidationError message), tbl, [])) /\
  (forall query filters k,
     filterByNaturalLanguageChain query = FindAll filters k -> filters <> ∅) /\
  noRuleFires (toLowerCase (js "banana")) = true /\
  filterByNaturalLanguageChain (JString (js "banana"))
    = Throw (ValidationError (js "Unable to parse natural language query")).
Proof.
  split; [|split; [|split]].
  - intros query Hno. pose proof (parse_no_match query Hno) as Hempty.
    split; [exact Hempty|]. split.
    { unfold filterByNaturalLanguageChain. intros Hv. rewrite Hv.
      unfold validateNaturalLanguageQuery in Hv.
      destruct (negb (truthy (JString query))) eqn:Et; [discriminate Hv|].
      unfold filterByNaturalLanguage. rewrite Et, Hempty. reflexivity. }
    intros selectStrings tbl.
    unfold filterByNaturalLanguageChain, validateNaturalLanguageQuery.
    destruct (negb (truthy (JString query))) eqn:Et; [eexists; reflexivity|].
    destruct (jslength (trim query) =? 0); [eexists; reflexivity|].
    destruct (jslength query >? 500); [eexists; reflexivity|].
    unfold filterByNaturalLanguage. rewrite Et, Hempty. eexists. reflexivity.
  - intros query filters k.
    unfold filterByNaturalLanguageChain.
    destruct (validateNaturalLanguageQuery query); [discriminate|].
    unfold filterByNaturalLanguage.
    destruct (negb (truthy query)); [discriminate|].
    destruct query; try discriminate.
    destruct (Z.of_nat (size (parseNaturalLanguageQuery s)) =? 0) eqn:Es; [discriminate|].
    intros [= <- _] Hempty. rewrite Hempty in Es. discriminate Es.
  - vm_compute. reflexivity.
  - unfold filterByNaturalLanguageChain, filterByNaturalLanguage.
    cbn [validateNaturalLanguageQuery].
    replace (parseNaturalLanguageQuery (js "banana")) with (∅ : filterSet).
    + vm_compute. reflexivity.
    + symmetry. apply parse_no_match. vm_compute. reflexivity.
Qed.
End TranslatorFacts.

(* ===================================================================== *)
(** ** The handlers                                                       *)
(* ===================================================================== *)

Section HandlerFacts.
Context {rt : JSRuntime}.

Lemma validateStringInput_None (value : jsvalue) :
  validateStringInput value = None <->
  exists s, value = JString s /\ 1 <= jslength (trim s) /\ jslength s <= 10000.
Proof.
  split.
  - destruct value as [| | | |s| |]; simpl; try discriminate.
    destruct (Z.eqb_spec (jslength (trim s)) 0) as [E|E]; [discriminate|].
    destruct (Z.gtb_spec (jslength s) 10000) as [E2|E2]; [discriminate|].
    intros _. exists s. pose proof (jslength_nonneg (trim s)). repeat split; lia.
  - intros (s & -> & H1 & H2). simpl.
    destruct (Z.eqb_spec (jslength (trim s)) 0) as [E|E]; [lia|].
    destruct (Z.gtb_spec (jslength s) 10000) as [E2|E2]; [lia | reflexivity].
Qed.

Lemma validateStringInput_Some (value : jsvalue) (e : AppError) :
  validateStringInput value = Some e -> exists message, e = ValidationError message.
Proof.
  destruct value as [| | | |s| |]; simpl; try (intros [= <-]; eexists; reflexivity).
  destruct (jslength (trim s) =? 0); [intros [= <-]; eexists; reflexivity|].
  destruct (jslength s >? 10000); [intros [= <-]; eexists; reflexivity | discriminate].
Qed.

Lemma createString_nonempty (s : jsstring) :
  s <> [] -> passesValidation (createString (JString s)) = true.
Proof.
  intros Hs. unfold createString. cbn [truthy].
  destruct (Z.eqb_spec (jslength s) 0) as [E|E]; [|reflexivity].
  apply jslength_zero in E. contradiction.
Qed.

(** C6, amended: the create endpoint lets a body value through to the
    existence check and the analysis exactly when it is a string whose
    trimmed length is at least 1 and whose length before trimming is at
    most 10000; the trimmed length is then between 1 and 10000. Every
    other value (missing, not a string, empty after trimming, longer than
    10000 before trimming) ends in a ValidationError thrown before the
    store or the analyzer is reached. *)
Theorem postStrings_validation (value : jsvalue) :
  (passesValidation (postStrings value) = true <->
   exists s, value = JString s /\ 1 <= jslength (trim s) /\ jslength s <= 10000) /\
  (passesValidation (postStrings value) = true ->
   exists s, value = JString s /\ 1 <= jslength (trim s) <= 10000) /\
  (passesValidation (postStrings value) = false ->
   exists message, postStrings value = Throw (ValidationError message)).
Proof.
  assert (Hiff : passesValidation (postStrings value) = true <->
                 validateStringInput value = None).
  { unfold postStrings. destruct (validateStringInput value) as [e|] eqn:Ev.
    - simpl. split; discriminate.
    - split; [reflexivity|]. intros _.
      apply validateStringInput_None in Ev as (s & -> & H1 & _).
      apply createString_nonempty. intros ->.
      change (jslength (trim [])) with 0 in H1. lia. }
  split; [|split].
  - rewrite Hiff. apply validateStringInput_None.
  - rewrite Hiff, validateStringInput_None. intros (s & -> & H1 & H2).
    exists s. pose proof (trim_length s). repeat split; lia.
  - intros Hrej.
    assert (Hnone : validateStringInput value <> None)
      by (intros E; apply Hiff in E; congruence).
    clear Hiff. destruct (validateStringInput value) as [e|] eqn:Ev; [|congruence].
    unfold postStrings. rewrite Ev.
    apply validateStringInput_Some in Ev as [message ->]. eauto.
Qed.

Lemma existingStringByValue_true (value : jsstring) (tbl : table) :
  existingStringByValue value tbl = true <-> is_Some (tbl !! sha256_hex value).
Proof. unfold existingStringByValue. apply bool_decide_eq_true. Qed.

Lemma storeInv_oneRecordPerValue (tbl : table) :
  storeInv tbl -> oneRecordPerValue tbl.
Proof.
  intros Hinv id1 id2 row1 row2 H1 H2 Hv.
  destruct (Hinv _ _ H1) as [_ ->]. destruct (Hinv _ _ H2) as [_ ->].
  rewrite Hv. reflexivity.
Qed.

Lemma storeInv_insert (tbl : table) (row : Row.t) :
  storeInv tbl -> Row.id row = sha256_hex (Row.value row) ->
  storeInv (<[Row.id row := row]> tbl).
Proof.
  intros Hinv Hid id row'. destruct (decide (Row.id row = id)) as [<-|Hne].
  - rewrite lookup_insert_eq. intros [= <-]. split; [reflexivity | exact Hid].
  - rewrite lookup_insert_ne by exact Hne. apply Hinv.
Qed.

Lemma createString_storeInv (selectStrings : filterSet -> table -> list Row.t)
    (value : jsvalue) (tbl : table) :
  storeInv tbl ->
  storeInv (snd (fst (run selectStrings (createString value) tbl))).
Proof.
  intros Hinv. destruct value as [| | | |s| |]; try exact Hinv.
  unfold createString. destruct (negb (truthy (JString s))); [exact Hinv|].
  cbn [run]. destruct (existingStringByValue (trim s) tbl); [exact Hinv|].
  cbn [run Row.id].
  destruct (tbl !! Props.sha256_hash (analyzeString (trim s))); [exact Hinv|].
  cbn [run fst snd]. apply (storeInv_insert tbl (Row.mk _ _ _ _ _ _ _)); [exact Hinv|].
  cbn [Row.id Row.value]. unfold analyzeString. cbn [Props.sha256_hash].
  rewrite trim_idempotent. reflexivity.
Qed.

Lemma createString_duplicate (selectStrings : filterSet -> table -> list Row.t)
    (tbl : table) (s : jsstring) :
  s <> [] ->
  existingStringByValue (trim s) tbl = true ->
  exists message,
    run selectStrings (createString (JString s)) tbl
      = (Failed (ConflictError message), tbl, [EvSelectId (sha256_hex (trim s))]) /\
    statusCode (ConflictError message) = 409.
Proof.
  intros Hs Hex. pose proof (createString_nonempty s Hs) as Hp.
  unfold createString in *. destruct (negb (truthy (JString s))); [discriminate|].
  cbn [run]. rewrite Hex. cbn [run]. eexists. split; reflexivity.
Qed.

(** C9: for a non-empty string whose trimmed form passes the existence
    check by hash, createString throws a ConflictError (status 409), the
    table is the one before and the only statement sent to the database
    is the existence check; and whatever the request, a table in which
    every row is keyed by the hash of its value stays so and holds at
    most one row for a value. *)
Theorem createString_conflict :
  (forall (selectStrings : filterSet -> table -> list Row.t) (tbl : table) (s : jsstring),
     s <> [] ->
     existingStringByValue (trim s) tbl = true ->
     exists message,
       run selectStrings (createString (JString s)) tbl
         = (Failed (ConflictError message), tbl, [EvSelectId (sha256_hex (trim s))]) /\
       statusCode (ConflictError message) = 409) /\
  (forall (selectStrings : filterSet -> table -> list Row.t) (tbl : table)
          (value : jsvalue),
     storeInv tbl ->
     storeInv (snd (fst (run selectStrings (createString value) tbl))) /\
     oneRecordPerValue (snd (fst (run selectStrings (createString value) tbl)))).
Proof.
  split.
  - exact createString_duplicate.
  - intros selectStrings tbl value Hinv.
    pose proof (createString_storeInv selectStrings value tbl Hinv) as Hinv'.
    split; [exact Hinv' | apply storeInv_oneRecordPerValue, Hinv'].
Qed.

(** The same on the route: a body that the validator lets through is
    not empty. *)
Lemma postStrings_conflict (selectStrings : filterSet -> table -> list Row.t)
    (tbl : table) (s : jsstring) :
  validateStringInput (JString s) = None ->
  existingStringByValue (trim s) tbl = true ->
  exists message,
    run selectStrings (postStrings (JString s)) tbl
      = (Failed (ConflictError message), tbl, [EvSelectId (sha256_hex (trim s))]).
Proof.
  intros Hv Hex. unfold postStrings. rewrite Hv.
  apply validateStringInput_None in Hv as (s' & [= <-] & H1 & _).
  assert (Hne : s <> []) by (intros ->; change (jslength (trim [])) with 0 in H1; lia).
  destruct (createString_duplicate selectStrings tbl s Hne Hex) as (m & Hrun & _).
  eauto.
Qed.
End HandlerFacts.

(* ===================================================================== *)
(** ** The examples of the documentation                                  *)
(* ===================================================================== *)

Section Examples.
Context {rt : JSRuntime}.

(** "madam": length 5, palindrome, 3 unique characters, 1 word,
    {m: 2, a: 2, d: 1}. *)
Example analyzeString_madam :
  let properties := analyzeString (js "madam") in
  Props.length properties = 5 /\
  Props.is_palindrome properties = true /\
  Props.unique_characters properties = 3 /\
  Props.word_count properties = 1 /\
  Props.character_frequency_map properties
    = {[ js "m" := 2; js "a" := 2; js "d" := 1 ]}.
Proof. vm_compute. repeat split; reflexivity. Qed.

Example analyzeString_word_count :
  Props.word_count (analyzeString (js "")) = 0 /\
  Props.word_count (analyzeString (js "  a   b  ")) = 2.
Proof. vm_compute. split; reflexivity. Qed.

Example translate_accumulates :
  parseNaturalLanguageQuery (js "palindrome with letter a")
    = {[ "is_palindrome" := js "true"; "contains_character" := js "a" ]}.
Proof. vm_compute. reflexivity. Qed.

Example translate_range :
  parseNaturalLanguageQuery (js "between 5 and 10")
    = {[ "min_length" := js "5"; "max_length" := js "10" ]}.
Proof. vm_compute. reflexivity. Qed.

Example translate_vowel_proxy :
  parseNaturalLanguageQuery (js "Strings having a vowel")
    = {[ "contains_character" := js "a" ]}.
Proof. vm_compute. reflexivity. Qed.
End Examples.

(** The id the README shows for "hello world". *)
Example refSha256Hex_hello_world :
  refSha256Hex (js "hello world")
    = js "b94d27b9934d3e08a52e52d7da7dabfac484efe37a5380ee9088f7ace2efcde9".
Proof. vm_compute. reflexivity. Qed.

(* ===================================================================== *)
(** ** Concrete runs on the reference runtime                             *)
(* ===================================================================== *)

Lemma analyzeString_is_palindrome_witness :
  cleaned (rt := RefRuntime) (js "Was it a car") <> [] /\
  Props.is_palindrome (analyzeString (rt := RefRuntime) (js "Was it a car")) = false.
Proof.
  split; [vm_compute; discriminate|].
  destruct (Props.is_palindrome (analyzeString (rt := RefRuntime) (js "Was it a car")))
    eqn:E; [|reflexivity].
  apply (proj1 (analyzeString_is_palindrome (rt := RefRuntime))) in E as [_ E].
  vm_compute in E. discriminate E.
Defined.

Lemma analyzeString_depends_on_trim_witness :
  trim (js " madam ") = trim (js "madam") /\
  analyzeString (rt := RefRuntime) (js " madam ") = analyzeString (rt := RefRuntime) (js "madam").
Proof.
  split; [reflexivity|].
  apply (proj1 (proj2 (analyzeString_depends_on_trim (rt := RefRuntime)))). reflexivity.
Defined.

Lemma character_frequency_map_counts_witness :
  In (js "l") (loweredChars (rt := RefRuntime) (js "Hello World")) /\
  Props.character_frequency_map (analyzeString (rt := RefRuntime) (js "Hello World"))
    !! js "l" = Some 3.
Proof.
  split; [vm_compute; tauto|].
  destruct (proj1 (character_frequency_map_counts (rt := RefRuntime)) (js "Hello World"))
    as (_ & Hcount & _).
  rewrite (Hcount (js "l")); [reflexivity | discriminate | vm_compute; tauto].
Defined.

(** C10 as stated fails on a string with unpaired surrogates: in
    U+D83D SPACE U+DE00 the plain space is the only white space, the
    loop sees two characters besides it, and with the space removed the
    two surrogates pair up into one. *)
Lemma unique_characters_keys_counterexample :
  ~ (forall (rt : JSRuntime) (s : jsstring),
       onlyPlainSpaces (trim s) ->
       Props.unique_characters (analyzeString s) = keyCount s).
Proof.
  intros Hclaim.
  specialize (Hclaim RefRuntime [55357; 32; 56832]%N).
  assert (Hplain : onlyPlainSpaces (trim [55357; 32; 56832]%N)).
  { intros c. vm_compute. intros [<-|[<-|[<-|[]]]]; intros E; congruence. }
  specialize (Hclaim Hplain). vm_compute in Hclaim. discriminate Hclaim.
Qed.

Lemma unique_characters_and_keys_witness :
  isWellFormed (trim (js "a" ++ [9%N] ++ js "b")) = true /\
  is_Some (Props.character_frequency_map
             (analyzeString (rt := RefRuntime) (js "a" ++ [9%N] ++ js "b")) !! [9%N]) /\
  Props.unique_characters (analyzeString (rt := RefRuntime) (js "a" ++ [9%N] ++ js "b"))
    < keyCount (rt := RefRuntime) (js "a" ++ [9%N] ++ js "b").
Proof.
  split; [reflexivity|].
  pose proof (unique_characters_and_keys (rt := RefRuntime) (rt_ok := RefRuntime_ok)
                (js "a" ++ [9%N] ++ js "b") eq_refl) as [_ Hws].
  destruct (Hws 9%N) as (Hkey & _ & Hlt).
  - right. left. reflexivity.
  - reflexivity.
  - discriminate.
  - split; [exact Hkey | exact Hlt].
Defined.

(** C4 as stated fails: "more than" is evaluated after "at least". *)
Lemma translator_length_rule_order_counterexample :
  ~ (forall (rt : JSRuntime) (query : jsstring) (moreThan atLeast : list jsstring),
       jsMatch re_moreThan (toLowerCase query) = Some moreThan ->
       jsMatch re_atLeast (toLowerCase query) = Some atLeast ->
       parseNaturalLanguageQuery query !! "min_length" = Some (group 1 atLeast)).
Proof.
  intros Hclaim.
  specialize (Hclaim RefRuntime (js "more than 5 and at least 3") [js "5"] [js "3"]).
  assert (Hmin : parseNaturalLanguageQuery (rt := RefRuntime)
                   (js "more than 5 and at least 3") !! "min_length" = Some (js "6"))
    by (vm_compute; reflexivity).
  rewrite Hmin in Hclaim.
  specialize (Hclaim ltac:(vm_compute; reflexivity) ltac:(vm_compute; reflexivity)).
  vm_compute in Hclaim. discriminate Hclaim.
Qed.

Lemma translator_length_rule_order_witness :
  jsMatch re_between (toLowerCase (rt := RefRuntime) (js "more than 5 and at least 3"))
    = None /\
  jsMatch re_atLeast (toLowerCase (rt := RefRuntime) (js "more than 5 and at least 3"))
    = Some [js "3"] /\
  jsMatch re_moreThan (toLowerCase (rt := RefRuntime) (js "more than 5 and at least 3"))
    = Some [js "5"] /\
  parseNaturalLanguageQuery (rt := RefRuntime) (js "more than 5 and at least 3")
    !! "min_length" = Some (js "6").
Proof.
  assert (Hbt : jsMatch re_between
                  (toLowerCase (rt := RefRuntime) (js "more than 5 and at least 3"))
                = None) by (vm_compute; reflexivity).
  assert (Hal : jsMatch re_atLeast
                  (toLowerCase (rt := RefRuntime) (js "more than 5 and at least 3"))
                = Some [js "3"]) by (vm_compute; reflexivity).
  assert (Hmt : jsMatch re_moreThan
                  (toLowerCase (rt := RefRuntime) (js "more than 5 and at least 3"))
                = Some [js "5"]) by (vm_compute; reflexivity).
  split; [exact Hbt|]. split; [exact Hal|]. split; [exact Hmt|].
  destruct (translator_length_rule_order (rt := RefRuntime) _ Hbt) as [Hmin _].
  destruct (Hmin _ Hal) as [Hmore _].
  destruct (Hmore _ Hmt) as [_ Hexact].
  rewrite Hexact; [reflexivity | vm_compute; discriminate].
Defined.

(** C5 as stated fails: "shorter than 0" gives max_length "-1". *)
Lemma translator_length_values_counterexample :
  ~ (forall (rt : JSRuntime) (query v : jsstring),
       (parseNaturalLanguageQuery query !! "min_length" = Some v ->
        isNatNumeral v = true) /\
       (parseNaturalLanguageQuery query !! "max_length" = Some v ->
        isNatNumeral v = true)).
Proof.
  intros Hclaim.
  destruct (Hclaim RefRuntime (js "shorter than 0") (js "-1")) as [_ Hmax].
  specialize (Hmax ltac:(vm_compute; reflexivity)).
  vm_compute in Hmax. discriminate Hmax.
Qed.

Lemma safeNumerals_shorter_than_0 :
  safeNumerals (toLowerCase (rt := RefRuntime) (js "shorter than 0")).
Proof.
  intros r m [<-|[<-|[<-|[<-|[]]]]] Hm; vm_compute in Hm;
    first [discriminate Hm | injection Hm as <-; vm_compute; discriminate].
Defined.

Lemma translator_length_values_witness :
  safeNumerals (toLowerCase (rt := RefRuntime) (js "shorter than 0")) /\
  parseNaturalLanguageQuery (rt := RefRuntime) (js "shorter than 0") !! "max_length"
    = Some (js "-1") /\
  exists r m, (r = re_shorter \/ r = re_lessThan) /\
              jsMatch r (toLowerCase (rt := RefRuntime) (js "shorter than 0")) = Some m /\
              parseIntDigits (group 1 m) = 0.
Proof.
  split; [exact safeNumerals_shorter_than_0|].
  assert (Hmax : parseNaturalLanguageQuery (rt := RefRuntime) (js "shorter than 0")
                   !! "max_length" = Some (js "-1")) by (vm_compute; reflexivity).
  split; [exact Hmax|].
  destruct (proj2 (translator_length_values (rt := RefRuntime) (js "shorter than 0")
                     safeNumerals_shorter_than_0) (js "-1") Hmax) as [Hnum|[_ Hex]].
  - vm_compute in Hnum. discriminate Hnum.
  - exact Hex.
Defined.

Lemma translator_numeric_word_count_witness :
  jsMatch re_exactWords (toLowerCase (rt := RefRuntime) (js "One word or 12 WORDS"))
    = Some [js "12"] /\
  parseNaturalLanguageQuery (rt := RefRuntime) (js "One word or 12 WORDS") !! "word_count"
    = Some (js "12").
Proof.
  assert (Hm : jsMatch re_exactWords
                 (toLowerCase (rt := RefRuntime) (js "One word or 12 WORDS"))
               = Some [js "12"]) by (vm_compute; reflexivity).
  split; [exact Hm|].
  exact (proj1 (translator_numeric_word_count (rt := RefRuntime)) _ _ Hm).
Defined.

(** C6 as stated fails: "a" followed by 10000 spaces has trimmed length
    1 and is turned away, because the length limit is tested on the
    string as sent. *)
Lemma postStrings_validation_counterexample :
  ~ (forall (rt : JSRuntime) (value : jsvalue),
       passesValidation (postStrings value) = true <->
       exists s, value = JString s /\ 1 <= jslength (trim s) <= 10000).
Proof.
  intros Hclaim.
  destruct (Hclaim RefRuntime (JString (js "a" ++ repeat SPACE (N.to_nat 10000))))
    as [_ Hpass].
  assert (Htrim : jslength (trim (js "a" ++ repeat SPACE (N.to_nat 10000))) = 1)
    by (vm_compute; reflexivity).
  assert (Hrej : passesValidation
                   (postStrings (rt := RefRuntime)
                      (JString (js "a" ++ repeat SPACE (N.to_nat 10000)))) = false)
    by (vm_compute; reflexivity).
  rewrite Hrej in Hpass. discriminate Hpass.
  eexists. split; [reflexivity|]. rewrite Htrim. lia.
Qed.

Lemma postStrings_validation_witness :
  passesValidation (postStrings (rt := RefRuntime) (JString (js " madam "))) = true /\
  passesValidation (postStrings (rt := RefRuntime) (JString (js "   "))) = false /\
  exists message,
    postStrings (rt := RefRuntime) (JString (js "   ")) = Throw (ValidationError message).
Proof.
  split; [|split].
  - apply (proj1 (postStrings_validation (rt := RefRuntime) (JString (js " madam ")))).
    exists (js " madam "). split; [reflexivity|]. split; vm_compute; discriminate.
  - reflexivity.
  - apply (proj2 (proj2 (postStrings_validation (rt := RefRuntime) (JString (js "   "))))).
    reflexivity.
Defined.

Lemma createString_conflict_witness :
  js " madam " <> [] /\
  existingStringByValue (rt := RefRuntime) (trim (js " madam ")) madamTable = true /\
  exists message,
    run (rt := RefRuntime) (fun _ _ => []) (createString (rt := RefRuntime) (JString (js " madam ")))
        madamTable
      = (Failed (ConflictError message), madamTable,
         [EvSelectId (sha256_hex (JSRuntime := RefRuntime) (trim (js " madam ")))]) /\
    statusCode (ConflictError message) = 409.
Proof.
  assert (Hne : js " madam " <> []) by discriminate.
  assert (Hex : existingStringByValue (rt := RefRuntime) (trim (js " madam ")) madamTable
                = true) by (vm_compute; reflexivity).
  split; [exact Hne|]. split; [exact Hex|].
  exact (proj1 (createString_conflict (rt := RefRuntime)) (fun _ _ => []) madamTable
               (js " madam ") Hne Hex).
Defined.

(* ===================================================================== *)
(** ** Further properties: the analyzer                                   *)
(* ===================================================================== *)

Lemma forallb_rev_eq {A} (p : A -> bool) (l : list A) :
  forallb p (rev l) = forallb p l.
Proof.
  induction l as [|a l IH]; simpl; [reflexivity|].
  rewrite forallb_app, IH. simpl. rewrite Bool.andb_true_r. apply Bool.andb_comm.
Qed.

Lemma trimStart_split (s : jsstring) :
  exists w, s = w ++ trimStart s /\ forallb isWhiteSpace w = true.
Proof.
  induction s as [|c s (w & Hs & Hw)]; simpl.
  - exists []. auto.
  - destruct (isWhiteSpace c) eqn:E.
    + exists (c :: w). simpl. rewrite E, Hw. split; [f_equal; exact Hs | reflexivity].
    + exists []. auto.
Qed.

Lemma trimEnd_split (s : jsstring) :
  exists w, s = trimEnd s ++ w /\ forallb isWhiteSpace w = true.
Proof.
  destruct (trimStart_split (rev s)) as (w & Hs & Hw).
  exists (rev w). unfold trimEnd. split.
  - rewrite <- rev_app_distr, <- Hs, rev_involutive. reflexivity.
  - rewrite forallb_rev_eq. exact Hw.
Qed.

(** [trim] takes white space off both ends and nothing else. *)
Lemma trim_split (s : jsstring) :
  exists pre post,
    s = pre ++ trim s ++ post /\
    forallb isWhiteSpace pre = true /\ forallb isWhiteSpace post = true.
Proof.
  destruct (trimStart_split s) as (pre & Hs & Hpre).
  destruct (trimEnd_split (trimStart s)) as (post & Ht & Hpost).
  exists pre, post. unfold trim. rewrite <- Ht. auto.
Qed.

Lemma trimStart_nil_iff (s : jsstring) :
  trimStart s = [] <-> forallb isWhiteSpace s = true.
Proof.
  induction s as [|c s IH]; simpl; [tauto|].
  destruct (isWhiteSpace c); simpl; [exact IH | split; discriminate].
Qed.

Lemma trim_nil_iff (s : jsstring) :
  trim s = [] <-> forallb isWhiteSpace s = true.
Proof.
  rewrite <- trimStart_nil_iff. unfold trim, trimEnd. split.
  - intros E. apply (f_equal (@rev N)) in E. rewrite rev_involutive in E. simpl in E.
    apply trimStart_nil_iff in E. rewrite forallb_rev_eq in E.
    pose proof (trimStart_noLeadingWs s) as Hn.
    destruct (trimStart s) as [|c u]; [reflexivity|].
    simpl in E, Hn. rewrite Hn in E. discriminate E.
  - intros ->. reflexivity.
Qed.

Lemma trim_ascii (s : jsstring) : forallb isAscii s = true -> forallb isAscii (trim s) = true.
Proof.
  destruct (trim_split s) as (pre & post & Hs & _ & _).
  intros Ha. rewrite Hs, !forallb_app in Ha.
  apply Bool.andb_true_iff in Ha as [_ Ha]. apply Bool.andb_true_iff in Ha as [Ha _].
  exact Ha.
Qed.

Section BlankInput.
Context {rt : JSRuntime}.

(** X1: the length analyzeString reports is at most the length of the
    input, and it is 0 exactly when the input is white space only (the
    empty string included); the analysis of such an input is the record
    of the empty string: no palindrome, no unique character, no word, an
    empty frequency map, the hash of the empty string. *)
Theorem analyzeString_blank (s : jsstring) :
  Props.length (analyzeString s) <= jslength s /\
  (Props.length (analyzeString s) = 0 <-> forallb isWhiteSpace s = true) /\
  (forallb isWhiteSpace s = true ->
   analyzeString s =
     {| Props.length := 0;
        Props.is_palindrome := false;
        Props.unique_characters := 0;
        Props.word_count := 0;
        Props.sha256_hash := sha256_hex [];
        Props.character_frequency_map := ∅ |}).
Proof.
  split; [apply trim_length|]. split.
  - cbn [analyzeString Props.length]. rewrite jslength_zero. apply trim_nil_iff.
  - intros Hws. apply trim_nil_iff in Hws. unfold analyzeString. rewrite Hws.
    reflexivity.
Qed.
End BlankInput.

Lemma analyzeString_blank_witness :
  forallb isWhiteSpace (js "   " ++ [9%N; 10%N]) = true /\
  Props.word_count (analyzeString (rt := RefRuntime) (js "   " ++ [9%N; 10%N])) = 0.
Proof.
  split; [reflexivity|].
  rewrite (proj2 (proj2 (analyzeString_blank (rt := RefRuntime) (js "   " ++ [9%N; 10%N])))
             eq_refl).
  reflexivity.
Defined.

(** *** Words *)

Lemma splitWs_length (in_sep : bool) (tok s : jsstring) :
  List.length (splitWs in_sep tok s) =
    (wordStarts in_sep s + (if endsInWs in_sep s then 1 else 0)
     + (if in_sep then 0 else 1))%nat.
Proof.
  revert in_sep tok. induction s as [|c s IH]; intros in_sep tok; simpl.
  - destruct in_sep; reflexivity.
  - destruct (isWhiteSpace c) eqn:E.
    + destruct in_sep; simpl; rewrite IH; lia.
    + rewrite IH. destruct in_sep; lia.
Qed.

Lemma endsInWs_snoc (b : bool) (v : jsstring) (c : codeunit) :
  endsInWs b (v ++ [c]) = isWhiteSpace c.
Proof. revert b. induction v as [|a v IH]; intros b; simpl; auto. Qed.

Lemma endsInWs_trimEnd (u : jsstring) : endsInWs false (trimEnd u) = false.
Proof.
  unfold trimEnd. pose proof (trimStart_noLeadingWs (rev u)) as Hn.
  destruct (trimStart (rev u)) as [|c x]; [reflexivity|].
  simpl in *. rewrite endsInWs_snoc. exact Hn.
Qed.

Lemma wordStarts_leading (w s : jsstring) :
  forallb isWhiteSpace w = true -> wordStarts true (w ++ s) = wordStarts true s.
Proof.
  induction w as [|c w IH]; simpl; [reflexivity|].
  rewrite Bool.andb_true_iff. intros [-> Hw]. exact (IH Hw).
Qed.

Lemma wordStarts_trailing (b : bool) (v w : jsstring) :
  forallb isWhiteSpace w = true -> wordStarts b (v ++ w) = wordStarts b v.
Proof.
  intros Hw. revert b. induction v as [|c v IH]; intros b; simpl.
  - revert b. induction w as [|c w IHw]; intros b; simpl; [reflexivity|].
    simpl in Hw. apply Bool.andb_true_iff in Hw as [-> Hw]. exact (IHw Hw true).
  - destruct (isWhiteSpace c); rewrite IH; reflexivity.
Qed.

Lemma countWords_trim (s : jsstring) : countWords (trim s) = countWords s.
Proof.
  destruct (trim_split s) as (pre & post & Hs & Hpre & Hpost).
  unfold countWords. rewrite Hs at 2.
  rewrite wordStarts_leading by exact Hpre.
  rewrite wordStarts_trailing by exact Hpost. reflexivity.
Qed.

Lemma wordStarts_le (b : bool) (s : jsstring) : (wordStarts b s <= List.length s)%nat.
Proof.
  revert b. induction s as [|c s IH]; intros b; simpl; [lia|].
  destruct (isWhiteSpace c).
  - specialize (IH true). lia.
  - specialize (IH false). destruct b; lia.
Qed.

Lemma countWords_zero (s : jsstring) :
  countWords s = O <-> forallb isWhiteSpace s = true.
Proof.
  unfold countWords. induction s as [|c s IH]; simpl; [tauto|].
  destruct (isWhiteSpace c); simpl; [exact IH | split; [lia | discriminate]].
Qed.

(** The pieces of a trimmed string that is not empty are its words. *)
Lemma splitOnWhiteSpace_trim (s : jsstring) :
  trim s <> [] ->
  List.length (splitOnWhiteSpace (trim s)) = countWords (trim s).
Proof.
  intros Hne. unfold splitOnWhiteSpace, countWords. rewrite splitWs_length.
  change (endsInWs false (trim s)) with (endsInWs false (trimEnd (trimStart s))).
  rewrite endsInWs_trimEnd.
  pose proof (trimEnd_noLeadingWs (trimStart s) (trimStart_noLeadingWs s)) as Hn.
  change (trimEnd (trimStart s)) with (trim s) in Hn.
  destruct (trim s) as [|c t]; [contradiction|].
  simpl in *. rewrite Hn. lia.
Qed.

Section Words.
Context {rt : JSRuntime}.

(** X2: word_count is the number of maximal runs of code units of the
    input that are not white space; it is at most the reported length,
    and it is 0 exactly when the input is white space only. *)
Theorem word_count_counts_runs (s : jsstring) :
  Props.word_count (analyzeString s) = Z.of_nat (countWords s) /\
  Props.word_count (analyzeString s) <= Props.length (analyzeString s) /\
  (Props.word_count (analyzeString s) = 0 <-> forallb isWhiteSpace s = true).
Proof.
  assert (Hwc : Props.word_count (analyzeString s) = Z.of_nat (countWords s)).
  { cbn [analyzeString Props.word_count]. rewrite trim_idempotent.
    rewrite <- countWords_trim.
    destruct (Z.eqb_spec (jslength (trim s)) 0) as [E|E].
    - apply jslength_zero in E. rewrite E. reflexivity.
    - rewrite splitOnWhiteSpace_trim; [reflexivity|].
      intros E'. apply E. rewrite E'. reflexivity. }
  split; [exact Hwc|]. rewrite Hwc. split.
  - cbn [analyzeString Props.length]. rewrite <- countWords_trim.
    unfold jslength, countWords. apply inj_le, wordStarts_le.
  - rewrite <- countWords_zero. lia.
Qed.
End Words.

(** *** The palindrome flag *)

Lemma removeNonAlnum_ws (w : jsstring) :
  forallb isWhiteSpace w = true -> removeNonAlnum w = [].
Proof.
  unfold removeNonAlnum. induction w as [|c w IH]; simpl; [reflexivity|].
  rewrite Bool.andb_true_iff. intros [Hc Hw].
  rewrite (whitespace_not_alnum c Hc). exact (IH Hw).
Qed.

Lemma removeNonAlnum_trim (s : jsstring) : removeNonAlnum (trim s) = removeNonAlnum s.
Proof.
  destruct (trim_split s) as (pre & post & Hs & Hpre & Hpost).
  pose proof (removeNonAlnum_ws pre Hpre) as H1.
  pose proof (removeNonAlnum_ws post Hpost) as H2.
  rewrite Hs at 2. unfold removeNonAlnum in *. rewrite !filter_app, H1, H2.
  rewrite app_nil_r. reflexivity.
Qed.

Lemma alnumFold_rev (s : jsstring) : alnumFold (rev s) = rev (alnumFold s).
Proof. unfold alnumFold, removeNonAlnum. rewrite filter_rev, map_rev. reflexivity. Qed.

Lemma removeNonAlnum_none (s : jsstring) :
  forallb (fun c => negb (isAlnum c)) s = true -> removeNonAlnum s = [].
Proof.
  unfold removeNonAlnum. induction s as [|c s IH]; simpl; [reflexivity|].
  rewrite Bool.andb_true_iff, Bool.negb_true_iff. intros [-> Hs]. exact (IH Hs).
Qed.

Section PalindromeFlag.
Context {rt : JSRuntime}.

Lemma cleaned_alnumFold (s : jsstring) : cleaned s = alnumFold s.
Proof.
  unfold cleaned, toLowerCase, alnumFold.
  rewrite removeNonAlnum_ascii, removeNonAlnum_trim. reflexivity.
Qed.

Lemma is_palindrome_alnumFold (s : jsstring) :
  Props.is_palindrome (analyzeString s) = true <->
  alnumFold s <> [] /\ alnumFold s = rev (alnumFold s).
Proof.
  rewrite <- cleaned_alnumFold.
  unfold analyzeString, cleaned. cbn [Props.is_palindrome].
  rewrite Bool.andb_true_iff, Z.ltb_lt, jsstring_eqb_eq.
  pose proof (jslength_zero (toLowerCase (removeNonAlnum (trim s)))) as Hz.
  pose proof (jslength_nonneg (toLowerCase (removeNonAlnum (trim s)))) as Hn.
  split; intros [H1 H2]; (split; [|exact H2]).
  - intros E. apply Hz in E. lia.
  - destruct (Z.eq_dec (jslength (toLowerCase (removeNonAlnum (trim s)))) 0) as [E|E].
    + apply Hz in E. contradiction.
    + lia.
Qed.

(** X3: is_palindrome looks only at the ASCII letters and digits of the
    input, lower-cased: two inputs that agree on them have the same flag,
    whatever their case, punctuation, white space or other characters;
    reversing the input keeps the flag; and an input without an ASCII
    letter or digit is never a palindrome. *)
Theorem is_palindrome_alnum_only (s : jsstring) :
  (forall t, alnumFold s = alnumFold t ->
     Props.is_palindrome (analyzeString s) = Props.is_palindrome (analyzeString t)) /\
  Props.is_palindrome (analyzeString (rev s)) = Props.is_palindrome (analyzeString s) /\
  (forallb (fun c => negb (isAlnum c)) s = true ->
     Props.is_palindrome (analyzeString s) = false).
Proof.
  split; [|split].
  - intros t E. apply Bool.eq_iff_eq_true.
    rewrite !is_palindrome_alnumFold, E. reflexivity.
  - apply Bool.eq_iff_eq_true. rewrite !is_palindrome_alnumFold, alnumFold_rev.
    rewrite rev_involutive.
    assert (Hnil : rev (alnumFold s) = [] <-> alnumFold s = []).
    { split; intros E; [rewrite <- (rev_involutive (alnumFold s)), E | rewrite E];
        reflexivity. }
    rewrite Hnil. split; intros [Hne Hp]; (split; [exact Hne | congruence]).
  - intros Hnone. apply Bool.not_true_iff_false. rewrite is_palindrome_alnumFold.
    unfold alnumFold. rewrite removeNonAlnum_none by exact Hnone. simpl. tauto.
Qed.
End PalindromeFlag.

Lemma is_palindrome_alnum_only_witness :
  alnumFold (js "Never odd, or even!") = alnumFold (js "NEVERODDOREVEN") /\
  Props.is_palindrome (analyzeString (rt := RefRuntime) (js "Never odd, or even!"))
    = Props.is_palindrome (analyzeString (rt := RefRuntime) (js "NEVERODDOREVEN")) /\
  Props.is_palindrome (analyzeString (rt := RefRuntime) [1096; 1072; 1083; 1072; 1096]%N)
    = false.
Proof.
  split; [reflexivity|]. split.
  - apply (proj1 (is_palindrome_alnum_only (rt := RefRuntime) (js "Never odd, or even!"))).
    reflexivity.
  - apply (proj2 (proj2 (is_palindrome_alnum_only (rt := RefRuntime)
                           [1096; 1072; 1083; 1072; 1096]%N))).
    reflexivity.
Defined.

(** *** The sum of the frequencies *)

Lemma totalCount_insert_new (m : gmap (list N) Z) (k : jsstring) (v : Z) :
  m !! k = None -> totalCount (<[k := v]> m) = v + totalCount m.
Proof.
  intros Hk. unfold totalCount.
  rewrite map_fold_insert_L; [reflexivity | intros; lia | exact Hk].
Qed.

Lemma totalCount_insert_old (m : gmap (list N) Z) (k : jsstring) (v v' : Z) :
  m !! k = Some v -> totalCount (<[k := v']> m) = totalCount m - v + v'.
Proof.
  intros Hk. rewrite <- insert_delete_eq.
  rewrite totalCount_insert_new by apply lookup_delete_eq.
  unfold totalCount at 2.
  rewrite (map_fold_delete_L _ _ k v m); [|intros; lia | exact Hk].
  fold (totalCount (delete k m)). lia.
Qed.

Lemma totalCount_countChar (m : gmap (list N) Z) (ch : jsstring) :
  totalCount (countChar m ch) =
    totalCount m + (if jsstring_eqb ch [SPACE] then 0 else 1).
Proof.
  unfold countChar. destruct (jsstring_eqb ch [SPACE]); simpl; [lia|].
  destruct (m !! ch) as [v|] eqn:E; simpl.
  - rewrite (totalCount_insert_old m ch v) by exact E. lia.
  - rewrite totalCount_insert_new by exact E. lia.
Qed.

Lemma totalCount_fold (l : list jsstring) (m : gmap (list N) Z) :
  totalCount (fold_left countChar l m) =
    totalCount m
    + Z.of_nat (List.length
        (List.filter (fun ch => negb (jsstring_eqb ch [SPACE])) l)).
Proof.
  revert m. induction l as [|ch l IH]; intros m; simpl; [lia|].
  rewrite IH, totalCount_countChar.
  destruct (jsstring_eqb ch [SPACE]); simpl; lia.
Qed.

Lemma ascii_not_high (c : codeunit) : isAscii c = true -> isHighSurrogate c = false.
Proof.
  unit_tests. intros Hc. apply N.ltb_lt in Hc.
  destruct (N.leb_spec 55296 c); [lia | reflexivity].
Qed.

Lemma codePoints_ascii (u : jsstring) :
  forallb isAscii u = true -> codePoints u = map (fun c => [c]) u.
Proof.
  induction u as [|c u IH]; [reflexivity|].
  cbn [forallb]. rewrite Bool.andb_true_iff. intros [Hc Hu].
  rewrite codePoints_cons_single by (apply ascii_not_high, Hc).
  cbn [map]. f_equal. exact (IH Hu).
Qed.

Lemma lowerAscii_ascii (c : codeunit) : isAscii c = true -> isAscii (lowerAscii c) = true.
Proof.
  unfold lowerAscii. destruct (isUpper c) eqn:E; [|auto].
  intros _. revert E. unit_tests. bool_arith. lia.
Qed.

Lemma lowerAscii_space (c : codeunit) : N.eqb (lowerAscii c) SPACE = N.eqb c SPACE.
Proof.
  unfold lowerAscii. destruct (isUpper c) eqn:E; [|reflexivity].
  revert E. unit_tests. bool_arith. intros E.
  destruct (N.eqb_spec (c + 32) 32), (N.eqb_spec c 32); auto; lia.
Qed.

Lemma map_lowerAscii_ascii (u : jsstring) :
  forallb isAscii u = true -> forallb isAscii (map lowerAscii u) = true.
Proof.
  induction u as [|c u IH]; simpl; [reflexivity|].
  rewrite !Bool.andb_true_iff. intros [Hc Hu].
  split; [apply lowerAscii_ascii, Hc | exact (IH Hu)].
Qed.

Lemma nonSpace_count_ascii (u : jsstring) :
  (List.length (List.filter (fun ch => negb (jsstring_eqb ch [SPACE]))
                  (map (fun c => [c]) (map lowerAscii u)))
   + List.length (List.filter (N.eqb SPACE) u))%nat = List.length u.
Proof.
  induction u as [|c u IH]; [reflexivity|].
  cbn [map List.filter jsstring_eqb]. unfold codeunit_eqb.
  rewrite Bool.andb_true_r, lowerAscii_space, (N.eqb_sym SPACE c).
  destruct (c =? SPACE)%N; cbn [negb List.length]; lia.
Qed.

Section FrequencySum.
Context {rt : JSRuntime}.

(** X4: the counts of character_frequency_map add up to the number of
    characters of the lower-cased trimmed input other than the space;
    for an ASCII input this is the reported length minus the number of
    spaces inside the trimmed input. *)
Theorem character_frequency_total (s : jsstring) :
  totalCount (Props.character_frequency_map (analyzeString s))
    = Z.of_nat (List.length
        (List.filter (fun ch => negb (jsstring_eqb ch [SPACE])) (loweredChars s))) /\
  (forallb isAscii s = true ->
   totalCount (Props.character_frequency_map (analyzeString s))
     = Props.length (analyzeString s)
       - Z.of_nat (List.length (List.filter (N.eqb SPACE) (trim s)))).
Proof.
  assert (Htot : totalCount (Props.character_frequency_map (analyzeString s))
                 = Z.of_nat (List.length
                     (List.filter (fun ch => negb (jsstring_eqb ch [SPACE]))
                        (loweredChars s)))).
  { cbn [analyzeString Props.character_frequency_map]. rewrite totalCount_fold.
    unfold totalCount. rewrite map_fold_empty. reflexivity. }
  split; [exact Htot|].
  intros Ha. rewrite Htot. apply trim_ascii in Ha.
  unfold loweredChars, toLowerCase. rewrite Ha.
  rewrite codePoints_ascii by (apply map_lowerAscii_ascii, Ha).
  cbn [analyzeString Props.length]. unfold jslength.
  pose proof (nonSpace_count_ascii (trim s)). lia.
Qed.
End FrequencySum.

Lemma character_frequency_total_witness :
  forallb isAscii (js " a b  c ") = true /\
  totalCount (Props.character_frequency_map
                (analyzeString (rt := RefRuntime) (js " a b  c "))) = 3.
Proof.
  split; [reflexivity|].
  rewrite (proj2 (character_frequency_total (rt := RefRuntime) (js " a b  c ")) eq_refl).
  reflexivity.
Defined.

(* ===================================================================== *)
(** ** Further properties: the translator                                 *)
(* ===================================================================== *)

(** A pattern without groups hands the captures on as they are. *)
Lemma rmatch_groupFree (r : regex) (s : jsstring) caps cont m :
  groupFree r = true ->
  rmatch r s caps cont = Some m ->
  exists s', cont s' caps = Some m.
Proof.
  revert s caps cont. induction r as [l|k|r1 IH1 r2 IH2|r1 IH1 r2 IH2|r1 IH1|k|r1 IH1];
    intros s caps cont Hg Hm.
  - apply rmatch_Lit_inv in Hm as (s' & _ & Hm). eauto.
  - simpl in Hm. destruct s as [|c s]; [discriminate|].
    destruct (in_class k c); [eauto | discriminate].
  - simpl in Hg. apply Bool.andb_true_iff in Hg as [Hg1 Hg2].
    rewrite rmatch_Seq in Hm. apply IH1 in Hm as (s1 & Hm); [|exact Hg1].
    apply IH2 in Hm; assumption.
  - simpl in Hg. apply Bool.andb_true_iff in Hg as [Hg1 Hg2].
    cbn [rmatch] in Hm. destruct (rmatch r1 s caps cont) eqn:E.
    + injection Hm as ->. apply IH1 in E; assumption.
    + apply IH2 in Hm; assumption.
  - simpl in Hg. cbn [rmatch] in Hm. destruct (rmatch r1 s caps cont) eqn:E.
    + injection Hm as ->. apply IH1 in E; assumption.
    + eauto.
  - apply rmatch_Plus_inv in Hm as (ds & s' & _ & _ & _ & Hm). eauto.
  - discriminate Hg.
Qed.

(** What a match of the letter pattern captures: one letter. *)
Lemma re_char_inv (s : jsstring) m :
  jsMatch re_char s = Some m -> exists c, m = [[c]] /\ isLetter c = true.
Proof.
  intros Hm. apply jsMatch_inv in Hm as (pre & s0 & _ & Hm).
  unfold matchHere, re_char in Hm.
  rewrite rmatch_Seq in Hm. apply rmatch_groupFree in Hm as (s1 & Hm); [|reflexivity].
  rewrite rmatch_Seq in Hm. apply rmatch_groupFree in Hm as (s2 & Hm); [|reflexivity].
  rewrite rmatch_Seq in Hm. apply rmatch_groupFree in Hm as (s3 & Hm); [|reflexivity].
  rewrite rmatch_Seq in Hm. apply rmatch_groupFree in Hm as (s4 & Hm); [|reflexivity].
  rewrite rmatch_Seq in Hm. apply rmatch_groupFree in Hm as (s5 & Hm); [|reflexivity].
  rewrite rmatch_Seq, rmatch_Group in Hm. cbn [rmatch] in Hm.
  destruct s5 as [|c s5]; [discriminate|].
  destruct (in_class CLetter c) eqn:Ec; [|discriminate].
  replace (List.length (c :: s5) - List.length s5)%nat with 1%nat in Hm
    by (simpl; lia).
  exists c. split; [|exact Ec].
  destruct (match s5 with
            | [] => None
            | c0 :: s' => if in_class CQuote c0 then Some ([] ++ [firstn 1 (c :: s5)]) else None
            end) eqn:E.
  - injection Hm as <-. destruct s5 as [|c0 s']; [discriminate|].
    destruct (in_class CQuote c0); [|discriminate]. injection E as <-. reflexivity.
  - injection Hm as <-. reflexivity.
Qed.

(** What a match of [/(\d+)\s+words?/] captures: a numeral. *)
Lemma re_exactWords_inv (s : jsstring) m :
  jsMatch re_exactWords s = Some m -> exists ds, m = [ds] /\ isNatNumeral ds = true.
Proof.
  intros Hm. apply jsMatch_inv in Hm as (pre & s0 & _ & Hm).
  unfold matchHere, re_exactWords in Hm. rewrite rmatch_Seq in Hm.
  apply rmatch_Group_Plus_inv in Hm as (ds & s1 & _ & Hne & Hds & Hm).
  apply rmatch_groupFree in Hm as (s2 & Hm); [|reflexivity].
  injection Hm as <-. exists ds. split; [reflexivity|].
  unfold isNatNumeral. change (forallb (in_class CDigit) ds) with (forallb isDigit ds) in Hds.
  rewrite Hds, Bool.andb_true_r, Bool.negb_true_iff, Z.eqb_neq, jslength_zero. exact Hne.
Qed.

Lemma toLowerCase_letter {rt : JSRuntime} (c : codeunit) :
  isLetter c = true ->
  toLowerCase [c] = [lowerAscii c] /\ isLower (lowerAscii c) = true.
Proof.
  intros Hc. unfold toLowerCase. cbn [forallb].
  assert (Ha : isAscii c = true) by (apply alnum_ascii; unfold isAlnum; rewrite Hc; reflexivity).
  rewrite Ha. split; [reflexivity|].
  unfold lowerAscii. destruct (isUpper c) eqn:E.
  - revert E. unit_tests. bool_arith. lia.
  - unfold isLetter in Hc. rewrite E in Hc. exact Hc.
Qed.

Section TranslatorKeys.
Context {rt : JSRuntime}.

Lemma parse_is_palindrome (query : jsstring) :
  parseNaturalLanguageQuery query !! "is_palindrome" =
    if fires re_palindrome (toLowerCase query) then Some (js "true") else None.
Proof.
  unfold parseNaturalLanguageQuery. cbv zeta.
  rewrite (lookup_whenMatch_other re_consonant) by other_key.
  rewrite (lookup_whenMatch_other re_vowel) by other_key.
  rewrite (lookup_whenMatch_other re_char) by other_key.
  rewrite (lookup_whenMatch_other re_between)
    by (intros; rewrite !lookup_insert_ne by discriminate; reflexivity).
  rewrite (lookup_whenMatch_other re_lessThan) by other_key.
  rewrite (lookup_whenMatch_other re_moreThan) by other_key.
  rewrite (lookup_whenMatch_other re_atMost) by other_key.
  rewrite (lookup_whenMatch_other re_atLeast) by other_key.
  rewrite (lookup_whenMatch_other re_shorter) by other_key.
  rewrite (lookup_whenMatch_other re_longer) by other_key.
  rewrite (lookup_whenMatch_other re_exactWords) by other_key.
  rewrite (lookup_whenMatch_other re_threeWords) by other_key.
  rewrite (lookup_whenMatch_other re_twoWords) by other_key.
  rewrite (lookup_whenMatch_other re_oneWord) by other_key.
  rewrite (lookup_whenMatch_insert re_palindrome (toLowerCase query) (fun _ => js "true")).
  unfold fires. destruct (jsMatch re_palindrome (toLowerCase query)); reflexivity.
Qed.

Lemma parse_contains_character (query : jsstring) :
  parseNaturalLanguageQuery query !! "contains_character" =
    let lowerQuery := toLowerCase query in
    match jsMatch re_consonant lowerQuery with
    | Some _ => Some (js "b")
    | None =>
    match jsMatch re_vowel lowerQuery with
    | Some _ => Some (js "a")
    | None =>
    match jsMatch re_char lowerQuery with
    | Some charMatch => Some (toLowerCase (group 1 charMatch))
    | None => None
    end end end.
Proof.
  unfold parseNaturalLanguageQuery. cbv zeta.
  rewrite (lookup_whenMatch_insert re_consonant (toLowerCase query) (fun _ => js "b")).
  destruct (jsMatch re_consonant (toLowerCase query)); [reflexivity|].
  rewrite (lookup_whenMatch_insert re_vowel (toLowerCase query) (fun _ => js "a")).
  destruct (jsMatch re_vowel (toLowerCase query)); [reflexivity|].
  rewrite (lookup_whenMatch_insert re_char).
  destruct (jsMatch re_char (toLowerCase query)); [reflexivity|].
  rewrite (lookup_whenMatch_other re_between)
    by (intros; rewrite !lookup_insert_ne by discriminate; reflexivity).
  rewrite (lookup_whenMatch_other re_lessThan) by other_key.
  rewrite (lookup_whenMatch_other re_moreThan) by other_key.
  rewrite (lookup_whenMatch_other re_atMost) by other_key.
  rewrite (lookup_whenMatch_other re_atLeast) by other_key.
  rewrite (lookup_whenMatch_other re_shorter) by other_key.
  rewrite (lookup_whenMatch_other re_longer) by other_key.
  rewrite (lookup_whenMatch_other re_exactWords) by other_key.
  rewrite (lookup_whenMatch_other re_threeWords) by other_key.
  rewrite (lookup_whenMatch_other re_twoWords) by other_key.
  rewrite (lookup_whenMatch_other re_oneWord) by other_key.
  rewrite (lookup_whenMatch_other re_palindrome) by other_key.
  apply lookup_empty.
Qed.

Lemma parse_unknown_key (query : jsstring) (k : string) :
  ~ In k recognizedKeys -> parseNaturalLanguageQuery query !! k = None.
Proof.
  intros Hk. unfold parseNaturalLanguageQuery. cbv zeta.
  repeat (rewrite lookup_whenMatch_other
            by (intros; rewrite !lookup_insert_ne
                  by (intros <-; apply Hk; simpl; auto 10); reflexivity)).
  apply lookup_empty.
Qed.

(** X5: the filter set of the translator has no key but is_palindrome,
    min_length, max_length, word_count and contains_character; the value
    of is_palindrome is "true", that of word_count a decimal numeral, that
    of contains_character one lower-case letter a-z. *)
Theorem translator_keys_and_values (query : jsstring) :
  (forall k, is_Some (parseNaturalLanguageQuery query !! k) -> In k recognizedKeys) /\
  (forall v, parseNaturalLanguageQuery query !! "is_palindrome" = Some v ->
             v = js "true") /\
  (forall v, parseNaturalLanguageQuery query !! "word_count" = Some v ->
             isNatNumeral v = true) /\
  (forall v, parseNaturalLanguageQuery query !! "contains_character" = Some v ->
             exists c, v = [c] /\ isLower c = true).
Proof.
  split; [|split; [|split]].
  - intros k Hs. destruct (in_dec string_dec k recognizedKeys) as [Hin|Hout]; [exact Hin|].
    rewrite (parse_unknown_key query k Hout) in Hs. destruct Hs as [? [=]].
  - intros v. rewrite parse_is_palindrome.
    destruct (fires re_palindrome (toLowerCase query)); congruence.
  - intros v. rewrite parse_word_count. cbv zeta.
    destruct (jsMatch re_exactWords (toLowerCase query)) as [m|] eqn:E.
    { apply re_exactWords_inv in E as (ds & -> & Hds). intros [= <-]. exact Hds. }
    destruct (jsMatch re_threeWords (toLowerCase query)); [intros [= <-]; reflexivity|].
    destruct (jsMatch re_twoWords (toLowerCase query)); [intros [= <-]; reflexivity|].
    destruct (jsMatch re_oneWord (toLowerCase query)); [intros [= <-]; reflexivity|].
    discriminate.
  - intros v. rewrite parse_contains_character. cbv zeta.
    destruct (jsMatch re_consonant (toLowerCase query)).
    { intros [= <-]. exists 98%N. split; reflexivity. }
    destruct (jsMatch re_vowel (toLowerCase query)).
    { intros [= <-]. exists 97%N. split; reflexivity. }
    destruct (jsMatch re_char (toLowerCase query)) as [m|] eqn:E; [|discriminate].
    apply re_char_inv in E as (c & -> & Hc). intros [= <-].
    destruct (toLowerCase_letter c Hc) as [Hl Hlow].
    exists (lowerAscii c). split; [exact Hl | exact Hlow].
Qed.
End TranslatorKeys.

(** *** The palindrome rule and the case of the query *)

Lemma jsMatch_here (r : regex) (s : jsstring) m :
  matchHere r s = Some m -> jsMatch r s = Some m.
Proof. intros Hm. destruct s; simpl; rewrite Hm; reflexivity. Qed.

Lemma fires_iff (r : regex) (s : jsstring) :
  fires r s = true <-> exists pre s', s = pre ++ s' /\ is_Some (matchHere r s').
Proof.
  unfold fires. split.
  - destruct (jsMatch r s) as [m|] eqn:E; [|discriminate]. intros _.
    apply jsMatch_inv in E as (pre & s' & -> & Hm). eauto.
  - intros (pre & s' & -> & Hs).
    destruct (jsMatch_fires_later r pre s' Hs) as [m ->]. reflexivity.
Qed.

(** An alternative of two literals fires on the strings that contain
    one of them. *)
Lemma fires_literals (a b s : jsstring) :
  fires (Lit a </> Lit b)%re s = true <-> containsSub a s \/ containsSub b s.
Proof.
  rewrite fires_iff. unfold containsSub, matchHere. split.
  - intros (pre & s' & -> & [m Hm]). cbn [rmatch] in Hm.
    destruct (stripPrefix a s') as [post|] eqn:Ea.
    + apply stripPrefix_Some in Ea as ->. left. eauto.
    + destruct (stripPrefix b s') as [post|] eqn:Eb; [|discriminate].
      apply stripPrefix_Some in Eb as ->. right. eauto.
  - intros [(pre & post & ->)|(pre & post & ->)].
    + exists pre, (a ++ post). split; [reflexivity|]. cbn [rmatch].
      rewrite (proj2 (stripPrefix_Some a _ post) eq_refl). eauto.
    + exists pre, (b ++ post). split; [reflexivity|]. cbn [rmatch].
      destruct (stripPrefix a (b ++ post)); [eauto|].
      rewrite (proj2 (stripPrefix_Some b _ post) eq_refl). eauto.
Qed.

Lemma toLowerCase_ascii_eq {rt : JSRuntime} (s : jsstring) :
  forallb isAscii s = true -> toLowerCase s = map lowerAscii s.
Proof. intros Ha. unfold toLowerCase. rewrite Ha. reflexivity. Qed.

Section TranslatorCase.
Context {rt : JSRuntime}.

(** X6: is_palindrome is in the filter set exactly when the lower-cased
    query contains "palindrome" or "palindromic"; and the translator
    reads an ASCII query without regard to case: two ASCII queries that
    differ only in the case of their letters give the same filter set. *)
Theorem translator_palindrome_and_case :
  (forall query,
     parseNaturalLanguageQuery query !! "is_palindrome" = Some (js "true") <->
     containsSub (js "palindrome") (toLowerCase query) \/
     containsSub (js "palindromic") (toLowerCase query)) /\
  (forall query query',
     forallb isAscii query = true -> forallb isAscii query' = true ->
     map lowerAscii query = map lowerAscii query' ->
     parseNaturalLanguageQuery query = parseNaturalLanguageQuery query').
Proof.
  split.
  - intros query. rewrite parse_is_palindrome, <- fires_literals.
    change (Lit (js "palindrome") </> Lit (js "palindromic"))%re with re_palindrome.
    destruct (fires re_palindrome (toLowerCase query)); split; congruence.
  - intros query query' Ha Ha' E.
    assert (El : toLowerCase query = toLowerCase query')
      by (rewrite !toLowerCase_ascii_eq by assumption; exact E).
    unfold parseNaturalLanguageQuery. cbv zeta. rewrite El. reflexivity.
Qed.
End TranslatorCase.

Lemma translator_palindrome_and_case_witness :
  forallb isAscii (js "All PALINDROMIC strings") = true /\
  parseNaturalLanguageQuery (rt := RefRuntime) (js "All PALINDROMIC strings")
    = parseNaturalLanguageQuery (rt := RefRuntime) (js "all palindromic strings").
Proof.
  split; [reflexivity|].
  apply (proj2 (translator_palindrome_and_case (rt := RefRuntime))); reflexivity.
Defined.

(** *** The range rule and the value of the exclusive bounds *)

Lemma plusLoop_greedy {A} (k : cclass) (ds rest : jsstring)
    (cont : jsstring -> option A) (x : A) :
  forallb (in_class k) ds = true -> stopsClass k rest ->
  cont rest = Some x -> plusLoop k (ds ++ rest) cont = Some x.
Proof.
  intros Hds Hrest Hc. induction ds as [|d ds IH]; cbn [app plusLoop].
  - destruct rest as [|c rest]; [exact Hc|]. cbn [stopsClass] in Hrest.
    cbn [plusLoop]. rewrite Hrest. exact Hc.
  - cbn [forallb] in Hds. apply Bool.andb_true_iff in Hds as [-> Hds].
    rewrite (IH Hds). reflexivity.
Qed.

Lemma rmatch_Lit_app (l s' : jsstring) caps cont :
  rmatch (Lit l) (l ++ s') caps cont = cont s' caps.
Proof. cbn [rmatch]. rewrite (proj2 (stripPrefix_Some l _ s') eq_refl). reflexivity. Qed.

(** A numeral followed by something that is no digit is captured whole. *)
Lemma rmatch_Group_digits_greedy (ds rest : jsstring) caps cont m :
  isNatNumeral ds = true -> stopsClass CDigit rest ->
  cont rest (caps ++ [ds]) = Some m ->
  rmatch (Group digits) (ds ++ rest) caps cont = Some m.
Proof.
  unfold isNatNumeral. rewrite Bool.andb_true_iff. intros [Hne Hds] Hrest Hc.
  destruct ds as [|d ds]; [discriminate Hne|].
  unfold digits. rewrite rmatch_Group.
  change ((d :: ds) ++ rest) with (d :: (ds ++ rest)). cbn [rmatch].
  simpl in Hds. apply Bool.andb_true_iff in Hds as [Hd Hds].
  change (in_class CDigit d) with (isDigit d). rewrite Hd.
  apply plusLoop_greedy; [exact Hds | exact Hrest|].
  change (d :: ds ++ rest) with ((d :: ds) ++ rest). rewrite firstn_consumed. exact Hc.
Qed.

Lemma rmatch_Group_digits_end (ds : jsstring) caps cont m :
  isNatNumeral ds = true ->
  cont [] (caps ++ [ds]) = Some m ->
  rmatch (Group digits) ds caps cont = Some m.
Proof.
  intros Hds Hc. pose proof (rmatch_Group_digits_greedy ds [] caps cont m Hds I Hc) as Hm.
  rewrite app_nil_r in Hm. exact Hm.
Qed.

Lemma digit_lowerAscii (c : codeunit) : isDigit c = true -> isLowerAscii c = true.
Proof. unfold isLowerAscii. unit_tests. bool_arith. lia. Qed.

Lemma numeral_lowerAscii (ds : jsstring) :
  isNatNumeral ds = true -> forallb isLowerAscii ds = true.
Proof.
  unfold isNatNumeral. rewrite Bool.andb_true_iff. intros [_ Hds].
  induction ds as [|d ds IH]; simpl in *; [reflexivity|].
  apply Bool.andb_true_iff in Hds as [Hd Hds].
  rewrite (digit_lowerAscii d Hd). exact (IH Hds).
Qed.

Lemma toLowerCase_fixed {rt : JSRuntime} (s : jsstring) :
  forallb isLowerAscii s = true -> toLowerCase s = s.
Proof.
  intros Hs.
  assert (Ha : forallb isAscii s = true /\ map lowerAscii s = s).
  { induction s as [|c s IH]; simpl in *; [auto|].
    apply Bool.andb_true_iff in Hs as [Hc Hs]. destruct (IH Hs) as [Ha Hm].
    unfold isLowerAscii in Hc. apply Bool.andb_true_iff in Hc as [Hc1 Hc2].
    apply Bool.negb_true_iff in Hc2.
    rewrite Hc1, Ha, Hm. unfold lowerAscii. rewrite Hc2. auto. }
  destruct Ha as [Ha Hm]. rewrite toLowerCase_ascii_eq by exact Ha. exact Hm.
Qed.

Lemma jsMatch_betweenQuery (lo hi : jsstring) :
  isNatNumeral lo = true -> isNatNumeral hi = true ->
  jsMatch re_between (betweenQuery lo hi) = Some [lo; hi].
Proof.
  intros Hlo Hhi. apply jsMatch_here. unfold matchHere, re_between, betweenQuery.
  rewrite rmatch_Seq, rmatch_Lit_app, rmatch_Seq.
  apply rmatch_Group_digits_greedy; [exact Hlo | reflexivity|].
  rewrite rmatch_Seq, rmatch_Lit_app.
  apply rmatch_Group_digits_end; [exact Hhi | reflexivity].
Qed.

Lemma intToString_value (z : Z) : 0 <= z -> parseIntDigits (intToString z) = z.
Proof.
  intros Hz. unfold intToString. destruct (Z.ltb_spec z 0); [lia|].
  rewrite natToString_value. lia.
Qed.

Section TranslatorRanges.
Context {rt : JSRuntime}.

(** X7: for any two decimal numerals A and B the query "between A and B"
    gives min_length A and max_length B, as they are written: the
    translator does not compare them, so min_length can exceed
    max_length. *)
Theorem translator_between (lo hi : jsstring) :
  isNatNumeral lo = true -> isNatNumeral hi = true ->
  parseNaturalLanguageQuery (betweenQuery lo hi) !! "min_length" = Some lo /\
  parseNaturalLanguageQuery (betweenQuery lo hi) !! "max_length" = Some hi.
Proof.
  intros Hlo Hhi.
  assert (Hq : toLowerCase (betweenQuery lo hi) = betweenQuery lo hi).
  { apply toLowerCase_fixed. unfold betweenQuery. rewrite !forallb_app.
    rewrite (numeral_lowerAscii lo Hlo), (numeral_lowerAscii hi Hhi). reflexivity. }
  rewrite parse_min_length, parse_max_length. cbv zeta.
  rewrite Hq, jsMatch_betweenQuery by assumption. split; reflexivity.
Qed.

(** X8: when "more than N" decides min_length (no "between" in the
    query) and N is an integer a double holds exactly, min_length is a
    numeral that [parseInt] reads back as N+1; when "less than N" decides
    max_length and N is at least 1, max_length reads back as N-1. *)
Theorem translator_exclusive_bounds (query : jsstring) :
  jsMatch re_between (toLowerCase query) = None ->
  (forall moreThan,
     jsMatch re_moreThan (toLowerCase query) = Some moreThan ->
     parseIntDigits (group 1 moreThan) <= MAX_SAFE_INTEGER ->
     exists v, parseNaturalLanguageQuery query !! "min_length" = Some v /\
               isNatNumeral v = true /\
               parseIntDigits v = parseIntDigits (group 1 moreThan) + 1) /\
  (forall lessThan,
     jsMatch re_lessThan (toLowerCase query) = Some lessThan ->
     1 <= parseIntDigits (group 1 lessThan) <= MAX_SAFE_INTEGER ->
     exists v, parseNaturalLanguageQuery query !! "max_length" = Some v /\
               isNatNumeral v = true /\
               parseIntDigits v = parseIntDigits (group 1 lessThan) - 1).
Proof.
  intros Hbt. split.
  - intros moreThan Hm Hs. rewrite parse_min_length. cbv zeta. rewrite Hbt, Hm.
    pose proof Hm as Hinv.
    apply keyword_number_inv in Hinv as (? & ds & ? & _ & -> & Hds).
    pose proof (parseIntDigits_nonneg _ Hds) as Hn.
    eexists. split; [reflexivity|]. cbn [group nth Nat.sub] in *.
    rewrite offsetToString_safe by exact Hs. split.
    + apply intToString_nonneg. lia.
    + apply intToString_value. lia.
  - intros lessThan Hm Hs. rewrite parse_max_length. cbv zeta. rewrite Hbt, Hm.
    eexists. split; [reflexivity|].
    rewrite offsetToString_safe by lia. split.
    + apply intToString_nonneg. lia.
    + apply intToString_value. lia.
Qed.
End TranslatorRanges.

Lemma translator_between_witness :
  isNatNumeral (js "10") = true /\ isNatNumeral (js "5") = true /\
  parseNaturalLanguageQuery (rt := RefRuntime) (js "between 10 and 5") !! "min_length"
    = Some (js "10") /\
  parseNaturalLanguageQuery (rt := RefRuntime) (js "between 10 and 5") !! "max_length"
    = Some (js "5").
Proof.
  split; [reflexivity|]. split; [reflexivity|].
  exact (translator_between (rt := RefRuntime) (js "10") (js "5") eq_refl eq_refl).
Defined.

Lemma translator_exclusive_bounds_witness :
  jsMatch re_between (toLowerCase (rt := RefRuntime) (js "more than 41 letters")) = None /\
  exists v,
    parseNaturalLanguageQuery (rt := RefRuntime) (js "more than 41 letters")
      !! "min_length" = Some v /\
    isNatNumeral v = true /\ parseIntDigits v = 42.
Proof.
  assert (Hbt : jsMatch re_between
                  (toLowerCase (rt := RefRuntime) (js "more than 41 letters")) = None)
    by (vm_compute; reflexivity).
  split; [exact Hbt|].
  exact (proj1 (translator_exclusive_bounds (rt := RefRuntime) _ Hbt) [js "41"]
           ltac:(vm_compute; reflexivity) ltac:(vm_compute; discriminate)).
Defined.

(* ===================================================================== *)
(** ** Further properties: the routes of the translator and of the store  *)
(* ===================================================================== *)

Lemma validateNaturalLanguageQuery_None (query : jsvalue) :
  validateNaturalLanguageQuery query = None <->
  exists q, query = JString q /\ 1 <= jslength (trim q) /\ jslength q <= 500.
Proof.
  split.
  - destruct query as [| | | |q| |]; simpl; try discriminate.
    destruct (negb (negb (jslength q =? 0))); [discriminate|].
    destruct (Z.eqb_spec (jslength (trim q)) 0) as [E|E]; [discriminate|].
    destruct (Z.gtb_spec (jslength q) 500) as [E2|E2]; [discriminate|].
    intros _. exists q. pose proof (jslength_nonneg (trim q)). repeat split; lia.
  - intros (q & -> & H1 & H2). simpl.
    pose proof (trim_length q) as Hl.
    destruct (Z.eqb_spec (jslength q) 0) as [E0|E0]; [lia|]. simpl.
    destruct (Z.eqb_spec (jslength (trim q)) 0) as [E|E]; [lia|].
    destruct (Z.gtb_spec (jslength q) 500) as [E2|E2]; [lia | reflexivity].
Qed.

Lemma validateNaturalLanguageQuery_Some (query : jsvalue) (e : AppError) :
  validateNaturalLanguageQuery query = Some e ->
  exists message, e = ValidationError message /\ In message naturalLanguageMessages.
Proof.
  unfold naturalLanguageMessages.
  destruct query as [| | | |q| |]; simpl;
    try (intros [= <-]; eexists; split; [reflexivity | auto]).
  destruct (negb (negb (jslength q =? 0)));
    [intros [= <-]; eexists; split; [reflexivity | auto]|].
  destruct (jslength (trim q) =? 0);
    [intros [= <-]; eexists; split; [reflexivity | auto]|].
  destruct (jslength q >? 500);
    [intros [= <-]; eexists; split; [reflexivity | auto] | discriminate].
Qed.

Section NaturalLanguageChain.
Context {rt : JSRuntime}.

(** X9: the chain of handlers registered for the path
    /strings/filter-by-natural-language, validateNaturalLanguageQuery and
    then filterByNaturalLanguage, on the value of the query parameter it
    is called with. The validator lets the value through exactly when it
    is a string of at most 500 code units that is not blank. Whatever the
    value, the table is left as it was and the chain ends in one of two
    ways: a ValidationError with one of four messages and no statement
    sent to the database, or one SELECT with the non-empty filter set of
    the translator, answered with status 200. The controller's own guard
    and a TypeError on a value that is no string are never reached behind
    the validator. Which requests the router hands to the chain is
    another matter, settled with [dispatch]. *)
Theorem filterByNaturalLanguageChain_outcomes
    (selectStrings : filterSet -> table -> list Row.t) (query : jsvalue) (tbl : table) :
  (validateNaturalLanguageQuery query = None <->
   exists q, query = JString q /\ 1 <= jslength (trim q) /\ jslength q <= 500) /\
  ((exists message,
      In message naturalLanguageMessages /\
      run selectStrings (filterByNaturalLanguageChain query) tbl
        = (Failed (ValidationError message), tbl, [])) \/
   (exists q,
      query = JString q /\
      parseNaturalLanguageQuery q <> ∅ /\
      run selectStrings (filterByNaturalLanguageChain query) tbl
        = (Responded 200
             (ListBody (selectStrings (parseNaturalLanguageQuery q) tbl) q
                (parseNaturalLanguageQuery q)),
           tbl, [EvSelect (parseNaturalLanguageQuery q)]))).
Proof.
  split; [apply validateNaturalLanguageQuery_None|].
  unfold filterByNaturalLanguageChain.
  destruct (validateNaturalLanguageQuery query) as [e|] eqn:Ev.
  - left. apply validateNaturalLanguageQuery_Some in Ev as (message & -> & Hin). eauto.
  - pose proof Ev as Hq. apply validateNaturalLanguageQuery_None in Hq as (q & -> & H1 & H2).
    unfold validateNaturalLanguageQuery in Ev.
    destruct (negb (truthy (JString q))) eqn:Et; [discriminate Ev|].
    unfold filterByNaturalLanguage. rewrite Et.
    destruct (Z.eqb_spec (Z.of_nat (size (parseNaturalLanguageQuery q))) 0) as [E|E].
    + left. eexists. split; [|reflexivity]. unfold naturalLanguageMessages. simpl. auto.
    + right. exists q. split; [reflexivity|]. split; [|reflexivity].
      intros Hempty. apply E. rewrite Hempty. reflexivity.
Qed.
End NaturalLanguageChain.

(** *** The statement of findAllStrings *)

Lemma placeholders_app (a b : jsstring) :
  placeholders (a ++ b) = (placeholders a + placeholders b)%nat.
Proof. unfold placeholders. rewrite filter_app, length_app. reflexivity. Qed.

Lemma whenTruthy_spec (filters : filterSet) (key : string) (clause : jsstring)
    (param : jsstring -> sqlParam) (st : jsstring * list sqlParam) :
  placeholders clause = 1%nat ->
  placeholders (fst st) = List.length (snd st) ->
  placeholders (fst (whenTruthy filters key clause param st))
    = List.length (snd (whenTruthy filters key clause param st)) /\
  snd (whenTruthy filters key clause param st)
    = snd st ++ truthyParam filters key param.
Proof.
  intros Hc Hst. unfold whenTruthy, truthyParam.
  destruct (filters !! key) as [v|]; [|rewrite app_nil_r; auto].
  destruct (negb (jslength v =? 0)); [|rewrite app_nil_r; auto].
  cbn [fst snd]. rewrite placeholders_app, length_app, Hc, Hst. auto.
Qed.

Lemma numeral_nonempty (v : jsstring) : isNatNumeral v = true -> v <> [].
Proof. intros Hv ->. discriminate Hv. Qed.

Section StatementFacts.
Context {rt : JSRuntime}.

Lemma findAllStatement_spec (filters : filterSet) :
  placeholders (fst (findAllStatement filters))
    = List.length (snd (findAllStatement filters)) /\
  snd (findAllStatement filters)
    = match filters !! "is_palindrome" with
      | Some v => [PBool (jsstring_eqb v (js "true"))]
      | None => []
      end
      ++ truthyParam filters "min_length" PParseInt
      ++ truthyParam filters "max_length" PParseInt
      ++ truthyParam filters "word_count" PParseInt
      ++ truthyParam filters "contains_character"
           (fun v => PString (js "$." ++ toLowerCase v)).
Proof.
  unfold findAllStatement. cbv zeta.
  set (st0 := match filters !! "is_palindrome" with
              | Some v => _
              | None => _
              end).
  assert (H0 : placeholders (fst st0) = List.length (snd st0) /\
               snd st0 = match filters !! "is_palindrome" with
                         | Some v => [PBool (jsstring_eqb v (js "true"))]
                         | None => []
                         end).
  { subst st0. destruct (filters !! "is_palindrome"); split; reflexivity. }
  destruct H0 as [Hp0 Hs0].
  destruct (whenTruthy_spec filters "min_length" (js " AND length >= ?") PParseInt st0
              eq_refl Hp0) as [Hp1 Hs1].
  destruct (whenTruthy_spec filters "max_length" (js " AND length <= ?") PParseInt _
              eq_refl Hp1) as [Hp2 Hs2].
  destruct (whenTruthy_spec filters "word_count" (js " AND word_count = ?") PParseInt _
              eq_refl Hp2) as [Hp3 Hs3].
  destruct (whenTruthy_spec filters "contains_character"
              (js " AND JSON_EXTRACT(character_frequency, ?) IS NOT NULL")
              (fun v => PString (js "$." ++ toLowerCase v)) _
              eq_refl Hp3) as [Hp4 Hs4].
  cbn [fst snd]. split.
  - rewrite placeholders_app, Hp4. change (placeholders (js " ORDER BY created_at DESC")) with O.
    lia.
  - rewrite Hs4, Hs3, Hs2, Hs1, Hs0, <- !app_assoc. reflexivity.
Qed.

(** Every value the translator writes is a string that is not empty,
    when its numerals are exact. *)
Lemma parse_value_nonempty (query : jsstring) (k : string) (v : jsstring) :
  safeNumerals (toLowerCase query) ->
  parseNaturalLanguageQuery query !! k = Some v -> v <> [].
Proof.
  intros Hsafe Hk.
  destruct (in_dec string_dec k recognizedKeys) as [Hin|Hout];
    [|rewrite (parse_unknown_key query k Hout) in Hk; discriminate].
  simpl in Hin. destruct Hin as [<-|[<-|[<-|[<-|[<-|[]]]]]].
  - rewrite parse_is_palindrome in Hk.
    destruct (fires re_palindrome (toLowerCase query)); [|discriminate].
    injection Hk as <-. discriminate.
  - rewrite parse_min_length in Hk. cbv zeta in Hk.
    destruct (jsMatch re_between (toLowerCase query)) as [m|] eqn:Ebt.
    { apply between_inv in Ebt as (? & lo & hi & ? & _ & -> & Hlo & _).
      injection Hk as <-. apply numeral_nonempty, Hlo. }
    destruct (jsMatch re_moreThan (toLowerCase query)) as [m|] eqn:Emt.
    { pose proof (Hsafe re_moreThan m ltac:(simpl; auto) Emt) as Hs.
      apply keyword_number_inv in Emt as (? & ds & ? & _ & -> & Hds).
      injection Hk as <-. apply numeral_nonempty, offsetToString_succ; assumption. }
    destruct (jsMatch re_atLeast (toLowerCase query)) as [m|] eqn:Eal.
    { apply keyword_number_inv in Eal as (? & ds & ? & _ & -> & Hds).
      injection Hk as <-. apply numeral_nonempty, Hds. }
    destruct (jsMatch re_longer (toLowerCase query)) as [m|] eqn:Elg; [|discriminate].
    pose proof (Hsafe re_longer m ltac:(simpl; auto) Elg) as Hs.
    apply keyword_number_inv in Elg as (? & ds & ? & _ & -> & Hds).
    injection Hk as <-. apply numeral_nonempty, offsetToString_succ; assumption.
  - rewrite parse_max_length in Hk. cbv zeta in Hk.
    destruct (jsMatch re_between (toLowerCase query)) as [m|] eqn:Ebt.
    { apply between_inv in Ebt as (? & lo & hi & ? & _ & -> & _ & Hhi).
      injection Hk as <-. apply numeral_nonempty, Hhi. }
    destruct (jsMatch re_lessThan (toLowerCase query)) as [m|] eqn:Elt.
    { pose proof (Hsafe re_lessThan m ltac:(simpl; auto) Elt) as Hs.
      apply keyword_number_inv in Elt as (? & ds & ? & _ & -> & Hds).
      injection Hk as <-.
      destruct (offsetToString_pred ds Hds Hs) as [Hn|[Hv _]];
        [apply numeral_nonempty, Hn | cbn [group nth Nat.sub]; rewrite Hv; discriminate]. }
    destruct (jsMatch re_atMost (toLowerCase query)) as [m|] eqn:Eam.
    { apply keyword_number_inv in Eam as (? & ds & ? & _ & -> & Hds).
      injection Hk as <-. apply numeral_nonempty, Hds. }
    destruct (jsMatch re_shorter (toLowerCase query)) as [m|] eqn:Esh; [|discriminate].
    pose proof (Hsafe re_shorter m ltac:(simpl; auto) Esh) as Hs.
    apply keyword_number_inv in Esh as (? & ds & ? & _ & -> & Hds).
    injection Hk as <-.
    destruct (offsetToString_pred ds Hds Hs) as [Hn|[Hv _]];
      [apply numeral_nonempty, Hn | cbn [group nth Nat.sub]; rewrite Hv; discriminate].
  - rewrite parse_word_count in Hk. cbv zeta in Hk.
    destruct (jsMatch re_exactWords (toLowerCase query)) as [m|] eqn:E.
    { apply re_exactWords_inv in E as (ds & -> & Hds). injection Hk as <-.
      apply numeral_nonempty, Hds. }
    destruct (jsMatch re_threeWords (toLowerCase query)); [injection Hk as <-; discriminate|].
    destruct (jsMatch re_twoWords (toLowerCase query)); [injection Hk as <-; discriminate|].
    destruct (jsMatch re_oneWord (toLowerCase query)); [injection Hk as <-; discriminate|].
    discriminate.
  - rewrite parse_contains_character in Hk. cbv zeta in Hk.
    destruct (jsMatch re_consonant (toLowerCase query)); [injection Hk as <-; discriminate|].
    destruct (jsMatch re_vowel (toLowerCase query)); [injection Hk as <-; discriminate|].
    destruct (jsMatch re_char (toLowerCase query)) as [m|] eqn:E; [|discriminate].
    apply re_char_inv in E as (c & -> & Hc). injection Hk as <-.
    destruct (toLowerCase_letter c Hc) as [Hl _]. cbn [group nth Nat.sub].
    rewrite Hl. discriminate.
Qed.

Lemma truthyParam_present (filters : filterSet) (key : string)
    (param : jsstring -> sqlParam) (v : jsstring) :
  filters !! key = Some v -> v <> [] -> truthyParam filters key param = [param v].
Proof.
  intros Hk Hv. unfold truthyParam. rewrite Hk.
  destruct (Z.eqb_spec (jslength v) 0) as [E|E]; [|reflexivity].
  apply jslength_zero in E. contradiction.
Qed.

(** X10: the statement findAllStrings prepares has as many placeholders
    as parameters, at most five; for an empty filter set it has none, so
    the SELECT is unfiltered; for the filter set of the translator, when
    it is not empty (and the numerals of the query are exact), it has at
    least one: the natural-language route never runs an unfiltered
    SELECT. *)
Theorem findAllStatement_parameters :
  (forall filters,
     placeholders (fst (findAllStatement filters))
       = List.length (snd (findAllStatement filters)) /\
     (List.length (snd (findAllStatement filters)) <= 5)%nat) /\
  snd (findAllStatement ∅) = [] /\
  (forall query,
     safeNumerals (toLowerCase query) ->
     parseNaturalLanguageQuery query <> ∅ ->
     snd (findAllStatement (parseNaturalLanguageQuery query)) <> []).
Proof.
  split; [|split].
  - intros filters. destruct (findAllStatement_spec filters) as [Hp Hs].
    split; [exact Hp|]. rewrite Hs, !length_app. unfold truthyParam.
    repeat match goal with
    | |- context [filters !! ?k] => destruct (filters !! k) as [?v|]
    | |- context [negb ?b] => destruct (negb b)
    end; simpl; lia.
  - reflexivity.
  - intros query Hsafe Hne.
    apply map_choose in Hne as (k & v & Hk).
    pose proof (parse_value_nonempty query k v Hsafe Hk) as Hv.
    destruct (findAllStatement_spec (parseNaturalLanguageQuery query)) as [_ Hs].
    rewrite Hs. clear Hs.
    destruct (in_dec string_dec k recognizedKeys) as [Hin|Hout];
      [|rewrite (parse_unknown_key query k Hout) in Hk; discriminate].
    simpl in Hin. destruct Hin as [<-|[<-|[<-|[<-|[<-|[]]]]]].
    + rewrite Hk. discriminate.
    + rewrite (truthyParam_present _ "min_length" _ v Hk Hv).
      destruct (parseNaturalLanguageQuery query !! "is_palindrome"); discriminate.
    + rewrite (truthyParam_present _ "max_length" _ v Hk Hv).
      intros E. apply (f_equal (@List.length sqlParam)) in E.
      rewrite !length_app in E. simpl in E. lia.
    + rewrite (truthyParam_present _ "word_count" _ v Hk Hv).
      intros E. apply (f_equal (@List.length sqlParam)) in E.
      rewrite !length_app in E. simpl in E. lia.
    + rewrite (truthyParam_present _ "contains_character" _ v Hk Hv).
      intros E. apply (f_equal (@List.length sqlParam)) in E.
      rewrite !length_app in E. simpl in E. lia.
Qed.
End StatementFacts.

Lemma findAllStatement_parameters_witness :
  safeNumerals (toLowerCase (rt := RefRuntime) (js "shorter than 0")) /\
  parseNaturalLanguageQuery (rt := RefRuntime) (js "shorter than 0") <> ∅ /\
  snd (findAllStatement (rt := RefRuntime)
         (parseNaturalLanguageQuery (rt := RefRuntime) (js "shorter than 0"))) <> [].
Proof.
  assert (Hne : parseNaturalLanguageQuery (rt := RefRuntime) (js "shorter than 0") <> ∅).
  { intros E. apply (f_equal (fun m : gmap string (list N) => m !! "max_length")) in E.
    vm_compute in E. discriminate E. }
  split; [exact safeNumerals_shorter_than_0|]. split; [exact Hne|].
  exact (proj2 (proj2 (findAllStatement_parameters (rt := RefRuntime))) _
           safeNumerals_shorter_than_0 Hne).
Defined.

(** *** POST, GET and DELETE against the table *)

Lemma errorMessage_notFound (decoded : jsstring) :
  errorMessage (NotFoundError (notFoundResource decoded))
    = Some (js "String " ++ [QUOTE] ++ decoded ++ [QUOTE] ++ js " not found not found").
Proof.
  unfold errorMessage, notFoundResource. rewrite <- !app_assoc. reflexivity.
Qed.

Section StoreRoutes.
Context {rt : JSRuntime} {uri : URIRuntime}.
Variable selectStrings : filterSet -> gmap (list N) Row.t -> list Row.t.
Variable selectByRawValue : jsstring -> gmap (list N) Row.t -> option Row.t.

Lemma analyzeString_trim (s : jsstring) : analyzeString (trim s) = analyzeString s.
Proof. unfold analyzeString. rewrite !trim_idempotent. reflexivity. Qed.

Lemma stringDataOf_id (v : jsstring) : Row.id (stringDataOf v) = sha256_hex (trim v).
Proof. reflexivity. Qed.

(** What POST /strings does with a body value the validator lets
    through. *)
Lemma run_postStrings_valid (s : jsstring) (tbl : table) :
  validateStringInput (JString s) = None ->
  run selectStrings (postStrings (JString s)) tbl =
    match tbl !! sha256_hex (trim s) with
    | Some _ =>
        (Failed (ConflictError (conflictMessage (trim s))), tbl,
         [EvSelectId (sha256_hex (trim s))])
    | None =>
        (Responded 201 (CreatedBody (sha256_hex (trim s)) (trim s) (analyzeString s)),
         <[sha256_hex (trim s) := stringDataOf (trim s)]> tbl,
         [EvSelectId (sha256_hex (trim s)); EvInsert (sha256_hex (trim s))])
    end.
Proof.
  intros Hv. unfold postStrings. rewrite Hv.
  apply validateStringInput_None in Hv as (s' & [= <-] & H1 & _).
  assert (Hne : s <> []) by (intros ->; change (jslength (trim [])) with 0 in H1; lia).
  pose proof (createString_nonempty s Hne) as Hp.
  unfold createString in *. destruct (negb (truthy (JString s))); [discriminate|].
  cbv zeta. cbn [run]. unfold existingStringByValue.
  destruct (tbl !! sha256_hex (trim s)) as [row|] eqn:E.
  - rewrite bool_decide_eq_true_2 by eauto. reflexivity.
  - rewrite bool_decide_eq_false_2 by (intros [? ?]; discriminate).
    cbn [run Row.id]. rewrite analyzeString_trim.
    change (Props.sha256_hash (analyzeString s)) with (sha256_hex (trim s)).
    rewrite E. cbn [run]. unfold stringDataOf. rewrite analyzeString_trim. reflexivity.
Qed.

Lemma run_postStrings_invalid (value : jsvalue) (e : AppError) (tbl : table) :
  validateStringInput value = Some e ->
  run selectStrings (postStrings value) tbl = (Failed e, tbl, []).
Proof. intros Hv. unfold postStrings. rewrite Hv. reflexivity. Qed.

(** X11: a body value that the validator lets through and whose hash is
    not a key of the table is created: the answer is 201 with the id (the
    hash of the trimmed value), the trimmed value and the analysis of the
    value; the table gains exactly the row of the trimmed value under
    that id; the statements are the existence check and the INSERT. *)
Theorem postStrings_created (s : jsstring) (tbl : table) :
  validateStringInput (JString s) = None ->
  tbl !! sha256_hex (trim s) = None ->
  run selectStrings (postStrings (JString s)) tbl
    = (Responded 201 (CreatedBody (sha256_hex (trim s)) (trim s) (analyzeString s)),
       <[sha256_hex (trim s) := stringDataOf (trim s)]> tbl,
       [EvSelectId (sha256_hex (trim s)); EvInsert (sha256_hex (trim s))]) /\
  size (<[sha256_hex (trim s) := stringDataOf (trim s)]> tbl) = S (size tbl) /\
  Row.value (stringDataOf (trim s)) = trim s /\
  Row.length (stringDataOf (trim s)) = jslength (trim s).
Proof.
  intros Hv Hfresh. rewrite (run_postStrings_valid s tbl Hv), Hfresh.
  split; [reflexivity|]. split; [apply map_size_insert_None, Hfresh|].
  split; [reflexivity|]. unfold stringDataOf, analyzeString. cbn [Row.length Props.length].
  rewrite trim_idempotent. reflexivity.
Qed.

(** X12: whatever the body value and the table, POST /strings answers
    201, 400 or 409, never 500 (the INSERT is only sent for a key the
    existence check found free); unless it answers 201 the table is the
    one before; every row of the table is still there afterwards, under
    the same id; and the answer is 409 exactly when the validator lets
    the value through and the hash of its trimmed form is a key of the
    table. *)
Theorem postStrings_never_overwrites (value : jsvalue) (tbl : table) :
  let '(o, tbl', _) := run selectStrings (postStrings value) tbl in
  (outcomeStatus o = 201 \/ outcomeStatus o = 400 \/ outcomeStatus o = 409) /\
  (outcomeStatus o <> 201 -> tbl' = tbl) /\
  (forall id row, tbl !! id = Some row -> tbl' !! id = Some row) /\
  (outcomeStatus o = 409 <->
   exists s, value = JString s /\ validateStringInput value = None /\
             is_Some (tbl !! sha256_hex (trim s))).
Proof.
  destruct (validateStringInput value) as [e|] eqn:Hv.
  - rewrite (run_postStrings_invalid value e tbl Hv).
    destruct (validateStringInput_Some value e Hv) as [message ->].
    cbn [outcomeStatus statusCode].
    split; [auto|]. split; [reflexivity|]. split; [auto|].
    split; [discriminate | intros (s & _ & [=] & _)].
  - destruct (proj1 (validateStringInput_None value) Hv) as (s & -> & _).
    rewrite (run_postStrings_valid s tbl Hv).
    destruct (tbl !! sha256_hex (trim s)) as [row0|] eqn:E; cbn [outcomeStatus statusCode].
    + split; [auto|]. split; [reflexivity|]. split; [auto|].
      split; [intros _; exists s; eauto | reflexivity].
    + split; [auto|]. split; [congruence|]. split.
      * intros id row Hid. rewrite lookup_insert_ne; [exact Hid|]. congruence.
      * split; [discriminate|]. intros (s' & [= <-] & _ & [? Hs]). congruence.
Qed.

(** X13: after POST /strings of a value the validator lets through,
    whatever its outcome, a POST of a value with the same trimmed form is
    answered 409 with the message String "<trimmed value>" already
    exists; it sends the existence check only and leaves the table as the
    first request left it. *)
Theorem postStrings_twice (s s' : jsstring) (tbl : table) :
  validateStringInput (JString s) = None ->
  validateStringInput (JString s') = None ->
  trim s' = trim s ->
  run selectStrings (postStrings (JString s'))
      (snd (fst (run selectStrings (postStrings (JString s)) tbl)))
    = (Failed (ConflictError (conflictMessage (trim s))),
       snd (fst (run selectStrings (postStrings (JString s)) tbl)),
       [EvSelectId (sha256_hex (trim s))]).
Proof.
  intros Hv Hv' Ht. rewrite (run_postStrings_valid s tbl Hv).
  destruct (tbl !! sha256_hex (trim s)) as [row0|] eqn:E; cbn [fst snd];
    rewrite (run_postStrings_valid s' _ Hv'), Ht.
  - rewrite E. reflexivity.
  - rewrite lookup_insert_eq. reflexivity.
Qed.

Lemma runLookup_getString (p d : jsstring) (tbl : table) :
  decodeURIComponent p = Some d ->
  runLookup selectByRawValue (getString p) tbl =
    match tbl !! sha256_hex (trim d) with
    | Some record => runLookup selectByRawValue (recordResponse record) tbl
    | None =>
        match selectByRawValue (trim d) tbl with
        | Some record => runLookup selectByRawValue (recordResponse record) tbl
        | None => (LFailed (NotFoundError (notFoundResource (trim d))), tbl)
        end
    end.
Proof.
  intros Hd. unfold getString. rewrite Hd. cbv zeta. cbn [runLookup].
  unfold findStringByValue. destruct (tbl !! sha256_hex (trim d)); [reflexivity|].
  cbn [runLookup]. destruct (selectByRawValue (trim d) tbl); reflexivity.
Qed.

Lemma runLookup_deleteString (p d : jsstring) (tbl : table) :
  decodeURIComponent p = Some d ->
  runLookup selectByRawValue (deleteString p) tbl =
    match tbl !! sha256_hex (trim d) with
    | Some _ => (LResponded 204 None, delete (sha256_hex (trim d)) tbl)
    | None => (LFailed (NotFoundError (notFoundResource (trim d))), tbl)
    end.
Proof.
  intros Hd. unfold deleteString. rewrite Hd. cbv zeta. cbn [runLookup].
  unfold deleteStringByValue. destruct (tbl !! sha256_hex (trim d)); reflexivity.
Qed.

(** X14: POST then GET. After a value the validator lets through has
    been created, GET /strings/<p>, for every path parameter p that
    decodes to a string with the same trimmed form, answers 200 with the
    id, the trimmed value and the properties that the POST answered, and
    leaves the table alone; p may be the value itself when it holds no
    percent sign. *)
Theorem getString_after_postStrings (s p d : jsstring) (tbl : table) :
  validateStringInput (JString s) = None ->
  tbl !! sha256_hex (trim s) = None ->
  decodeURIComponent p = Some d ->
  trim d = trim s ->
  runLookup selectByRawValue (getString p)
      (snd (fst (run selectStrings (postStrings (JString s)) tbl)))
    = (LResponded 200
         (Some (RecordBody (sha256_hex (trim s)) (trim s) (analyzeString s))),
       snd (fst (run selectStrings (postStrings (JString s)) tbl))) /\
  (existsb (N.eqb PERCENT) s = false -> decodeURIComponent s = Some s).
Proof.
  intros Hv Hfresh Hd Ht. split.
  - rewrite (run_postStrings_valid s tbl Hv), Hfresh. cbn [fst snd].
    rewrite (runLookup_getString p d _ Hd), Ht, lookup_insert_eq.
    unfold recordResponse, stringDataOf. cbn [runLookup]. rewrite analyzeString_trim.
    reflexivity.
  - intros Hp. unfold decodeURIComponent. rewrite Hp. reflexivity.
Qed.

(** X15: GET /strings/<p> never changes the table and answers 200, 404
    or 500; 500 exactly when the path parameter cannot be decoded.
    Otherwise, with d the decoded parameter: a row under the hash of
    trim(d) is the one answered, before any comparison of values; 404 is
    answered exactly when neither the hash nor the comparison of values
    finds a row, and its message is String "<trim(d)>" not found not
    found, the suffix being added a second time by the error class. *)
Theorem getString_outcomes (p : jsstring) (tbl : table) :
  let '(o, tbl') := runLookup selectByRawValue (getString p) tbl in
  tbl' = tbl /\
  (lookupStatus o = 200 \/ lookupStatus o = 404 \/ lookupStatus o = 500) /\
  (lookupStatus o = 500 <-> decodeURIComponent p = None) /\
  (forall d, decodeURIComponent p = Some d ->
     (forall record, tbl !! sha256_hex (trim d) = Some record ->
        (o, tbl') = runLookup selectByRawValue (recordResponse record) tbl) /\
     (lookupStatus o = 404 <->
        tbl !! sha256_hex (trim d) = None /\ selectByRawValue (trim d) tbl = None) /\
     (lookupStatus o = 404 ->
        exists e, o = LFailed e /\
          errorMessage e
            = Some (js "String " ++ [QUOTE] ++ trim d ++ [QUOTE]
                    ++ js " not found not found"))).
Proof.
  destruct (decodeURIComponent p) as [d|] eqn:Hd.
  - rewrite (runLookup_getString p d tbl Hd).
    destruct (tbl !! sha256_hex (trim d)) as [r|] eqn:E;
      [|destruct (selectByRawValue (trim d) tbl) as [r|] eqn:E2];
      cbn [recordResponse runLookup lookupStatus statusCode].
    + split; [reflexivity|]. split; [auto|]. split; [split; discriminate|].
      intros d' [= <-]. rewrite E. split; [intros record [= <-]; reflexivity|].
      split; [split; [discriminate | intros [[=] _]] | discriminate].
    + split; [reflexivity|]. split; [auto|]. split; [split; discriminate|].
      intros d' [= <-]. rewrite E, E2. split; [discriminate|].
      split; [split; [discriminate | intros [_ [=]]] | discriminate].
    + split; [reflexivity|]. split; [auto|]. split; [split; discriminate|].
      intros d' [= <-]. rewrite E, E2. split; [discriminate|].
      split; [split; auto|]. intros _. eexists. split; [reflexivity|].
      apply errorMessage_notFound.
  - unfold getString. rewrite Hd. cbn [runLookup lookupStatus statusCode].
    split; [reflexivity|]. split; [auto|]. split; [split; reflexivity|]. discriminate.
Qed.

(** X16: DELETE /strings/<p>, with d the decoded path parameter and id
    the hash of trim(d). When id is a key of the table the answer is 204
    without a body and the table loses exactly that row; when it is not,
    the answer is 404 and the table is the one before. Rows under other
    ids are never touched, a table keyed by the hashes of its values
    stays so, and a second DELETE of the same parameter is answered 404. *)
Theorem deleteString_outcomes (p d : jsstring) (tbl : table) :
  decodeURIComponent p = Some d ->
  (is_Some (tbl !! sha256_hex (trim d)) ->
     runLookup selectByRawValue (deleteString p) tbl
       = (LResponded 204 None, delete (sha256_hex (trim d)) tbl) /\
     S (size (delete (sha256_hex (trim d)) tbl)) = size tbl) /\
  (tbl !! sha256_hex (trim d) = None ->
     runLookup selectByRawValue (deleteString p) tbl
       = (LFailed (NotFoundError (notFoundResource (trim d))), tbl) /\
     statusCode (NotFoundError (notFoundResource (trim d))) = 404) /\
  (forall id, id <> sha256_hex (trim d) ->
     snd (runLookup selectByRawValue (deleteString p) tbl) !! id = tbl !! id) /\
  (storeInv tbl -> storeInv (snd (runLookup selectByRawValue (deleteString p) tbl))) /\
  runLookup selectByRawValue (deleteString p)
      (snd (runLookup selectByRawValue (deleteString p) tbl))
    = (LFailed (NotFoundError (notFoundResource (trim d))),
       snd (runLookup selectByRawValue (deleteString p) tbl)).
Proof.
  intros Hd. rewrite (runLookup_deleteString p d tbl Hd).
  split; [|split; [|split; [|split]]].
  - intros [row E]. rewrite E. split; [reflexivity|].
    pose proof (map_size_delete_Some (sha256_hex (trim d)) tbl (mk_is_Some _ _ E)) as Hs.
    assert (size tbl <> 0%nat).
    { intros H0. apply map_size_empty_inv in H0. subst tbl.
      rewrite lookup_empty in E. discriminate. }
    lia.
  - intros E. rewrite E. split; reflexivity.
  - intros id Hid. destruct (tbl !! sha256_hex (trim d)); cbn [snd];
      [apply lookup_delete_ne; congruence | reflexivity].
  - intros Hinv. destruct (tbl !! sha256_hex (trim d)); cbn [snd]; [|exact Hinv].
    intros id row Hrow. apply lookup_delete_Some in Hrow as [_ Hrow].
    apply Hinv, Hrow.
  - destruct (tbl !! sha256_hex (trim d)) eqn:E; cbn [snd];
      rewrite (runLookup_deleteString p d _ Hd).
    + rewrite lookup_delete_eq. reflexivity.
    + rewrite E. reflexivity.
Qed.

(** X17: POST then DELETE. After a value the validator lets through has
    been created under a free id, DELETE /strings/<p>, for a path
    parameter that decodes to a string with the same trimmed form,
    answers 204 and gives back the table as it was before the POST; a
    POST of the value after that is answered 201 again. *)
Theorem deleteString_after_postStrings (s p d : jsstring) (tbl : table) :
  validateStringInput (JString s) = None ->
  tbl !! sha256_hex (trim s) = None ->
  decodeURIComponent p = Some d ->
  trim d = trim s ->
  runLookup selectByRawValue (deleteString p)
      (snd (fst (run selectStrings (postStrings (JString s)) tbl)))
    = (LResponded 204 None, tbl) /\
  outcomeStatus
    (fst (fst (run selectStrings (postStrings (JString s))
       (snd (runLookup selectByRawValue (deleteString p)
          (snd (fst (run selectStrings (postStrings (JString s)) tbl)))))))) = 201.
Proof.
  intros Hv Hfresh Hd Ht.
  assert (Hdel : runLookup selectByRawValue (deleteString p)
                   (snd (fst (run selectStrings (postStrings (JString s)) tbl)))
                 = (LResponded 204 None, tbl)).
  { rewrite (run_postStrings_valid s tbl Hv), Hfresh. cbn [fst snd].
    rewrite (runLookup_deleteString p d _ Hd), Ht, lookup_insert_eq.
    rewrite delete_insert_id by exact Hfresh. reflexivity. }
  split; [exact Hdel|]. rewrite Hdel. cbn [snd].
  rewrite (run_postStrings_valid s tbl Hv), Hfresh. reflexivity.
Qed.

(** X18: GET and DELETE do not look a string up the same way. When the
    hash of the decoded, trimmed path parameter is no key of the table
    but the comparison of values finds a row, GET answers 200 with that
    row, while DELETE of the same parameter answers 404 and the row
    stays. *)
Theorem getString_deleteString_differ (p d : jsstring) (record : Row.t) (tbl : table) :
  decodeURIComponent p = Some d ->
  tbl !! sha256_hex (trim d) = None ->
  selectByRawValue (trim d) tbl = Some record ->
  runLookup selectByRawValue (getString p) tbl
    = runLookup selectByRawValue (recordResponse record) tbl /\
  lookupStatus (fst (runLookup selectByRawValue (getString p) tbl)) = 200 /\
  runLookup selectByRawValue (deleteString p) tbl
    = (LFailed (NotFoundError (notFoundResource (trim d))), tbl).
Proof.
  intros Hd Hmiss Hraw.
  rewrite (runLookup_getString p d tbl Hd), (runLookup_deleteString p d tbl Hd), Hmiss, Hraw.
  repeat split.
Qed.
End StoreRoutes.

Lemma postStrings_created_witness :
  validateStringInput (JString (js " level ")) = None /\
  madamTable !! sha256_hex (JSRuntime := RefRuntime) (trim (js " level ")) = None /\
  size (<[sha256_hex (JSRuntime := RefRuntime) (trim (js " level "))
          := stringDataOf (rt := RefRuntime) (trim (js " level "))]> madamTable) = 2%nat.
Proof.
  assert (Hv : validateStringInput (JString (js " level ")) = None) by reflexivity.
  assert (Hf : madamTable !! sha256_hex (JSRuntime := RefRuntime) (trim (js " level ")) = None)
    by (vm_compute; reflexivity).
  split; [exact Hv|]. split; [exact Hf|].
  exact (proj1 (proj2 (postStrings_created (rt := RefRuntime) (fun _ _ => [])
                         (js " level ") madamTable Hv Hf))).
Defined.

Lemma postStrings_twice_witness :
  validateStringInput (JString (js "madam")) = None /\
  validateStringInput (JString (js " madam ")) = None /\
  trim (js " madam ") = trim (js "madam") /\
  fst (fst (run (rt := RefRuntime) (fun _ _ => []) (postStrings (rt := RefRuntime) (JString (js " madam ")))
              (snd (fst (run (rt := RefRuntime) (fun _ _ => [])
                           (postStrings (rt := RefRuntime) (JString (js "madam"))) ∅)))))
    = Failed (ConflictError (conflictMessage (trim (js "madam")))).
Proof.
  split; [reflexivity|]. split; [reflexivity|]. split; [reflexivity|].
  rewrite (postStrings_twice (rt := RefRuntime) (fun _ _ => []) (js "madam") (js " madam ") ∅
             eq_refl eq_refl eq_refl).
  reflexivity.
Defined.

Lemma getString_after_postStrings_witness :
  validateStringInput (JString (js " level ")) = None /\
  madamTable !! sha256_hex (JSRuntime := RefRuntime) (trim (js " level ")) = None /\
  decodeURIComponent (uri := RefURI) (js "level%20") = Some (js "level ") /\
  trim (js "level ") = trim (js " level ") /\
  fst (runLookup (rt := RefRuntime) selectIgnoringCase
         (getString (uri := RefURI) (js "level%20"))
         (snd (fst (run (rt := RefRuntime) (fun _ _ => [])
                      (postStrings (rt := RefRuntime) (JString (js " level "))) madamTable))))
    = LResponded 200
        (Some (RecordBody (sha256_hex (JSRuntime := RefRuntime) (trim (js " level ")))
                 (trim (js " level ")) (analyzeString (rt := RefRuntime) (js " level ")))).
Proof.
  assert (Hf : madamTable !! sha256_hex (JSRuntime := RefRuntime) (trim (js " level ")) = None)
    by (vm_compute; reflexivity).
  split; [reflexivity|]. split; [exact Hf|]. split; [reflexivity|]. split; [reflexivity|].
  rewrite (proj1 (getString_after_postStrings (rt := RefRuntime) (uri := RefURI)
                    (fun _ _ => []) selectIgnoringCase
                    (js " level ") (js "level%20") (js "level ") madamTable
                    eq_refl Hf eq_refl eq_refl)).
  reflexivity.
Defined.

Lemma deleteString_outcomes_witness :
  decodeURIComponent (uri := RefURI) (js "madam%20") = Some (js "madam ") /\
  runLookup (rt := RefRuntime) selectIgnoringCase
      (deleteString (uri := RefURI) (js "madam%20"))
      (snd (runLookup (rt := RefRuntime) selectIgnoringCase
              (deleteString (uri := RefURI) (js "madam%20")) madamTable))
    = (LFailed (NotFoundError (notFoundResource (trim (js "madam ")))),
       snd (runLookup (rt := RefRuntime) selectIgnoringCase
              (deleteString (uri := RefURI) (js "madam%20")) madamTable)).
Proof.
  split; [reflexivity|].
  exact (proj2 (proj2 (proj2 (proj2
           (deleteString_outcomes (rt := RefRuntime) (uri := RefURI) selectIgnoringCase
              (js "madam%20") (js "madam ") madamTable eq_refl))))).
Defined.

Lemma deleteString_after_postStrings_witness :
  validateStringInput (JString (js " level ")) = None /\
  madamTable !! sha256_hex (JSRuntime := RefRuntime) (trim (js " level ")) = None /\
  decodeURIComponent (uri := RefURI) (js "level%20") = Some (js "level ") /\
  trim (js "level ") = trim (js " level ") /\
  runLookup (rt := RefRuntime) selectIgnoringCase
      (deleteString (uri := RefURI) (js "level%20"))
      (snd (fst (run (rt := RefRuntime) (fun _ _ => [])
                   (postStrings (rt := RefRuntime) (JString (js " level "))) madamTable)))
    = (LResponded 204 None, madamTable).
Proof.
  assert (Hf : madamTable !! sha256_hex (JSRuntime := RefRuntime) (trim (js " level ")) = None)
    by (vm_compute; reflexivity).
  split; [reflexivity|]. split; [exact Hf|]. split; [reflexivity|]. split; [reflexivity|].
  exact (proj1 (deleteString_after_postStrings (rt := RefRuntime) (uri := RefURI)
                  (fun _ _ => []) selectIgnoringCase
                  (js " level ") (js "level%20") (js "level ") madamTable
                  eq_refl Hf eq_refl eq_refl)).
Defined.

Lemma getString_deleteString_differ_witness :
  decodeURIComponent (uri := RefURI) (js "MADAM") = Some (js "MADAM") /\
  madamTable !! sha256_hex (JSRuntime := RefRuntime) (trim (js "MADAM")) = None /\
  selectIgnoringCase (trim (js "MADAM")) madamTable = Some madamRow /\
  lookupStatus (fst (runLookup (rt := RefRuntime) selectIgnoringCase
                       (getString (uri := RefURI) (js "MADAM")) madamTable)) = 200 /\
  runLookup (rt := RefRuntime) selectIgnoringCase
      (deleteString (uri := RefURI) (js "MADAM")) madamTable
    = (LFailed (NotFoundError (notFoundResource (trim (js "MADAM")))), madamTable).
Proof.
  assert (Hf : madamTable !! sha256_hex (JSRuntime := RefRuntime) (trim (js "MADAM")) = None)
    by (vm_compute; reflexivity).
  assert (Hr : selectIgnoringCase (trim (js "MADAM")) madamTable = Some madamRow)
    by (vm_compute; reflexivity).
  split; [reflexivity|]. split; [exact Hf|]. split; [exact Hr|].
  exact (proj2 (getString_deleteString_differ (rt := RefRuntime) (uri := RefURI)
                  selectIgnoringCase (js "MADAM") (js "MADAM") madamRow madamTable
                  eq_refl Hf Hr)).
Defined.

Lemma translator_keys_and_values_witness :
  parseNaturalLanguageQuery (rt := RefRuntime) (js "palindromic strings with letter Q")
    !! "contains_character" = Some (js "q") /\
  exists c, js "q" = [c] /\ isLower c = true.
Proof.
  assert (H : parseNaturalLanguageQuery (rt := RefRuntime)
                (js "palindromic strings with letter Q") !! "contains_character"
              = Some (js "q")) by (vm_compute; reflexivity).
  split; [exact H|].
  exact (proj2 (proj2 (proj2 (translator_keys_and_values (rt := RefRuntime)
           (js "palindromic strings with letter Q")))) _ H).
Defined.

Lemma postStrings_never_overwrites_witness :
  madamTable !! Row.id madamRow = Some madamRow /\
  snd (fst (run (rt := RefRuntime) (fun _ _ => [])
              (postStrings (rt := RefRuntime) (JString (js " level "))) madamTable))
    !! Row.id madamRow = Some madamRow.
Proof.
  assert (H : madamTable !! Row.id madamRow = Some madamRow) by apply lookup_singleton_eq.
  split; [exact H|].
  pose proof (postStrings_never_overwrites (rt := RefRuntime) (fun _ _ => [])
                (JString (js " level ")) madamTable) as P.
  destruct (run (rt := RefRuntime) (fun _ _ => [])
              (postStrings (rt := RefRuntime) (JString (js " level "))) madamTable)
    as [[o tbl'] evs].
  cbn [fst snd]. exact (proj1 (proj2 (proj2 P)) _ _ H).
Defined.

Lemma getString_outcomes_witness :
  decodeURIComponent (uri := RefURI) (js "level") = Some (js "level") /\
  lookupStatus (fst (runLookup (rt := RefRuntime) selectIgnoringCase
                       (getString (uri := RefURI) (js "level")) madamTable)) = 404.
Proof.
  split; [reflexivity|].
  pose proof (getString_outcomes (rt := RefRuntime) (uri := RefURI) selectIgnoringCase
                (js "level") madamTable) as P.
  destruct (runLookup (rt := RefRuntime) selectIgnoringCase
              (getString (uri := RefURI) (js "level")) madamTable) as [o tbl'].
  cbn [fst]. destruct P as (_ & _ & _ & P).
  destruct (P (js "level") eq_refl) as (_ & [_ P2] & _).
  apply P2. split; vm_compute; reflexivity.
Defined.

(* ===================================================================== *)
(** ** The router: which chain a request reaches                          *)
(* ===================================================================== *)

Lemma lowerAscii_percent (c : codeunit) : N.eqb PERCENT (lowerAscii c) = N.eqb PERCENT c.
Proof.
  unfold lowerAscii, isUpper, in_range, PERCENT.
  destruct (N.leb_spec 65 c); destruct (N.leb_spec c 90); cbn [andb]; try reflexivity.
  destruct (N.eqb_spec 37 (c + 32)); destruct (N.eqb_spec 37 c); try reflexivity; lia.
Qed.

Lemma existsb_percent_lower (s : jsstring) :
  existsb (N.eqb PERCENT) (map lowerAscii s) = existsb (N.eqb PERCENT) s.
Proof.
  induction s as [|c s IH]; [reflexivity|].
  cbn [map existsb]. rewrite lowerAscii_percent, IH. reflexivity.
Qed.

(** A path that the fixed text of a route matches is matched by the
    route with a parameter in its place, the parameter being the
    segment. *)
Lemma matchPath_static_param (a b : jsstring) (name : string) (path : jsstring)
    (raw : list jsstring) :
  b <> [] ->
  matchPath [Static a; Static b] path = Some raw ->
  exists seg, map lowerAscii seg = map lowerAscii b /\
              matchPath [Static a; Param name] path = Some [seg].
Proof.
  intros Hb. unfold matchPath.
  destruct (splitSlash path) as [|[|c first] segs]; try discriminate.
  destruct segs as [|s1 segs]; [discriminate|]. cbn [matchSegments].
  destruct (jsstring_eqb (map lowerAscii a) (map lowerAscii s1)); [|discriminate].
  destruct segs as [|s2 segs]; [discriminate|].
  destruct (jsstring_eqb (map lowerAscii b) (map lowerAscii s2)) eqn:E; [|discriminate].
  apply jsstring_eqb_eq in E. intros Hrest. exists s2. split; [symmetry; exact E|].
  destruct s2 as [|c2 s2].
  { destruct b; [contradiction | discriminate E]. }
  destruct segs as [|[|c3 s3] [|s4 segs]]; try discriminate Hrest; reflexivity.
Qed.

Section RouterFacts.
Context {rt : JSRuntime} {uri : URIRuntime}.
Variable selectStrings : filterSet -> gmap (list N) Row.t -> list Row.t.
Variable selectByRawValue : jsstring -> gmap (list N) Row.t -> option Row.t.

Lemma decodeURIComponent_plain (s : jsstring) :
  existsb (N.eqb PERCENT) s = false -> decodeURIComponent s = Some s.
Proof. intros Hs. unfold decodeURIComponent. rewrite Hs. reflexivity. Qed.

Lemma decode_natural_language_segment (seg : jsstring) :
  map lowerAscii seg = map lowerAscii (js "filter-by-natural-language") ->
  decodeURIComponent seg = Some seg.
Proof.
  intros Hseg. apply decodeURIComponent_plain.
  rewrite <- existsb_percent_lower, Hseg. reflexivity.
Qed.

(** A GET or HEAD request whose path the route of [filterByNaturalLanguage]
    matches goes to [getString]. *)
Lemma dispatch_natural_language_path (m : method) (path : jsstring) (raw : list jsstring) :
  matchPath [Static (js "strings"); Static (js "filter-by-natural-language")] path
    = Some raw ->
  handlesMethod GET m = true ->
  exists p, map lowerAscii p = js "filter-by-natural-language" /\
            decodeURIComponent p = Some p /\
            dispatch stringRouter m path = Invoke GetStringChain [p].
Proof.
  intros Hmatch Hm.
  assert (Hne : js "filter-by-natural-language" <> []) by discriminate.
  destruct (matchPath_static_param (js "strings") (js "filter-by-natural-language")
              "string_value" path raw Hne Hmatch) as (p & Hp & Hparam).
  pose proof (decode_natural_language_segment p Hp) as Hdec.
  exists p. split; [exact Hp|]. split; [exact Hdec|].
  assert (Hfirst : matchPath [Static (js "strings")] path = None).
  { unfold matchPath in *. destruct (splitSlash path) as [|[|c first] segs]; try reflexivity.
    destruct segs as [|s1 rest]; [discriminate Hparam|].
    cbn [matchSegments] in *.
    destruct (jsstring_eqb (map lowerAscii (js "strings")) (map lowerAscii s1));
      [|reflexivity].
    destruct rest as [|[|c2 s2] rest]; try discriminate Hparam.
    destruct rest; reflexivity. }
  unfold stringRouter. cbn [dispatch route_path route_method route_chain].
  rewrite Hfirst, Hparam. cbn [decodeParams]. rewrite Hdec, Hm. reflexivity.
Qed.

Lemma dispatch_never_natural_language (m : method) (path : jsstring)
    (params : list jsstring) :
  dispatch stringRouter m path <> Invoke FilterByNaturalLanguageChain params.
Proof.
  destruct (matchPath [Static (js "strings"); Static (js "filter-by-natural-language")] path)
    as [raw|] eqn:Hmatch.
  - destruct (handlesMethod GET m) eqn:Hm.
    + destruct (dispatch_natural_language_path m path raw Hmatch Hm) as (p & _ & _ & ->).
      discriminate.
    + unfold stringRouter. cbn [dispatch route_path route_method route_chain].
      rewrite Hmatch, Hm.
      repeat match goal with
      | |- context [match matchPath ?pat path with _ => _ end] =>
          destruct (matchPath pat path)
      | |- context [match decodeParams ?r with _ => _ end] => destruct (decodeParams r)
      | |- context [if handlesMethod ?a m then _ else _] => destruct (handlesMethod a m)
      end; discriminate.
  - unfold stringRouter. cbn [dispatch route_path route_method route_chain].
    rewrite Hmatch.
    repeat match goal with
    | |- context [match matchPath ?pat path with _ => _ end] =>
        destruct (matchPath pat path)
    | |- context [match decodeParams ?r with _ => _ end] => destruct (decodeParams r)
    | |- context [if handlesMethod ?a m then _ else _] => destruct (handlesMethod a m)
    end; discriminate.
Qed.

Lemma runLookup_getString_status (p d : jsstring) (tbl : table) :
  decodeURIComponent p = Some d ->
  snd (runLookup selectByRawValue (getString p) tbl) = tbl /\
  (lookupStatus (fst (runLookup selectByRawValue (getString p) tbl)) = 200 \/
   lookupStatus (fst (runLookup selectByRawValue (getString p) tbl)) = 404).
Proof.
  intros Hd. unfold getString. rewrite Hd. cbv zeta. cbn [runLookup].
  destruct (findStringByValue (trim d) tbl); [split; [reflexivity | left; reflexivity]|].
  cbn [runLookup].
  destruct (selectByRawValue (trim d) tbl); split; try reflexivity;
    [left | right]; reflexivity.
Qed.

Lemma getString_miss (p d : jsstring) (tbl : table) :
  decodeURIComponent p = Some d ->
  tbl !! sha256_hex (trim d) = None ->
  selectByRawValue (trim d) tbl = None ->
  runLookup selectByRawValue (getString p) tbl
    = (LFailed (NotFoundError (notFoundResource (trim d))), tbl) /\
  lookupTrace selectByRawValue (getString p) tbl
    = [CallFindByValue (trim d); CallFindByRawValue (trim d)].
Proof.
  intros Hd Hmiss Hraw. unfold getString. rewrite Hd. cbv zeta.
  cbn [runLookup lookupTrace]. unfold findStringByValue. rewrite Hmiss.
  cbn [runLookup lookupTrace]. rewrite Hraw. split; reflexivity.
Qed.

(** X19: as the routes are registered, the chain of
    filterByNaturalLanguage is never invoked, whatever the method and the
    path: every GET or HEAD request whose path the route
    /strings/filter-by-natural-language matches is handed to getString,
    registered before it for /strings/:string_value, with the segment
    filter-by-natural-language (in the case the request wrote it) as the
    parameter. Whatever its query, such a request is answered by the two
    lookups of getString, with 200 or 404, and the table is left alone.
    The routes /strings and /strings/stats/statistics are reached. *)
Theorem naturalLanguage_route_shadowed :
  (forall m path params,
     dispatch stringRouter m path <> Invoke FilterByNaturalLanguageChain params) /\
  (forall req tbl raw,
     matchPath [Static (js "strings"); Static (js "filter-by-natural-language")]
       (req_path req) = Some raw ->
     handlesMethod GET (req_method req) = true ->
     exists p,
       map lowerAscii p = js "filter-by-natural-language" /\
       dispatch stringRouter (req_method req) (req_path req) = Invoke GetStringChain [p] /\
       serve selectStrings selectByRawValue req tbl
         = LookupAnswer (runLookup selectByRawValue (getString p) tbl)
             (lookupTrace selectByRawValue (getString p) tbl) /\
       snd (runLookup selectByRawValue (getString p) tbl) = tbl /\
       (lookupStatus (fst (runLookup selectByRawValue (getString p) tbl)) = 200 \/
        lookupStatus (fst (runLookup selectByRawValue (getString p) tbl)) = 404)) /\
  dispatch stringRouter GET (js "/strings") = Invoke GetAllStringsChain [] /\
  dispatch stringRouter GET (js "/strings/stats/statistics") = Invoke GetStatisticsChain [] /\
  dispatch stringRouter POST (js "/strings") = Invoke CreateStringChain [].
Proof.
  split; [exact dispatch_never_natural_language|]. split.
  - intros req tbl raw Hmatch Hm.
    destruct (dispatch_natural_language_path _ _ raw Hmatch Hm) as (p & Hp & Hdec & Hd).
    exists p. split; [exact Hp|]. split; [exact Hd|].
    split; [unfold serve; rewrite Hd; reflexivity|].
    exact (runLookup_getString_status p p tbl Hdec).
  - repeat split.
Qed.
End RouterFacts.

Lemma naturalLanguage_route_shadowed_witness :
  matchPath [Static (js "strings"); Static (js "filter-by-natural-language")]
    (js "/Strings/Filter-By-Natural-Language/") = Some [] /\
  handlesMethod GET HEAD = true /\
  exists p,
    map lowerAscii p = js "filter-by-natural-language" /\
    dispatch (uri := RefURI) stringRouter HEAD (js "/Strings/Filter-By-Natural-Language/")
      = Invoke GetStringChain [p].
Proof.
  split; [reflexivity|]. split; [reflexivity|].
  destruct (proj1 (proj2 (naturalLanguage_route_shadowed (rt := RefRuntime) (uri := RefURI)
                            (fun _ _ => []) selectIgnoringCase))
              (mkRequest HEAD (js "/Strings/Filter-By-Natural-Language/")
                 (JString (js "palindrome")) JUndefined)
              madamTable [] eq_refl eq_refl) as (p & Hp & Hd & _).
  exists p. split; [exact Hp | exact Hd].
Defined.

(** C8: the request GET /strings/filter-by-natural-language?query=banana
    against a table that holds the row of "madam". No rule of the
    translator fires on "banana" and its filter set is empty; the chain
    registered for the path, were it invoked, would throw the
    ValidationError that reports the query as unparsable, without a call
    of the store. The router does not invoke it: the request goes to
    getString with the parameter filter-by-natural-language, the store is
    asked twice (by hash, then by value), and the request ends in a
    NotFoundError, status 404, not in a ValidationError. *)
Theorem naturalLanguage_endpoint_no_match :
  noRuleFires (toLowerCase (rt := RefRuntime) (js "banana")) = true /\
  parseNaturalLanguageQuery (rt := RefRuntime) (js "banana") = ∅ /\
  run (rt := RefRuntime) (fun _ _ => [])
      (filterByNaturalLanguageChain (rt := RefRuntime) (JString (js "banana"))) madamTable
    = (Failed (ValidationError (js "Unable to parse natural language query")),
       madamTable, []) /\
  dispatch (uri := RefURI) stringRouter GET (js "/strings/filter-by-natural-language")
    = Invoke GetStringChain [js "filter-by-natural-language"] /\
  serve (rt := RefRuntime) (uri := RefURI) (fun _ _ => []) selectIgnoringCase
      (mkRequest GET (js "/strings/filter-by-natural-language")
         (JString (js "banana")) JUndefined)
      madamTable
    = LookupAnswer
        (LFailed (NotFoundError (notFoundResource (js "filter-by-natural-language"))),
         madamTable)
        [CallFindByValue (js "filter-by-natural-language");
         CallFindByRawValue (js "filter-by-natural-language")] /\
  statusCode (NotFoundError (notFoundResource (js "filter-by-natural-language"))) = 404.
Proof.
  assert (Hno : noRuleFires (toLowerCase (rt := RefRuntime) (js "banana")) = true)
    by (vm_compute; reflexivity).
  assert (Hd : dispatch (uri := RefURI) stringRouter GET
                 (js "/strings/filter-by-natural-language")
               = Invoke GetStringChain [js "filter-by-natural-language"])
    by (vm_compute; reflexivity).
  assert (Hmiss : madamTable !! sha256_hex (JSRuntime := RefRuntime)
                    (trim (js "filter-by-natural-language")) = None)
    by (vm_compute; reflexivity).
  assert (Hraw : selectIgnoringCase (trim (js "filter-by-natural-language")) madamTable
                 = None) by (vm_compute; reflexivity).
  destruct (getString_miss (rt := RefRuntime) (uri := RefURI) selectIgnoringCase
              (js "filter-by-natural-language") (js "filter-by-natural-language")
              madamTable eq_refl Hmiss Hraw) as [Hrun Htrace].
  split; [exact Hno|]. split; [exact (parse_no_match (js "banana") Hno)|]. split.
  { rewrite (proj2 (proj2 (proj2 (filterByNaturalLanguageChain_no_match (rt := RefRuntime))))).
    reflexivity. }
  split; [exact Hd|]. split; [|reflexivity].
  unfold serve. cbn [req_method req_path]. rewrite Hd. cbv beta iota.
  rewrite Hrun, Htrace. reflexivity.
Qed.
